(** * Quartermaster (qmaster): retention planning and the backup engine

    A shallow embedding of [src/utils/retention_manager.py] and of the
    create / restore paths of [src/core/backup_engine.py], with the
    properties of the design document stated and proved (or refuted) on it.

    Conventions.
    - A Python [dict] used as a map is a [gmap]; a [dict] whose iteration
      order is observed is an association list in insertion order.
    - A Python [set] is a [gset].
    - A raised exception is a value of the result type ([None] for the
      [KeyError] of the retention code, [Raised] for the engine). *)

From Stdlib Require Import ZArith Bool Lia Ascii String.
From stdpp Require Import base option gmap strings list fin_maps.

Local Open Scope string_scope.
Local Open Scope list_scope.
Local Open Scope Z_scope.

(** A monadic left fold: the body of a Python [for] loop that may raise. *)
Fixpoint foldM {S A : Type} (f : S -> A -> option S) (s : S) (l : list A) : option S :=
  match l with
  | [] => Some s
  | x :: l' => match f s x with
               | Some s' => foldM f s' l'
               | None => None
               end
  end.

(* ===================================================================== *)
(** ** [datetime]: the part of Python's naive datetime the code uses *)
(* ===================================================================== *)
Module Datetime.

(** [datetime] stores its civil fields. *)
Record datetime := mkDT
  { year : Z; month : Z; day : Z; hour : Z; minute : Z; second : Z; microsecond : Z }.

(** [timedelta], normalised as Python does: [0 <= seconds < 86400],
    [0 <= microseconds < 10^6], the sign carried by [days]. *)
Record timedelta := mkTD { days : Z; seconds : Z; microseconds : Z }.

Definition _is_leap (y : Z) : bool :=
  (y mod 4 =? 0) && (negb (y mod 100 =? 0) || (y mod 400 =? 0)).

Definition _days_before_year (y0 : Z) : Z :=
  let y := y0 - 1 in y * 365 + y / 4 - y / 100 + y / 400.

(** [_DAYS_BEFORE_MONTH], index 1..12. *)
Definition _DAYS_BEFORE_MONTH (m : Z) : Z :=
  match m with
  | 1 => 0 | 2 => 31 | 3 => 59 | 4 => 90 | 5 => 120 | 6 => 151
  | 7 => 181 | 8 => 212 | 9 => 243 | 10 => 273 | 11 => 304 | 12 => 334
  | _ => 0
  end.

Definition _days_before_month (y m : Z) : Z :=
  _DAYS_BEFORE_MONTH m + (if (2 <? m) && _is_leap y then 1 else 0).

Definition _ymd2ord (y m d : Z) : Z :=
  _days_before_year y + _days_before_month y m + d.

Definition toordinal (t : datetime) : Z := _ymd2ord (year t) (month t) (day t).

(** The exact length of a timedelta in microseconds. *)
Definition td_us (d : timedelta) : Z :=
  (days d * 86400 + seconds d) * 1000000 + microseconds d.

Definition td_of_us (us : Z) : timedelta :=
  let s := us / 1000000 in
  {| days := s / 86400; seconds := s mod 86400; microseconds := us mod 1000000 |}.

(** [datetime.__sub__]. *)
Definition sub (a b : datetime) : timedelta :=
  let secs1 := second a + minute a * 60 + hour a * 3600 in
  let secs2 := second b + minute b * 60 + hour b * 3600 in
  td_of_us (((toordinal a - toordinal b) * 86400 + (secs1 - secs2)) * 1000000
            + (microsecond a - microsecond b)).

(** [age.total_seconds() <= n] for an integer [n].  [total_seconds] is the
    quotient of the microsecond count by 10^6; against an integer bound the
    comparison is the one of the microsecond counts. *)
Definition total_seconds_le (d : timedelta) (n : Z) : bool :=
  td_us d <=? n * 1000000.

(** [datetime.date()] as the triple it compares by. *)
Definition date (t : datetime) : Z * Z * Z := (year t, month t, day t).

Definition _isoweek1monday (y : Z) : Z :=
  let firstday := _ymd2ord y 1 1 in
  let firstweekday := (firstday + 6) mod 7 in
  let week1monday := firstday - firstweekday in
  if 3 <? firstweekday then week1monday + 7 else week1monday.

(** [isocalendar()[:2]]: (ISO year, ISO week). *)
Definition isocalendar2 (t : datetime) : Z * Z :=
  let y := year t in
  let today := toordinal t in
  let week := (today - _isoweek1monday y) / 7 in
  if week <? 0 then
    (y - 1, (today - _isoweek1monday (y - 1)) / 7 + 1)
  else if (52 <=? week) && (_isoweek1monday (y + 1) <=? today) then
    (y + 1, 1)
  else (y, week + 1).

(** The tuple a datetime compares by. *)
Definition cmp_key (t : datetime) : list Z :=
  [year t; month t; day t; hour t; minute t; second t; microsecond t].

Fixpoint lex_ltb (a b : list Z) : bool :=
  match a, b with
  | x :: a', y :: b' => (x <? y) || ((x =? y) && lex_ltb a' b')
  | [], _ :: _ => true
  | _, _ => false
  end.

(** [a < b] on datetimes. *)
Definition ltb (a b : datetime) : bool := lex_ltb (cmp_key a) (cmp_key b).

End Datetime.

(* ===================================================================== *)
(** ** RetentionManager *)
(* ===================================================================== *)
Module Retention.
Import Datetime.

Definition UNCATEGORIZED_ARCHIVE_KEEP : nat := 3.

(** The per-backup dictionary built by [_get_backups_with_metadata]; the
    key ["tier"] is absent until [_categorize_into_tiers] sets it. *)
Record backup := mkBackup
  { path : string;
    name : string;
    size : Z;
    mtime : datetime;
    tagged : bool;
    importance : option string;
    tags : list string;
    timestamp : datetime;
    tier : option string }.

Definition set_tier (t : string) (b : backup) : backup :=
  {| path := path b; name := name b; size := size b; mtime := mtime b;
     tagged := tagged b; importance := importance b; tags := tags b;
     timestamp := timestamp b; tier := Some t |}.

(** One tier's configuration dictionary; every key may be absent. *)
Record tier_config := mkTier
  { keep : option Z;
    max_age_hours : option Z;
    max_age_days : option Z;
    max_age_weeks : option Z;
    max_age_months : option Z;
    max_age_years : option Z }.

(** [tiers]: a dict in insertion order. *)
Definition tiers_t := list (string * tier_config).

Fixpoint tiers_get (tiers : tiers_t) (k : string) : option tier_config :=
  match tiers with
  | [] => None
  | (k', c) :: rest => if String.eqb k' k then Some c else tiers_get rest k
  end.

Definition DEFAULT_TIERS : tiers_t :=
  [ ("hourly",  mkTier (Some 24) (Some 24) None None None None);
    ("daily",   mkTier (Some 7)  None (Some 7) None None None);
    ("weekly",  mkTier (Some 4)  None None (Some 4) None None);
    ("monthly", mkTier (Some 12) None None None (Some 12) None);
    ("yearly",  mkTier (Some 5)  None None None None (Some 5)) ].

Definition tier_order : list string :=
  ["hourly"; "daily"; "weekly"; "monthly"; "yearly"].

(** [tiered[k]] (the keys read are always present). *)
Definition tlist (tiered : gmap string (list backup)) (k : string) : list backup :=
  default [] (tiered !! k).

Definition month_key (t : datetime) : Z * Z := (year t, month t).

(** The [if]/[elif] chain computing [fits_tier].  [None] is the [KeyError]
    of [tier_config["max_age_..."]] on a missing key. *)
Definition fits_tier (tier_name : string) (tier_config : tier_config) (now : datetime)
    (tiered : gmap string (list backup)) (b : backup) : option bool :=
  let age := sub now (timestamp b) in
  if String.eqb tier_name "hourly" then
    h ← max_age_hours tier_config;
    Some (total_seconds_le age (h * 3600))
  else if String.eqb tier_name "daily" then
    d ← max_age_days tier_config;
    Some ((days age <=? d)
          && negb (existsb (fun x => bool_decide (date (timestamp x) = date (timestamp b)))
                           (tlist tiered "daily")))
  else if String.eqb tier_name "weekly" then
    w ← max_age_weeks tier_config;
    Some ((days age <=? w * 7)
          && negb (existsb (fun x => bool_decide (isocalendar2 (timestamp x) = isocalendar2 (timestamp b)))
                           (tlist tiered "weekly")))
  else if String.eqb tier_name "monthly" then
    Some ((days age <=? default 12 (max_age_months tier_config) * 30)
          && negb (existsb (fun x => bool_decide (month_key (timestamp x) = month_key (timestamp b)))
                           (tlist tiered "monthly")))
  else if String.eqb tier_name "yearly" then
    Some ((days age <=? default 5 (max_age_years tier_config) * 365)
          && negb (existsb (fun x => bool_decide (year (timestamp x) = year (timestamp b)))
                           (tlist tiered "yearly")))
  else Some false.

(** The loop state: the [tiered] dict and the [assigned] set of names. *)
Definition cat_state : Type := gmap string (list backup) * gset string.

(** The body of the inner [for backup in backups] loop. *)
Definition tier_step (tier_name : string) (cfg : tier_config) (now : datetime)
    (st : cat_state) (b : backup) : option cat_state :=
  if decide (name b ∈ st.2) then Some st
  else
    f ← fits_tier tier_name cfg now st.1 b;
    if (f : bool) then
      Some (<[tier_name := tlist st.1 tier_name ++ [set_tier tier_name b]]> st.1,
            {[name b]} ∪ st.2)
    else Some st.

(** The body of the outer [for tier_name in tier_order] loop. *)
Definition tier_pass (tiers : tiers_t) (now : datetime) (backups : list backup)
    (st : cat_state) (tier_name : string) : option cat_state :=
  match tiers_get tiers tier_name with
  | None => Some st
  | Some cfg => foldM (tier_step tier_name cfg now) st backups
  end.

(** The body of the closing loop over the backups left unassigned. *)
Definition uncat_step (st : cat_state) (b : backup) : cat_state :=
  if decide (name b ∈ st.2) then st
  else (<["uncategorized" := tlist st.1 "uncategorized" ++ [set_tier "uncategorized" b]]> st.1,
        st.2).

Definition tiered_init (tiers : tiers_t) : gmap string (list backup) :=
  <["uncategorized" := []]> (list_to_map (map (fun kc => (kc.1, [])) tiers)).

Definition _categorize_into_tiers (backups : list backup) (tiers : tiers_t) (now : datetime)
    : option (gmap string (list backup)) :=
  st ← foldM (tier_pass tiers now backups) (tiered_init tiers, ∅) tier_order;
  Some (fold_left uncat_step backups st).1.

(** *** The assignment rule, record by record

    [first_fit] offers one record to the tiers of [names] in turn and
    returns the first one whose test accepts it; [assign_record] files the
    record there, or under ["uncategorized"]. *)
Definition fits_fun : Type :=
  string -> tier_config -> datetime -> gmap string (list backup) -> backup -> option bool.

Fixpoint first_fit (fits : fits_fun) (tiers : tiers_t) (now : datetime)
    (tiered : gmap string (list backup)) (b : backup) (names : list string)
    : option (option string) :=
  match names with
  | [] => Some None
  | t :: rest =>
      match tiers_get tiers t with
      | None => first_fit fits tiers now tiered b rest
      | Some cfg =>
          match fits t cfg now tiered b with
          | None => None
          | Some true => Some (Some t)
          | Some false => first_fit fits tiers now tiered b rest
          end
      end
  end.

Definition assign_record (fits : fits_fun) (tiers : tiers_t) (now : datetime)
    (tiered : gmap string (list backup)) (b : backup) : option (gmap string (list backup)) :=
  r ← first_fit fits tiers now tiered b tier_order;
  let k := default "uncategorized" r in
  Some (<[k := tlist tiered k ++ [set_tier k b]]> tiered).

(** First fit with the tests of the code. *)
Definition categorize_by_record (backups : list backup) (tiers : tiers_t) (now : datetime)
    : option (gmap string (list backup)) :=
  foldM (assign_record fits_tier tiers now) (tiered_init tiers) backups.

(** The rule as the design document words it: every tier, the hourly one
    included, takes one record per period bucket; the hourly bucket is the
    hour slot. *)
Definition hour_slot (t : datetime) : Z * Z * Z * Z := (year t, month t, day t, hour t).

Definition fits_tier_spec : fits_fun := fun tier_name cfg now tiered b =>
  if String.eqb tier_name "hourly" then
    f ← fits_tier tier_name cfg now tiered b;
    Some (f && negb (existsb (fun x => bool_decide (hour_slot (timestamp x) = hour_slot (timestamp b)))
                             (tlist tiered "hourly")))
  else fits_tier tier_name cfg now tiered b.

Definition categorize_spec (backups : list backup) (tiers : tiers_t) (now : datetime)
    : option (gmap string (list backup)) :=
  foldM (assign_record fits_tier_spec tiers now) (tiered_init tiers) backups.

(** *** [_apply_retention_rules] *)

(** [list.sort(key=timestamp, reverse=True)]: stable, newest first. *)
Fixpoint insert_newest (x : backup) (l : list backup) : list backup :=
  match l with
  | [] => [x]
  | y :: ys => if ltb (timestamp x) (timestamp y) then y :: insert_newest x ys
               else x :: y :: ys
  end.

Definition sort_newest_first (l : list backup) : list backup :=
  foldr insert_newest [] l.

(** The state of the planning loops: the [tiered] dict (its lists are
    sorted in place), [keep_list] and [delete_list]. *)
Record plan_state := mkPlan
  { ps_tiered : gmap string (list backup);
    keep_list : list backup;
    delete_list : list backup }.

(** [for i, backup in enumerate(tier_backups)]. *)
Fixpoint tier_rule (preserve_tagged : bool) (keep_count : Z) (i : Z)
    (tier_backups : list backup) (kd : list backup * list backup)
    : list backup * list backup :=
  match tier_backups with
  | [] => kd
  | b :: rest =>
      tier_rule preserve_tagged keep_count (i + 1) rest
        (if (preserve_tagged && tagged b) || (i <? keep_count)
         then (kd.1 ++ [b], kd.2)
         else (kd.1, kd.2 ++ [b]))
  end.

Definition rules_tier_step (preserve_tagged : bool) (st : plan_state)
    (kc : string * tier_config) : plan_state :=
  let tier_backups := sort_newest_first (default [] (ps_tiered st !! kc.1)) in
  let tiered' := match ps_tiered st !! kc.1 with
                 | Some _ => <[kc.1 := tier_backups]> (ps_tiered st)
                 | None => ps_tiered st
                 end in
  let kd := tier_rule preserve_tagged (default 5 (keep kc.2)) 0 tier_backups
              (keep_list st, delete_list st) in
  mkPlan tiered' kd.1 kd.2.

Definition count_uncategorized (l : list backup) : nat :=
  length (filter (fun b => tier b = Some "uncategorized") l).

Definition rules_uncat_step (preserve_tagged : bool) (kd : list backup * list backup)
    (b : backup) : list backup * list backup :=
  if preserve_tagged && tagged b then (kd.1 ++ [b], kd.2)
  else if (count_uncategorized kd.1 <? UNCATEGORIZED_ARCHIVE_KEEP)%nat
       then (kd.1 ++ [b], kd.2)
       else (kd.1, kd.2 ++ [b]).

Definition _apply_retention_rules (tiered_backups : gmap string (list backup))
    (tiers : tiers_t) (preserve_tagged : bool) : list backup * list backup :=
  let st := fold_left (rules_tier_step preserve_tagged) tiers
              (mkPlan tiered_backups [] []) in
  fold_left (rules_uncat_step preserve_tagged)
            (default [] (ps_tiered st !! "uncategorized"))
            (keep_list st, delete_list st).

(** *** [_get_backups_with_metadata] *)

(** The ["timestamp"] entry of a sidecar: absent, an ISO string that
    [fromisoformat] parses, or one on which it raises [ValueError]. *)
Inductive ts_field := TsAbsent | TsValid (t : datetime) | TsInvalid.

(** The entries of the metadata sidecar the retention code reads. *)
Record metadata := mkMeta
  { md_timestamp : ts_field;
    md_tags : list string;
    md_keep_forever : bool;
    md_pinned : bool;
    md_importance : option string }.

(** What opening and parsing the sidecar yields. *)
Inductive sidecar := SidecarMissing | SidecarCorrupt | SidecarRead (m : metadata).

(** One file matched by the glob pattern. *)
Record dir_entry := mkEntry
  { de_path : string;
    de_name : string;
    de_size : Z;
    de_mtime : datetime;
    de_symlink : bool;
    de_sidecar : sidecar }.

(** [bool(tags or keep_forever or pinned or importance not in [None, "normal"])]. *)
Definition marked (m : metadata) : bool :=
  negb (bool_decide (md_tags m = []))
  || md_keep_forever m || md_pinned m
  || negb (bool_decide (md_importance m = None) || bool_decide (md_importance m = Some "normal")).

Definition backup_info (e : dir_entry) : backup :=
  let plain := mkBackup (de_path e) (de_name e) (de_size e) (de_mtime e)
                        false (Some "normal") [] (de_mtime e) None in
  match de_sidecar e with
  | SidecarRead m =>
      match md_timestamp m with
      | TsInvalid => plain
      | ts =>
          mkBackup (de_path e) (de_name e) (de_size e) (de_mtime e)
                   (marked m)
                   (Some (default "normal" (md_importance m)))
                   (md_tags m)
                   (match ts with TsValid t => t | _ => de_mtime e end)
                   None
      end
  | _ => plain
  end.

Definition _get_backups_with_metadata (entries : list dir_entry) : list backup :=
  map backup_info (filter (fun e => de_symlink e = false) entries).

(** The planning part of [apply_tiered_retention]: read, sort newest
    first, categorize, apply the rules. *)
Definition plan (entries : list dir_entry) (tiers : tiers_t) (now : datetime)
    (preserve_tagged : bool) : option (list backup * list backup) :=
  let backups := sort_newest_first (_get_backups_with_metadata entries) in
  tiered ← _categorize_into_tiers backups tiers now;
  Some (_apply_retention_rules tiered tiers preserve_tagged).

End Retention.

(* ===================================================================== *)
(** ** Loops that may raise: exchanging two nested [for] loops *)
(* ===================================================================== *)
Section loop_exchange.
Context {S T A K : Type}.
Variable step : T -> A -> S -> option S.
Variable key : A -> K.

(** Two loop bodies commute when running them in either order gives the
    same state, or raises in both orders. *)
Definition commute (f g : S -> option S) : Prop :=
  forall s, f s ≫= g = g s ≫= f.

Definition pass (t : T) (bs : list A) (s : S) : option S :=
  foldM (fun s b => step t b s) s bs.
Definition row (b : A) (ts : list T) (s : S) : option S :=
  foldM (fun s t => step t b s) s ts.
(** Outer loop over [ts], inner loop over [bs] ... *)
Definition tier_major (ts : list T) (bs : list A) (s : S) : option S :=
  foldM (fun s t => pass t bs s) s ts.
(** ... and the other way round. *)
Definition record_major (ts : list T) (bs : list A) (s : S) : option S :=
  foldM (fun s b => row b ts s) s bs.

Lemma foldM_cons {B} (f : S -> B -> option S) s x l :
  foldM f s (x :: l) = f s x ≫= (fun s' => foldM f s' l).
Proof. simpl. destruct (f s x); reflexivity. Qed.

Lemma foldM_app {B} (f : S -> B -> option S) l1 l2 s :
  foldM f s (l1 ++ l2) = foldM f s l1 ≫= (fun s' => foldM f s' l2).
Proof.
  revert s. induction l1 as [|x l1 IH]; intros s; simpl; [reflexivity|].
  destruct (f s x); simpl; [apply IH | reflexivity].
Qed.

Lemma foldM_ext {B} (f g : S -> B -> option S) l s :
  (forall s x, x ∈ l -> f s x = g s x) -> foldM f s l = foldM g s l.
Proof.
  revert s. induction l as [|x l IH]; intros s H; simpl; [reflexivity|].
  rewrite (H s x) by left. destruct (g s x); [|reflexivity].
  apply IH. intros s' y Hy. apply H. by right.
Qed.

Lemma bind_assoc (m : option S) (f g : S -> option S) :
  (m ≫= f) ≫= g = m ≫= (fun s => f s ≫= g).
Proof. destruct m; reflexivity. Qed.

Lemma bind_ext (m : option S) (f g : S -> option S) :
  (forall s, f s = g s) -> m ≫= f = m ≫= g.
Proof. intros H. destruct m; simpl; [apply H | reflexivity]. Qed.

(** A body that commutes with every body of a loop commutes with the loop. *)
Lemma commute_foldM {B} (f : S -> option S) (g : B -> S -> option S) (l : list B) :
  (forall x, x ∈ l -> commute f (g x)) ->
  commute f (fun s => foldM (fun s x => g x s) s l).
Proof.
  induction l as [|x l IH]; intros H s.
  - simpl. destruct (f s); reflexivity.
  - rewrite foldM_cons.
    rewrite (bind_ext (f s) _ (fun s' => g x s' ≫= (fun s'' => foldM (fun s x => g x s) s'' l)))
      by (intros; apply (foldM_cons (fun s x => g x s))).
    rewrite <- bind_assoc. rewrite (H x) by left.
    rewrite !bind_assoc. apply bind_ext. intros s'.
    apply IH. intros y Hy. apply H. by right.
Qed.

Lemma commute_sym f g : commute f g -> commute g f.
Proof. intros H s. symmetry. apply H. Qed.

Lemma commute_pass_row t b ts bs :
  (forall t' b', t' ∈ ts -> b' ∈ bs -> commute (step t b') (step t' b)) ->
  commute (pass t bs) (row b ts).
Proof.
  intros H. unfold pass, row.
  apply commute_sym.
  apply (commute_foldM _ (fun b' => step t b')). intros b' Hb'.
  apply commute_sym.
  apply (commute_foldM _ (fun t' => step t' b)). intros t' Ht'.
  apply H; assumption.
Qed.

Lemma record_major_nil bs s : record_major [] bs s = Some s.
Proof. revert s. induction bs as [|b bs IH]; intros s; simpl; [reflexivity | apply IH]. Qed.

Hypothesis step_commute :
  forall t t' b b', t <> t' -> key b <> key b' -> commute (step t b) (step t' b').

Lemma pass_then_record_major t ts bs s :
  t ∉ ts -> NoDup (map key bs) ->
  pass t bs s ≫= record_major ts bs
  = foldM (fun s b => step t b s ≫= row b ts) s bs.
Proof.
  intros Ht. revert s. induction bs as [|b bs IH]; intros s Hnd; [reflexivity|].
  apply NoDup_cons in Hnd as [Hb Hnd].
  unfold pass, record_major in *.
  rewrite !foldM_cons. rewrite !bind_assoc. apply bind_ext. intros s1.
  rewrite (bind_ext _ _ (fun s2 => row b ts s2 ≫= (fun s3 => foldM (fun s b => row b ts s) s3 bs)))
    by (intros; apply (foldM_cons (fun s b => row b ts s))).
  rewrite <- bind_assoc.
  pose proof (commute_pass_row t b ts bs) as Hc.
  unfold commute, pass in Hc. rewrite Hc.
  - rewrite bind_assoc. apply bind_ext. intros s2. apply IH, Hnd.
  - intros t' b' Ht' Hb'. apply step_commute.
    + intros ->. contradiction.
    + intros Heq. apply Hb. rewrite <- Heq.
      apply list_elem_of_fmap. eauto.
Qed.

(** The exchange: with pairwise commuting bodies the two loop nests
    compute the same state, and raise on the same inputs. *)
Lemma loop_exchange ts bs s :
  NoDup ts -> NoDup (map key bs) ->
  tier_major ts bs s = record_major ts bs s.
Proof.
  intros Hts Hbs. revert s. induction ts as [|t ts IH]; intros s.
  - simpl. symmetry. apply record_major_nil.
  - apply NoDup_cons in Hts as [Ht Hts].
    unfold tier_major. rewrite foldM_cons.
    rewrite (bind_ext _ _ (record_major ts bs)) by (intros; apply IH, Hts).
    rewrite pass_then_record_major by assumption.
    unfold record_major. apply foldM_ext. intros s' b _.
    unfold row. rewrite foldM_cons. reflexivity.
Qed.
End loop_exchange.

(* ===================================================================== *)
(** ** Facts about [_categorize_into_tiers] *)
(* ===================================================================== *)
Module RetentionFacts.
Import Datetime Retention.

(** The body of either kind of pass, keyed by the name of the pass: a tier
    of [tier_order], or the closing ["uncategorized"] loop. *)
Definition cat_step (tiers : tiers_t) (now : datetime) (t : string) (b : backup)
    (st : cat_state) : option cat_state :=
  if String.eqb t "uncategorized" then Some (uncat_step st b)
  else match tiers_get tiers t with
       | None => Some st
       | Some cfg => tier_step t cfg now st b
       end.

Lemma tlist_insert tiered k l k' :
  tlist (<[k := l]> tiered) k' = if decide (k = k') then l else tlist tiered k'.
Proof.
  unfold tlist. rewrite lookup_insert. destruct (decide (k = k')); reflexivity.
Qed.

Lemma tlist_insert_ne tiered k l k' :
  k <> k' -> tlist (<[k := l]> tiered) k' = tlist tiered k'.
Proof. intros H. rewrite tlist_insert. destruct (decide (k = k')); congruence. Qed.

Lemma tlist_insert_eq tiered k l : tlist (<[k := l]> tiered) k = l.
Proof. rewrite tlist_insert. destruct (decide (k = k)); congruence. Qed.

(** A tier's test reads the [tiered] dict at its own key only. *)
Lemma fits_tier_insert_ne t cfg now tiered k l b :
  k <> t -> fits_tier t cfg now (<[k := l]> tiered) b = fits_tier t cfg now tiered b.
Proof.
  intros Hk. unfold fits_tier.
  repeat match goal with
  | |- context [String.eqb t ?c] =>
      destruct (String.eqb_spec t c) as [->|];
      [ rewrite ?tlist_insert_ne by assumption; reflexivity | ]
  end.
  reflexivity.
Qed.

Lemma tier_step_assigned t cfg now tiered A b :
  name b ∈ A -> tier_step t cfg now (tiered, A) b = Some (tiered, A).
Proof. intros H. unfold tier_step. simpl. rewrite decide_True by assumption. reflexivity. Qed.

Lemma tier_step_fresh t cfg now tiered A b :
  name b ∉ A ->
  tier_step t cfg now (tiered, A) b =
  match fits_tier t cfg now tiered b with
  | None => None
  | Some true => Some (<[t := tlist tiered t ++ [set_tier t b]]> tiered, {[name b]} ∪ A)
  | Some false => Some (tiered, A)
  end.
Proof.
  intros H. unfold tier_step. simpl. rewrite decide_False by assumption.
  destruct (fits_tier t cfg now tiered b) as [[|]|]; reflexivity.
Qed.

Lemma not_elem_of_add (x y : string) (A : gset string) :
  x <> y -> x ∉ A -> x ∉ ({[y]} ∪ A : gset string).
Proof.
  intros Hxy HA [H|H]%elem_of_union; [|contradiction].
  apply elem_of_singleton in H. contradiction.
Qed.

Lemma tier_step_commute t cfg t' cfg' now b b' :
  t <> t' -> name b <> name b' ->
  commute (fun s => tier_step t cfg now s b) (fun s => tier_step t' cfg' now s b').
Proof.
  intros Ht Hb [tiered A].
  destruct (decide (name b ∈ A)) as [Hin|Hin];
  destruct (decide (name b' ∈ A)) as [Hin'|Hin'].
  - rewrite !tier_step_assigned by assumption. simpl.
    rewrite !tier_step_assigned by assumption. reflexivity.
  - rewrite (tier_step_assigned t) by assumption. simpl.
    rewrite (tier_step_fresh t') by assumption.
    destruct (fits_tier t' cfg' now tiered b') as [[|]|]; simpl; try reflexivity.
    + rewrite tier_step_assigned by (apply elem_of_union_r, Hin). reflexivity.
    + rewrite tier_step_assigned by assumption. reflexivity.
  - rewrite (tier_step_assigned t') by assumption. simpl.
    rewrite (tier_step_fresh t) by assumption.
    destruct (fits_tier t cfg now tiered b) as [[|]|]; simpl; try reflexivity.
    + rewrite tier_step_assigned by (apply elem_of_union_r, Hin'). reflexivity.
    + rewrite tier_step_assigned by assumption. reflexivity.
  - assert (Hn : name b' <> name b) by congruence.
    assert (Ht' : t' <> t) by congruence.
    rewrite (tier_step_fresh t), (tier_step_fresh t') by assumption.
    destruct (fits_tier t cfg now tiered b) as [[|]|] eqn:F;
    destruct (fits_tier t' cfg' now tiered b') as [[|]|] eqn:F'; simpl;
      rewrite ?tier_step_fresh by (assumption || (apply not_elem_of_add; assumption));
      rewrite ?fits_tier_insert_ne by assumption;
      rewrite ?F, ?F'; try reflexivity.
    rewrite !tlist_insert_ne by assumption.
    f_equal. f_equal.
    + apply insert_insert_ne. assumption.
    + rewrite !(assoc_L (∪)). f_equal. apply (comm_L (∪)).
Qed.

Lemma uncat_step_assigned tiered A b :
  name b ∈ A -> uncat_step (tiered, A) b = (tiered, A).
Proof. intros H. unfold uncat_step. simpl. rewrite decide_True by assumption. reflexivity. Qed.

Lemma uncat_step_fresh tiered A b :
  name b ∉ A ->
  uncat_step (tiered, A) b =
  (<["uncategorized" := tlist tiered "uncategorized" ++ [set_tier "uncategorized" b]]> tiered, A).
Proof. intros H. unfold uncat_step. simpl. rewrite decide_False by assumption. reflexivity. Qed.

Lemma uncat_tier_step_commute t cfg now b b' :
  t <> "uncategorized" -> name b <> name b' ->
  commute (fun s => Some (uncat_step s b)) (fun s => tier_step t cfg now s b').
Proof.
  intros Ht Hb [tiered A]. simpl.
  assert (Ht' : "uncategorized" <> t) by congruence.
  destruct (decide (name b ∈ A)) as [Hin|Hin];
  destruct (decide (name b' ∈ A)) as [Hin'|Hin'].
  - rewrite uncat_step_assigned, tier_step_assigned by assumption. simpl.
    rewrite uncat_step_assigned by assumption. reflexivity.
  - rewrite uncat_step_assigned, tier_step_fresh by assumption.
    destruct (fits_tier t cfg now tiered b') as [[|]|]; simpl; try reflexivity.
    + rewrite uncat_step_assigned by (apply elem_of_union_r, Hin). reflexivity.
    + rewrite uncat_step_assigned by assumption. reflexivity.
  - rewrite uncat_step_fresh, !tier_step_assigned by assumption. simpl.
    rewrite uncat_step_fresh by assumption. reflexivity.
  - rewrite uncat_step_fresh, !tier_step_fresh by assumption.
    rewrite fits_tier_insert_ne by assumption.
    destruct (fits_tier t cfg now tiered b') as [[|]|]; simpl; try reflexivity.
    + rewrite uncat_step_fresh by (apply not_elem_of_add; assumption).
      rewrite !tlist_insert_ne by congruence.
      f_equal. f_equal. apply insert_insert_ne. congruence.
    + rewrite uncat_step_fresh by assumption. reflexivity.
Qed.

Lemma cat_step_commute tiers now t t' b b' :
  t <> t' -> name b <> name b' ->
  commute (cat_step tiers now t b) (cat_step tiers now t' b').
Proof.
  intros Ht Hb. unfold cat_step.
  destruct (String.eqb_spec t "uncategorized") as [->|Hu];
  destruct (String.eqb_spec t' "uncategorized") as [->|Hu']; [congruence| | |].
  - destruct (tiers_get tiers t') as [cfg'|].
    + apply (uncat_tier_step_commute t' cfg' now b b'); assumption.
    + intros s. reflexivity.
  - destruct (tiers_get tiers t) as [cfg|].
    + apply commute_sym. apply (uncat_tier_step_commute t cfg now b' b); congruence.
    + intros s. simpl. reflexivity.
  - destruct (tiers_get tiers t) as [cfg|], (tiers_get tiers t') as [cfg'|].
    + apply (tier_step_commute t cfg t' cfg' now b b'); assumption.
    + intros s. simpl. destruct (tier_step t cfg now s b); reflexivity.
    + intros s. simpl. destruct (tier_step t' cfg' now s b'); reflexivity.
    + intros s. reflexivity.
Qed.

Definition pass_names : list string := tier_order ++ ["uncategorized"].

Lemma pass_names_NoDup : NoDup pass_names.
Proof. apply (bool_decide_unpack _). vm_compute. exact I. Qed.

Lemma uncategorized_not_tier : "uncategorized" ∉ tier_order.
Proof. apply (bool_decide_unpack _). vm_compute. exact I. Qed.

Lemma foldM_total {S A} (f : S -> A -> S) (l : list A) (s : S) :
  foldM (fun s x => Some (f s x)) s l = Some (fold_left f l s).
Proof. revert s. induction l as [|x l IH]; intros s; simpl; [reflexivity | apply IH]. Qed.

Lemma foldM_id {S A} (l : list A) (s : S) : foldM (fun s _ => Some s) s l = Some s.
Proof. induction l; simpl; auto. Qed.

(** The code is the tier-major nest of [cat_step]. *)
Lemma categorize_tier_major backups tiers now :
  _categorize_into_tiers backups tiers now
  = fst <$> tier_major (cat_step tiers now) pass_names backups (tiered_init tiers, ∅).
Proof.
  unfold _categorize_into_tiers, tier_major, pass_names.
  rewrite foldM_app.
  rewrite (foldM_ext (tier_pass tiers now backups)
             (fun s t => pass (cat_step tiers now) t backups s)).
  2:{ intros s t Ht. unfold tier_pass, pass, cat_step.
      assert (String.eqb t "uncategorized" = false) as ->.
      { apply String.eqb_neq. intros ->. revert Ht. apply uncategorized_not_tier. }
      destruct (tiers_get tiers t); [reflexivity|].
      symmetry. apply foldM_id. }
  destruct (foldM _ _ tier_order) as [st|]; simpl; [|reflexivity].
  unfold pass, cat_step. simpl. rewrite foldM_total. reflexivity.
Qed.

Lemma cat_step_assigned tiers now t b tiered A :
  name b ∈ A -> cat_step tiers now t b (tiered, A) = Some (tiered, A).
Proof.
  intros H. unfold cat_step. destruct (String.eqb t "uncategorized").
  - rewrite uncat_step_assigned by assumption. reflexivity.
  - destruct (tiers_get tiers t); [|reflexivity]. apply tier_step_assigned, H.
Qed.

Lemma row_assigned tiers now b ts tiered A :
  name b ∈ A -> row (cat_step tiers now) b ts (tiered, A) = Some (tiered, A).
Proof.
  intros H. unfold row. induction ts as [|t ts IH]; simpl; [reflexivity|].
  rewrite cat_step_assigned by assumption. apply IH.
Qed.

(** What one record's row of tests does, for a record not yet assigned. *)
Lemma row_first_fit tiers now b names tiered A :
  name b ∉ A -> "uncategorized" ∉ names ->
  row (cat_step tiers now) b (names ++ ["uncategorized"]) (tiered, A)
  = r ← first_fit fits_tier tiers now tiered b names;
    Some (match r with
          | Some k => (<[k := tlist tiered k ++ [set_tier k b]]> tiered, {[name b]} ∪ A)
          | None => (<["uncategorized" := tlist tiered "uncategorized"
                                             ++ [set_tier "uncategorized" b]]> tiered, A)
          end).
Proof.
  intros HA. induction names as [|t names IH]; intros Hu.
  - unfold row, cat_step. simpl. rewrite uncat_step_fresh by assumption. reflexivity.
  - apply not_elem_of_cons in Hu as [Hne Hu].
    unfold row in *. simpl. unfold cat_step at 1.
    assert (String.eqb t "uncategorized" = false) as -> by (apply String.eqb_neq; congruence).
    destruct (tiers_get tiers t) as [cfg|]; [|apply IH, Hu].
    rewrite tier_step_fresh by assumption.
    destruct (fits_tier t cfg now tiered b) as [[|]|]; simpl; [|apply IH, Hu|reflexivity].
    apply (row_assigned tiers now b (names ++ ["uncategorized"])).
    apply elem_of_union_l, elem_of_singleton. reflexivity.
Qed.

Lemma record_major_by_record tiers now bs tiered A :
  NoDup (map name bs) -> (forall b, b ∈ bs -> name b ∉ A) ->
  fst <$> record_major (cat_step tiers now) pass_names bs (tiered, A)
  = foldM (assign_record fits_tier tiers now) tiered bs.
Proof.
  revert tiered A. induction bs as [|b bs IH]; intros tiered A Hnd HA; [reflexivity|].
  apply NoDup_cons in Hnd as [Hb Hnd].
  unfold record_major in *. simpl. unfold pass_names.
  rewrite row_first_fit; [| apply HA; left | apply uncategorized_not_tier].
  unfold assign_record at 1.
  destruct (first_fit fits_tier tiers now tiered b tier_order) as [r|]; simpl; [|reflexivity].
  assert (Hfresh : forall b', b' ∈ bs -> name b' ∉ ({[name b]} ∪ A : gset string)).
  { intros b' Hb'. apply not_elem_of_add; [|apply HA; by right].
    intros Heq. apply Hb. rewrite <- Heq. apply list_elem_of_fmap. eauto. }
  destruct r as [k|]; simpl.
  - apply IH; assumption.
  - apply IH; [assumption|]. intros b' Hb'. apply HA. by right.
Qed.

(** *** The code assigns as first fit does *)
Lemma categorize_is_first_fit backups tiers now :
  NoDup (map name backups) ->
  _categorize_into_tiers backups tiers now = categorize_by_record backups tiers now.
Proof.
  intros Hnd. rewrite categorize_tier_major.
  rewrite (loop_exchange (cat_step tiers now) name).
  - apply record_major_by_record; [assumption|]. intros b _. apply not_elem_of_empty.
  - intros t t' b b'. apply cat_step_commute.
  - apply pass_names_NoDup.
  - assumption.
Qed.

(** *** Every record lands in exactly one list *)

Lemma tlist_init tiers k : tlist (tiered_init tiers) k = [].
Proof.
  unfold tiered_init. rewrite tlist_insert. destruct (decide _); [reflexivity|].
  unfold tlist. destruct (list_to_map _ !! k) as [l|] eqn:E; [|reflexivity].
  apply elem_of_list_to_map_2 in E. apply list_elem_of_fmap in E as [kc [E _]].
  inversion E. reflexivity.
Qed.

Lemma foldM_snoc {S A} (f : S -> A -> option S) l x s :
  foldM f s (l ++ [x]) = foldM f s l ≫= (fun s' => f s' x).
Proof. rewrite foldM_app. apply bind_ext. intros s'. simpl. destruct (f s' x); reflexivity. Qed.

Section partition.
Variables (fits : fits_fun) (tiers : tiers_t) (now : datetime).

(** Where the records of [bs] stand in [tiered]: every list entry is a
    record of [bs] stamped with the key of its list, every record of [bs]
    is in a list, and no name is in two lists. *)
Definition partitions (bs : list backup) (tiered : gmap string (list backup)) : Prop :=
  (forall k x, x ∈ tlist tiered k -> exists b, b ∈ bs /\ x = set_tier k b)
  /\ (forall b, b ∈ bs -> exists k, set_tier k b ∈ tlist tiered k)
  /\ (forall k1 k2 x1 x2, x1 ∈ tlist tiered k1 -> x2 ∈ tlist tiered k2 ->
        name x1 = name x2 -> k1 = k2).

Lemma partitions_init : partitions [] (tiered_init tiers).
Proof.
  repeat split.
  - intros k x. rewrite tlist_init. intros H. inversion H.
  - intros b H. inversion H.
  - intros k1 k2 x1 x2. rewrite tlist_init. intros H. inversion H.
Qed.

Lemma partitions_assign bs tiered b tiered' :
  name b ∉ map name bs ->
  partitions bs tiered ->
  assign_record fits tiers now tiered b = Some tiered' ->
  partitions (bs ++ [b]) tiered'.
Proof.
  intros Hb (I1 & I2 & I3). unfold assign_record.
  destruct (first_fit fits tiers now tiered b tier_order) as [r|]; simpl; [|discriminate].
  set (k := default "uncategorized" r). intros [= <-].
  assert (Hold : forall k' x, x ∈ tlist tiered k' -> name x <> name b).
  { intros k' x Hx Heq. destruct (I1 k' x Hx) as (b0 & Hb0 & ->).
    apply Hb. simpl in Heq. rewrite <- Heq. apply list_elem_of_fmap. eauto. }
  assert (Hnew : forall k' x,
             x ∈ tlist (<[k := tlist tiered k ++ [set_tier k b]]> tiered) k' ->
             x ∈ tlist tiered k' \/ (k' = k /\ x = set_tier k b)).
  { intros k' x. rewrite tlist_insert. destruct (decide (k = k')) as [<-|]; [|auto].
    intros [H|H]%elem_of_app; [auto|]. apply list_elem_of_singleton in H. auto. }
  repeat split.
  - intros k' x Hx. destruct (Hnew k' x Hx) as [H|[-> ->]].
    + destruct (I1 k' x H) as (b0 & Hb0 & ->). exists b0.
      split; [apply elem_of_app; auto | reflexivity].
    + exists b. split; [|reflexivity]. apply elem_of_app. right. by left.
  - intros b0 [H|H]%elem_of_app.
    + destruct (I2 b0 H) as [k' Hk']. exists k'. rewrite tlist_insert.
      destruct (decide (k = k')) as [<-|]; [|assumption]. apply elem_of_app. auto.
    + apply list_elem_of_singleton in H as ->. exists k.
      rewrite tlist_insert_eq. apply elem_of_app. right. by left.
  - intros k1 k2 x1 x2 H1 H2 Heq.
    destruct (Hnew k1 x1 H1) as [O1|[-> ->]], (Hnew k2 x2 H2) as [O2|[-> ->]].
    + eapply I3; eassumption.
    + exfalso. apply (Hold k1 x1 O1). exact Heq.
    + exfalso. apply (Hold k2 x2 O2). symmetry. exact Heq.
    + reflexivity.
Qed.

Lemma by_record_partitions bs tiered :
  NoDup (map name bs) ->
  foldM (assign_record fits tiers now) (tiered_init tiers) bs = Some tiered ->
  partitions bs tiered.
Proof.
  revert tiered. induction bs as [|b bs IH] using rev_ind; intros tiered Hnd.
  - intros [= <-]. apply partitions_init.
  - rewrite foldM_snoc.
    destruct (foldM _ _ bs) as [tiered1|] eqn:E; simpl; [|discriminate].
    intros Hb. rewrite map_app in Hnd. apply NoDup_app in Hnd as (Hnd & Hdisj & _).
    eapply partitions_assign; [| apply IH; [assumption | reflexivity] | exact Hb].
    intros Hin. apply (Hdisj _ Hin). simpl. by left.
Qed.
End partition.

(** *** The code returns when the keys it indexes are present *)

(** [tier_config["max_age_hours"]] and its like are plain indexing: the
    hourly, daily and weekly entries need their max-age key. *)
Definition tiers_complete (tiers : tiers_t) : Prop :=
  (forall c, tiers_get tiers "hourly" = Some c -> is_Some (max_age_hours c))
  /\ (forall c, tiers_get tiers "daily" = Some c -> is_Some (max_age_days c))
  /\ (forall c, tiers_get tiers "weekly" = Some c -> is_Some (max_age_weeks c)).

Lemma fits_tier_returns tiers t cfg now tiered b :
  tiers_complete tiers -> tiers_get tiers t = Some cfg ->
  is_Some (fits_tier t cfg now tiered b).
Proof.
  intros (Hh & Hd & Hw) Hget. unfold fits_tier.
  destruct (String.eqb_spec t "hourly") as [->|_].
  { destruct (Hh _ Hget) as [h ->]. simpl. eauto. }
  destruct (String.eqb_spec t "daily") as [->|_].
  { destruct (Hd _ Hget) as [h ->]. simpl. eauto. }
  destruct (String.eqb_spec t "weekly") as [->|_].
  { destruct (Hw _ Hget) as [h ->]. simpl. eauto. }
  repeat (destruct (String.eqb _ _)); eauto.
Qed.

Lemma first_fit_returns tiers now tiered b names :
  tiers_complete tiers -> is_Some (first_fit fits_tier tiers now tiered b names).
Proof.
  intros Hc. induction names as [|t names IH]; simpl; [eauto|].
  destruct (tiers_get tiers t) as [cfg|] eqn:E; [|assumption].
  destruct (fits_tier_returns tiers t cfg now tiered b Hc E) as [[|] ->]; eauto.
Qed.

Lemma by_record_returns tiers now bs tiered :
  tiers_complete tiers -> is_Some (foldM (assign_record fits_tier tiers now) tiered bs).
Proof.
  intros Hc. revert tiered. induction bs as [|b bs IH]; intros tiered; simpl; [eauto|].
  unfold assign_record at 1.
  destruct (first_fit_returns tiers now tiered b tier_order Hc) as [r ->]. simpl. apply IH.
Qed.

(** *** Sample history: two backups taken in the same hour *)

Definition sample_now : datetime := mkDT 2026 11 4 12 0 0 0.

Definition sample_backup (n : string) (h mi : Z) (tg : bool) : backup :=
  mkBackup ("/backups/projects/app/" +:+ n) n 1024 (mkDT 2026 11 4 h mi 0 0)
           tg (Some "normal") [] (mkDT 2026 11 4 h mi 0 0) None.

Definition backup_1150 : backup := sample_backup "app_20261104_115000_full.tar.gz" 11 50 false.
Definition backup_1110 : backup := sample_backup "app_20261104_111000_full.tar.gz" 11 10 false.

Definition same_hour_pair : list backup := [backup_1150; backup_1110].

(** C1, as stated, fails: under the default tiers both backups of 11:xx
    are filed under "hourly" although they share one hour slot; the rule
    with an hourly bucket files the first one only and sends the second
    one on to "daily". *)
Lemma categorize_hourly_ignores_hour_slot :
  (fun t => tlist t "hourly") <$> _categorize_into_tiers same_hour_pair DEFAULT_TIERS sample_now
    = Some [set_tier "hourly" backup_1150; set_tier "hourly" backup_1110]
  /\ name backup_1150 <> name backup_1110
  /\ hour_slot (timestamp backup_1150) = hour_slot (timestamp backup_1110)
  /\ (fun t => (tlist t "hourly", tlist t "daily"))
       <$> categorize_spec same_hour_pair DEFAULT_TIERS sample_now
     = Some ([set_tier "hourly" backup_1150], [set_tier "daily" backup_1110])
  /\ _categorize_into_tiers same_hour_pair DEFAULT_TIERS sample_now
     <> categorize_spec same_hour_pair DEFAULT_TIERS sample_now.
Proof.
  split; [vm_compute; reflexivity|].
  split; [discriminate|].
  split; [reflexivity|].
  split; [vm_compute; reflexivity|].
  intros H.
  apply (f_equal (fmap (fun t => length (tlist t "hourly")))) in H.
  vm_compute in H. discriminate.
Qed.

(** C1 (amended): for a history with distinct file names,
    [_categorize_into_tiers] files every record by first fit in the order
    hourly, daily, weekly, monthly, yearly, where a tier accepts a record
    when its age is within the tier's window and, for daily, weekly, monthly
    and yearly, no record already filed in that tier has the same calendar
    day, ISO week, month or year (the hourly tier tests the age only); a
    record no tier accepts is filed under "uncategorized".  The call returns
    whenever the hourly, daily and weekly entries carry their max-age key,
    every record is in a list, and no record is in two lists. *)
Theorem categorize_first_fit (backups : list backup) (tiers : tiers_t) (now : datetime) :
  NoDup (map name backups) ->
  _categorize_into_tiers backups tiers now = categorize_by_record backups tiers now
  /\ (tiers_complete tiers -> is_Some (_categorize_into_tiers backups tiers now))
  /\ (forall tiered, _categorize_into_tiers backups tiers now = Some tiered ->
        (forall k x, x ∈ tlist tiered k -> exists b, b ∈ backups /\ x = set_tier k b)
        /\ (forall b, b ∈ backups -> exists k, set_tier k b ∈ tlist tiered k)
        /\ (forall k1 k2 x1 x2, x1 ∈ tlist tiered k1 -> x2 ∈ tlist tiered k2 ->
              name x1 = name x2 -> k1 = k2)).
Proof.
  intros Hnd. pose proof (categorize_is_first_fit backups tiers now Hnd) as Heq.
  split; [exact Heq|]. rewrite Heq. split.
  - intros Hc. apply by_record_returns, Hc.
  - intros tiered H. apply (by_record_partitions fits_tier tiers now backups tiered Hnd H).
Qed.

Lemma categorize_first_fit_witness :
  NoDup (map name same_hour_pair)
  /\ _categorize_into_tiers same_hour_pair DEFAULT_TIERS sample_now
     = categorize_by_record same_hour_pair DEFAULT_TIERS sample_now.
Proof.
  assert (H : NoDup (map name same_hour_pair)).
  { apply (bool_decide_unpack _). vm_compute. exact I. }
  split; [exact H|].
  exact (proj1 (categorize_first_fit same_hour_pair DEFAULT_TIERS sample_now H)).
Defined.

(* ===================================================================== *)
(** ** Facts about the planning step *)
(* ===================================================================== *)

Lemma insert_newest_elem x l y : y ∈ insert_newest x l <-> y = x \/ y ∈ l.
Proof.
  induction l as [|z l IH]; simpl.
  - rewrite list_elem_of_singleton. split; [auto|]. intros [H|H]; [auto | inversion H].
  - destruct (ltb (timestamp x) (timestamp z)).
    + rewrite !elem_of_cons, IH. tauto.
    + rewrite !elem_of_cons. tauto.
Qed.

Lemma sort_newest_first_elem l y : y ∈ sort_newest_first l <-> y ∈ l.
Proof.
  induction l as [|x l IH]; simpl; [reflexivity|].
  rewrite insert_newest_elem, IH, elem_of_cons. reflexivity.
Qed.

(** Whatever a tier's loop appends to [delete_list] is a record of that tier
    which the [preserve_tagged and backup["tagged"]] test did not hold back. *)
Lemma tier_rule_delete preserve keep_count l i kd x :
  x ∈ (tier_rule preserve keep_count i l kd).2 ->
  x ∈ kd.2 \/ (x ∈ l /\ preserve && tagged x = false).
Proof.
  revert i kd. induction l as [|b l IH]; intros i kd; simpl; [auto|].
  intros H. apply IH in H as [H|[H1 H2]].
  - destruct ((preserve && tagged b) || (i <? keep_count)) eqn:E; simpl in H; [auto|].
    apply elem_of_app in H as [H|H]; [auto|].
    apply list_elem_of_singleton in H as ->. right. split; [by left|].
    apply orb_false_elim in E as [E _]. exact E.
  - right. split; [by right | assumption].
Qed.

Lemma rules_uncat_delete preserve l kd x :
  x ∈ (fold_left (rules_uncat_step preserve) l kd).2 ->
  x ∈ kd.2 \/ (x ∈ l /\ preserve && tagged x = false).
Proof.
  revert kd. induction l as [|b l IH]; intros kd; simpl; [auto|].
  intros H. apply IH in H as [H|[H1 H2]].
  - unfold rules_uncat_step in H.
    destruct (preserve && tagged b) eqn:E; simpl in H; [auto|].
    destruct (_ <? _)%nat; simpl in H; [auto|].
    apply elem_of_app in H as [H|H]; [auto|].
    apply list_elem_of_singleton in H as ->. right. split; [by left | reflexivity || exact E].
  - right. split; [by right | assumption].
Qed.

(** The in-place sorts leave every list of [tiered] with the same records. *)
Lemma rules_tier_step_tiered preserve st kc k x :
  x ∈ tlist (ps_tiered (rules_tier_step preserve st kc)) k -> x ∈ tlist (ps_tiered st) k.
Proof.
  unfold rules_tier_step. simpl.
  destruct (ps_tiered st !! kc.1) as [l|] eqn:E; [|auto].
  rewrite tlist_insert. destruct (decide (kc.1 = k)) as [<-|]; [|auto].
  rewrite sort_newest_first_elem. unfold tlist. rewrite E. auto.
Qed.

Lemma rules_tiers_delete preserve tiers st x :
  let st' := fold_left (rules_tier_step preserve) tiers st in
  (forall k y, y ∈ tlist (ps_tiered st') k -> y ∈ tlist (ps_tiered st) k)
  /\ (x ∈ delete_list st' ->
      x ∈ delete_list st \/ (preserve && tagged x = false /\ exists k, x ∈ tlist (ps_tiered st) k)).
Proof.
  revert st. induction tiers as [|kc tiers IH]; intros st; simpl; [auto|].
  destruct (IH (rules_tier_step preserve st kc)) as [IH1 IH2]. split.
  - intros k y Hy. apply rules_tier_step_tiered with preserve kc. apply IH1, Hy.
  - intros H. apply IH2 in H as [H|[H1 [k H2]]].
    + unfold rules_tier_step in H. simpl in H.
      apply tier_rule_delete in H as [H|[H1 H2]]; [auto|].
      right. split; [assumption|]. exists kc.1.
      apply (proj1 (sort_newest_first_elem _ _)) in H1. exact H1.
    + right. split; [assumption|]. exists k.
      apply rules_tier_step_tiered with preserve kc. exact H2.
Qed.

(** The delete list of [_apply_retention_rules]: records of [tiered],
    none of them tagged when [preserve_tagged] is set. *)
Lemma apply_rules_delete tiered tiers preserve x :
  x ∈ (_apply_retention_rules tiered tiers preserve).2 ->
  preserve && tagged x = false /\ exists k, x ∈ tlist tiered k.
Proof.
  unfold _apply_retention_rules.
  pose proof (rules_tiers_delete preserve tiers (mkPlan tiered [] []) x) as [H1 H2].
  simpl in H1, H2. intros H.
  apply rules_uncat_delete in H as [H|[Hx Ht]].
  - simpl in H. apply H2 in H as [H|H]; [inversion H | exact H].
  - split; [assumption|]. exists "uncategorized". apply H1. exact Hx.
Qed.

Lemma apply_rules_keeps_tagged tiered tiers :
  Forall (fun b => tagged b = false) (_apply_retention_rules tiered tiers true).2.
Proof.
  apply Forall_forall. intros x Hx.
  apply apply_rules_delete in Hx as [Hx _]. exact Hx.
Qed.

(** *** Where the records of [tiered] come from *)







(** A directory with three backups of the last hours; the middle one is
    marked [keep_forever].  With one hourly slot to keep, the newest stays
    by count, the marked one stays by its tag, the oldest goes. *)
Definition sample_entry (n : string) (h : Z) (kf : bool) : dir_entry :=
  mkEntry ("/backups/projects/app/" +:+ n) n 2048 (mkDT 2026 11 4 h 0 0 0) false
          (SidecarRead (mkMeta (TsValid (mkDT 2026 11 4 h 0 0 0)) [] kf kf (Some "normal"))).

Definition sample_dir : list dir_entry :=
  [ sample_entry "app_20261104_090000_full.tar.gz" 9 false;
    sample_entry "app_20261104_100000_full.tar.gz" 10 true;
    sample_entry "app_20261104_110000_full.tar.gz" 11 false ].

Definition one_hourly : tiers_t := [("hourly", mkTier (Some 1) (Some 24) None None None None)].

Definition sample_keep : list backup :=
  [ set_tier "hourly" (backup_info (sample_entry "app_20261104_110000_full.tar.gz" 11 false));
    set_tier "hourly" (backup_info (sample_entry "app_20261104_100000_full.tar.gz" 10 true)) ].

Definition sample_deleted : backup :=
  set_tier "hourly" (backup_info (sample_entry "app_20261104_090000_full.tar.gz" 9 false)).


End RetentionFacts.

(* ===================================================================== *)
(** ** BackupEngine: data, results and the filesystem the engine acts on *)
(* ===================================================================== *)
Module Engine.

(** *** Exceptions and results *)

Inductive exn :=
  | ValueError (msg : string)
  | RuntimeError (msg : string)
  | FileNotFoundError (msg : string)
  | OSError (msg : string)
  | FilterError (msg : string)
  | KeyError (msg : string).

Definition exn_msg (e : exn) : string :=
  match e with
  | ValueError m | RuntimeError m | FileNotFoundError m
  | OSError m | FilterError m | KeyError m => m
  end.

(** What a call does: it returns a value or an exception leaves it. *)
Inductive outcome (A : Type) :=
  | Returned (a : A)
  | Raised (e : exn).
Arguments Returned {A} a.
Arguments Raised {A} e.

(** The [(success, message)] pair of the public operations.  The
    [({size_mb:.2f} MB)] tail of the success messages is left out. *)
Definition result : Type := bool * string.

(** *** Strings and paths *)

Fixpoint split_on (c : ascii) (s : string) : list string :=
  match s with
  | EmptyString => [EmptyString]
  | String a s' =>
      if Ascii.eqb a c then EmptyString :: split_on c s'
      else match split_on c s' with
           | h :: t => String a h :: t
           | [] => [String a EmptyString]
           end
  end.

(** [name.split("/")]. *)
Definition split_slash (s : string) : list string := split_on "/"%char s.

Definition startswith (s p : string) : bool := String.prefix p s.

Fixpoint all_chars (p : ascii -> bool) (s : string) : bool :=
  match s with
  | EmptyString => true
  | String a s' => p a && all_chars p s'
  end.

Fixpoint ends_with_newline (s : string) : bool :=
  match s with
  | EmptyString => false
  | String a EmptyString => Ascii.eqb a "010"%char
  | String _ s' => ends_with_newline s'
  end.

Fixpoint drop_last (s : string) : string :=
  match s with
  | EmptyString => EmptyString
  | String _ EmptyString => EmptyString
  | String a s' => String a (drop_last s')
  end.

(** The character class [[a-zA-Z0-9_\-\.]]. *)
Definition ident_char (a : ascii) : bool :=
  let n := Ascii.N_of_ascii a in
  ((97 <=? n) && (n <=? 122))%N || ((65 <=? n) && (n <=? 90))%N
  || ((48 <=? n) && (n <=? 57))%N
  || Ascii.eqb a "_"%char || Ascii.eqb a "-"%char || Ascii.eqb a "."%char.

(** [re.match(r"^[a-zA-Z0-9_\-\.]+$", name)]: one or more characters of the
    class up to the end of the string; [$] also matches just before a
    newline that ends the string. *)
Definition identifier_matches (name : string) : bool :=
  let body := if ends_with_newline name then drop_last name else name in
  negb (String.eqb body "") && all_chars ident_char body.

Definition _validate_identifier (name identifier_type : string) : outcome bool :=
  if identifier_matches name then Returned true
  else Raised (ValueError ("Invalid " +:+ identifier_type +:+ ": '" +:+ name +:+
               "'. Only alphanumeric characters, underscores, hyphens, and dots allowed.")).

(** The components [pathlib] keeps: the non-empty ones other than ["."]. *)
Definition path_components (s : string) : list string :=
  filter (fun x => x <> "" /\ x <> ".") (split_slash s).

(** [Path(s).name]. *)
Definition path_name (s : string) : string := List.last (path_components s) "".

(** [".." in Path(s).parts]. *)
Definition has_dotdot (s : string) : bool := bool_decide (".." ∈ path_components s).

(** [os.path.isabs]. *)
Definition isabs (s : string) : bool := startswith s "/".

Definition _validate_backup_filename (filename : string) : outcome unit :=
  if negb (String.eqb (path_name filename) filename) || has_dotdot filename
  then Raised (ValueError ("Invalid backup filename: '" +:+ filename +:+
                 "'. Must be a plain filename with no path components."))
  else Returned tt.

(** *** Archive members *)

Inductive member_type := REGTYPE | DIRTYPE | SYMTYPE | LNKTYPE | CHRTYPE | BLKTYPE | FIFOTYPE.

Record TarInfo := mkTarInfo
  { ti_name : string;
    ti_type : member_type;
    ti_mtime : Z;
    ti_size : Z;
    ti_mode : Z;
    ti_linkname : string }.

Definition isdir (t : TarInfo) : bool := match ti_type t with DIRTYPE => true | _ => false end.
Definition isfile (t : TarInfo) : bool := match ti_type t with REGTYPE => true | _ => false end.
Definition issym (t : TarInfo) : bool := match ti_type t with SYMTYPE => true | _ => false end.
Definition islnk (t : TarInfo) : bool := match ti_type t with LNKTYPE => true | _ => false end.

Definition set_name (n : string) (t : TarInfo) : TarInfo :=
  mkTarInfo n (ti_type t) (ti_mtime t) (ti_size t) (ti_mode t) (ti_linkname t).

(** *** The SnapshotIndex file: path -> {mtime, size, mode}

    Modification times are the floats [stat] reports; the code stores and
    compares them and never computes with them, so they are integers here
    (say, nanoseconds). *)
Record snap_entry := mkSnap
  { se_mtime : option Z; se_size : option Z; se_mode : option Z }.

(** *** The metadata sidecar, as [_create_backup_metadata] writes it *)
Record sidecar := mkSidecar
  { sc_backup_name : string;
    sc_item_name : string;
    sc_item_type : string;
    sc_description : option string;
    sc_timestamp : string;
    sc_size_bytes : Z;
    sc_checksum_sha256 : option string;
    sc_tags : list string;
    sc_importance : option string;
    sc_keep_forever : bool;
    sc_pinned : bool;
    sc_backup_type : option string;
    sc_incremental : option bool;
    sc_files_added : option Z;
    sc_files_skipped : option Z;
    sc_base_backup : option string }.

(** *** Files *)
Inductive content :=
  | Archive (members : list TarInfo)
  | Snapshot (s : gmap string snap_entry)
  | Metadata (m : sidecar)
  | Bytes (b : string).

Inductive node :=
  | File (c : content) (mode : Z) (mtime : Z)
  | Symlink (target : string)
  | Directory.

Inductive level := DEBUG | INFO | WARNING | ERROR.

(** The operations of [_finalize_backup] that touch the disk, as they happen. *)
Inductive event :=
  | EvChmod (path : string) (mode : Z)
  | EvChecksum (path : string)
  | EvWriteMetadata (path : string)
  | EvCopy (src dst : string)
  | EvSkipCopy (src dst : string)
  | EvSymlink (link target : string)
  | EvCleanup (dir : string) (retention_days : Z)
  | EvMoveAside (src dst : string)
  | EvExtract (dest : string) (member_name : string) (kind : member_type).

Record world := mkWorld
  { files : gmap string node;
    log : list (level * string);
    trace : list event }.

(** The points at which the operating system may fail a call. *)
Inductive stage :=
  | AtMkdir | AtListBackups | AtOpenArchive | AtAddFiles | AtWriteSnapshot
  | AtChmod | AtChecksum | AtWriteMetadata | AtSyncMkdir | AtCopy
  | AtSymlink | AtCleanup | AtUnlinkPartial | AtMoveAside | AtOpenForRead | AtExtract.

(** *** The monad of the engine: state that survives an exception *)
Definition M (A : Type) : Type := world -> outcome A * world.

Definition ret {A} (a : A) : M A := fun w => (Returned a, w).
Definition raise {A} (e : exn) : M A := fun w => (Raised e, w).
Definition bind {A B} (m : M A) (k : A -> M B) : M B :=
  fun w => match m w with
           | (Returned a, w') => k a w'
           | (Raised e, w') => (Raised e, w')
           end.
(** [try: m  except Exception as e: h e]. *)
Definition try_except {A} (m : M A) (h : exn -> M A) : M A :=
  fun w => match m w with
           | (Returned a, w') => (Returned a, w')
           | (Raised e, w') => h e w'
           end.

Definition get_files : M (gmap string node) := fun w => (Returned (files w), w).
Definition modify_files (f : gmap string node -> gmap string node) : M unit :=
  fun w => (Returned tt, mkWorld (f (files w)) (log w) (trace w)).
Definition logger (l : level) (msg : string) : M unit :=
  fun w => (Returned tt, mkWorld (files w) (log w ++ [(l, msg)]) (trace w)).
Definition emit (e : event) : M unit :=
  fun w => (Returned tt, mkWorld (files w) (log w) (trace w ++ [e])).

Declare Scope engine_scope.
Delimit Scope engine_scope with engine.
Notation "'do' x <- m ; k" := (bind m (fun x => k))
  (at level 10, x name, m at level 100, k at level 200) : engine_scope.
Notation "m ;; k" := (bind m (fun _ => k))
  (at level 100, k at level 200, right associativity) : engine_scope.
Local Open Scope engine_scope.

Definition when (b : bool) (m : M unit) : M unit := if b then m else ret tt.

(** A system call at [s]: it raises [OSError] when the run's fault plan
    says so. *)
Definition syscall (fault : stage -> bool) (s : stage) (what : string) : M unit :=
  if fault s then raise (OSError what) else ret tt.

Definition exists_path (fs : gmap string node) (p : string) : bool :=
  bool_decide (is_Some (fs !! p)).

(** *** Source trees, configuration and the run's environment *)

(** A directory tree as [tar.add] walks it: the member [gettarinfo] builds
    for the entry, and, for a directory, its entries in sorted order. *)
#[warnings="-register-all"]
Inductive tree := Node (info : TarInfo) (children : list tree).

Record project := mkProject
  { p_path : string;
    p_enabled : bool;
    p_exclude : list string;
    p_retention_days : option Z }.

(** What a run reads from outside the engine: the configuration, the clock,
    the interpreter, the library functions the code calls, and which
    system calls fail. *)
Record env := mkEnv
  { projects : list (string * project);
    global_excludes : list string;
    default_retention_days : option Z;
    important_tags : list string;
    local_path : string;
    sync_path : option string;
    max_parallel_backups : Z;
    python_3_12 : bool;
    (** [datetime.now()] as [%Y%m%d_%H%M%S], as [%Y%m%d], in ISO format,
        and as a POSIX time in the unit of the file times *)
    clock_stamp : string;
    clock_today : string;
    clock_iso : string;
    clock_epoch : Z;
    day_length : Z;
    (** the project tree found at a path; [None]: the path does not exist *)
    source_tree : string -> option tree;
    (** [f_bavail * f_frsize] of [os.statvfs]; [None]: the call raises *)
    available_bytes : string -> option Z;
    (** a compiled exclusion pattern, as its [match] on a name *)
    compile_pattern : string -> string -> bool;
    (** [fnmatch.fnmatch name pattern] *)
    fnmatch : string -> string -> bool;
    (** the SHA-256 digest and the byte size of a file's content *)
    sha256 : content -> string;
    size_of : content -> Z;
    (** [Path(p).resolve()] (it follows the symlinks on disk) *)
    resolve : string -> string;
    fault : stage -> bool }.

Fixpoint get_assoc {V} (l : list (string * V)) (k : string) : option V :=
  match l with
  | [] => None
  | (k', v) :: rest => if String.eqb k' k then Some v else get_assoc rest k
  end.

Definition get_project (E : env) (name : string) : option project :=
  get_assoc (projects E) name.

Definition path_join (a b : string) : string := a +:+ "/" +:+ b.
Infix "//" := path_join (at level 40, left associativity) : engine_scope.

Fixpoint endswith (s suffix : string) : bool :=
  String.eqb s suffix
  || match s with
     | EmptyString => false
     | String _ s' => endswith s' suffix
     end.

Fixpoint drop_chars (n : nat) (s : string) : string :=
  match n, s with
  | S k, String _ s' => drop_chars k s'
  | _, _ => s
  end.

(** [str.replace(old, new)] for a non-empty [old]. *)
Fixpoint replace_from (old new : string) (skip : nat) (s : string) : string :=
  match s with
  | EmptyString => EmptyString
  | String a s' =>
      match skip with
      | S k => replace_from old new k s'
      | O => if String.prefix old s
             then new +:+ replace_from old new (String.length old - 1) s'
             else String a (replace_from old new 0 s')
      end
  end.
Definition replace (old new s : string) : string := replace_from old new 0 s.

(** The name of [p] inside [dir], when [p] is an entry of [dir]. *)
Definition entry_name (dir p : string) : option string :=
  let pre := dir +:+ "/" in
  if String.prefix pre p then
    let n := drop_chars (String.length pre) p in
    if String.eqb n "" || negb (bool_decide (length (split_slash n) = 1%nat)) then None else Some n
  else None.

(** [directory.glob(prefix + "*" + suffix)]: the entries of [dir] whose name
    starts with [prefix] and ends with [suffix]. *)
Definition glob (fs : gmap string node) (dir pre suffix : string) : list (string * node) :=
  List.filter (fun pn => match entry_name dir pn.1 with
                         | Some n => String.prefix pre n && endswith n suffix
                                     && (String.length (pre +:+ suffix) <=? String.length n)%nat
                         | None => false
                         end)
              (map_to_list fs).

Definition is_symlink (n : node) : bool := match n with Symlink _ => true | _ => false end.

(** *** The archive filter of [backup_project] *)

Record filter_state := mkFilter
  { files_added : Z;
    files_skipped : Z;
    new_snapshot : gmap string snap_entry }.

Definition snap_of (t : TarInfo) : snap_entry :=
  mkSnap (Some (ti_mtime t)) (Some (ti_size t)) (Some (ti_mode t)).

(** [any(part starts with "_" or "." for part in name.split("/")[1:])]. *)
Definition hidden_part (name : string) : bool :=
  existsb (fun part => startswith part "_" || startswith part ".") (tail (split_slash name)).

Definition regex_excluded (exclude_regexes : list (string -> bool)) (name : string) : bool :=
  existsb (fun regex => regex name) exclude_regexes.

(** [tarinfo.mtime <= old_mtime and tarinfo.size == old_size], with the
    defaults of the two [.get] calls. *)
Definition unchanged (e : snap_entry) (t : TarInfo) : bool :=
  (ti_mtime t <=? default 0 (se_mtime e)) && (ti_size t =? default (-1) (se_size e)).

(** [filter_func]: [None] leaves the member (and, for a directory, what is
    below it) out of the archive.  [incremental] and [backup_type] are the
    enclosing function's variables at the time of the call. *)
Definition filter_func (exclude_regexes : list (string -> bool))
    (incremental : bool) (backup_type : string) (file_snapshot : gmap string snap_entry)
    (st : filter_state) (tarinfo : TarInfo) : option TarInfo * filter_state :=
  if hidden_part (ti_name tarinfo) then (None, st)
  else if regex_excluded exclude_regexes (ti_name tarinfo) then (None, st)
  else
    let add_file :=
      if isfile tarinfo
      then (Some tarinfo,
            mkFilter (files_added st + 1) (files_skipped st)
                     (<[ti_name tarinfo := snap_of tarinfo]> (new_snapshot st)))
      else (Some tarinfo, st) in
    if incremental && String.eqb backup_type "incremental" then
      if isdir tarinfo then (Some tarinfo, st)
      else match file_snapshot !! ti_name tarinfo with
           | Some e =>
               if unchanged e tarinfo
               then (None, mkFilter (files_added st) (files_skipped st + 1)
                             (<[ti_name tarinfo := snap_of tarinfo]> (new_snapshot st)))
               else add_file
           | None => add_file
           end
    else add_file.

(** [tar.add(path, arcname, filter=...)]: a member the filter drops is not
    written, and a dropped directory is not entered. *)
Fixpoint tar_add (filter : filter_state -> TarInfo -> option TarInfo * filter_state)
    (t : tree) (acc : filter_state * list TarInfo) : filter_state * list TarInfo :=
  match t with
  | Node info children =>
      match filter acc.1 info with
      | (None, st) => (st, acc.2)
      | (Some ti, st) =>
          if isdir ti
          then fold_left (fun a c => tar_add filter c a) children (st, acc.2 ++ [ti])
          else (st, acc.2 ++ [ti])
      end
  end.

(** *** Finalization *)

Definition lift {A} (o : outcome A) : M A := fun w => (o, w).

Definition metadata_name_of (backup_name : string) : string :=
  replace ".bundle" ".json" (replace ".sql.gz" ".json" (replace ".tar.gz" ".json" backup_name)).

(** [_backup_name_to_meta_name]. *)
Definition _backup_name_to_meta_name (backup_filename : string) : string :=
  let strip ext := String.substring 0 (String.length backup_filename - String.length ext)
                                    backup_filename +:+ ".json" in
  if endswith backup_filename ".tar.gz" then strip ".tar.gz"
  else if endswith backup_filename ".sql.gz" then strip ".sql.gz"
  else if endswith backup_filename ".bundle" then strip ".bundle"
  else backup_filename +:+ ".json".

Definition file_content (fs : gmap string node) (p : string) : option content :=
  match fs !! p with
  | Some (File c _ _) => Some c
  | _ => None
  end.

(** [os.chmod(path, mode)]. *)
Definition chmod (E : env) (p : string) (mode : Z) : M unit :=
  syscall (fault E) AtChmod "chmod" ;;
  do fs <- get_files;
  match fs !! p with
  | Some (File c _ t) => modify_files (insert p (File c mode t)) ;; emit (EvChmod p mode)
  | Some _ => emit (EvChmod p mode)
  | None => raise (FileNotFoundError p)
  end.

(** [_calculate_file_checksum]. *)
Definition _calculate_file_checksum (E : env) (p : string) : M string :=
  syscall (fault E) AtChecksum "read for checksum" ;;
  do fs <- get_files;
  match file_content fs p with
  | Some c => emit (EvChecksum p) ;; ret (sha256 E c)
  | None => raise (FileNotFoundError p)
  end.

(** The entries a project backup adds to the sidecar ([extra_metadata]). *)
Record extra_metadata := mkExtra
  { ex_backup_type : string;
    ex_incremental : bool;
    ex_files_added : option Z;
    ex_files_skipped : option Z;
    ex_base_backup : option string }.

Definition _create_backup_metadata (E : env) (backup_dir backup_name item_name item_type : string)
    (description : option string) (size_bytes : Z) (backup_file_path : string)
    (extra : option extra_metadata) : M unit :=
  let metadata_name := metadata_name_of backup_name in
  let metadata_path := backup_dir // metadata_name in
  do fs <- get_files;
  do checksum <-
    (if exists_path fs backup_file_path then
       try_except
         (do c <- _calculate_file_checksum E backup_file_path;
          logger INFO ("Calculated SHA256 checksum for " +:+ backup_name) ;;
          ret c)
         (fun e =>
            logger ERROR ("CRITICAL: Failed to calculate checksum for " +:+ backup_name) ;;
            raise (RuntimeError ("Failed to calculate backup checksum: " +:+ exn_msg e)))
     else
       logger ERROR ("CRITICAL: Backup file does not exist for checksum calculation: "
                     +:+ backup_file_path) ;;
       raise (FileNotFoundError ("Cannot calculate checksum - backup file not found: "
                                 +:+ backup_file_path)));
  let metadata :=
    mkSidecar backup_name item_name item_type description (clock_iso E) size_bytes
              (Some checksum) [] (Some "normal") false false
              (ex_backup_type <$> extra) (ex_incremental <$> extra)
              (extra ≫= ex_files_added) (extra ≫= ex_files_skipped)
              (extra ≫= ex_base_backup) in
  try_except
    (syscall (fault E) AtWriteMetadata "write metadata" ;;
     modify_files (insert metadata_path (File (Metadata metadata) 420 (clock_epoch E))) ;;
     emit (EvWriteMetadata metadata_path) ;;
     logger INFO ("Created metadata file with checksum: " +:+ metadata_name))
    (fun e =>
       logger ERROR ("Failed to create metadata file: " +:+ exn_msg e) ;;
       raise (RuntimeError ("Failed to create backup metadata: " +:+ exn_msg e))).

(** [shutil.copy2]. *)
Definition copy2 (E : env) (source destination : string) : M unit :=
  syscall (fault E) AtCopy "copy2" ;;
  do fs <- get_files;
  match fs !! source with
  | Some n => modify_files (insert destination n) ;; emit (EvCopy source destination)
  | None => raise (FileNotFoundError source)
  end.

(** [_smart_copy]: [True] when the file was copied, [False] when the
    destination already had the same size and checksum. *)
Definition _smart_copy (E : env) (source destination : string) : M bool :=
  do fs <- get_files;
  if negb (exists_path fs destination) then
    copy2 E source destination ;;
    logger DEBUG ("Copied " +:+ source +:+ " (new file)") ;; ret true
  else
    match file_content fs source, file_content fs destination with
    | Some cs, Some cd =>
        if negb (size_of E cs =? size_of E cd) then
          copy2 E source destination ;;
          logger DEBUG ("Copied " +:+ source +:+ " (size changed)") ;; ret true
        else
          do source_checksum <- _calculate_file_checksum E source;
          do dest_checksum <- _calculate_file_checksum E destination;
          if negb (String.eqb source_checksum dest_checksum) then
            copy2 E source destination ;;
            logger DEBUG ("Copied " +:+ source +:+ " (checksum mismatch)") ;; ret true
          else
            emit (EvSkipCopy source destination) ;;
            logger DEBUG ("Skipped copying " +:+ source +:+ " (identical)") ;; ret false
    | None, _ => raise (FileNotFoundError source)
    | _, None => raise (OSError destination)
    end.

(** [self.sync_path and self.sync_path != self.local_path]. *)
Definition secondary (E : env) : option string :=
  match sync_path E with
  | Some sp => if String.eqb sp "" || String.eqb sp (local_path E) then None else Some sp
  | None => None
  end.

Definition _sync_to_secondary (E : env) (local_dir subdirectory backup_name : string) : M unit :=
  match secondary E with
  | None => ret tt
  | Some sp =>
      let sync_dir := sp // subdirectory in
      syscall (fault E) AtSyncMkdir "mkdir" ;;
      modify_files (insert sync_dir Directory) ;;
      do copied <- _smart_copy E (local_dir // backup_name) (sync_dir // backup_name);
      when (negb copied)
           (logger INFO ("Skipped secondary sync for " +:+ backup_name +:+ " (file unchanged)")) ;;
      let metadata_name := metadata_name_of backup_name in
      do fs <- get_files;
      if exists_path fs (local_dir // metadata_name)
      then (do _ <- _smart_copy E (local_dir // metadata_name) (sync_dir // metadata_name); ret tt)
      else ret tt
  end.

(** Whether [_cleanup_old_backups] holds a backup back on its sidecar. *)
Definition should_preserve (E : env) (m : sidecar) : bool :=
  if sc_keep_forever m || sc_pinned m then true
  else if bool_decide (sc_importance m = Some "critical") || bool_decide (sc_importance m = Some "high")
  then true
  else existsb (fun tag => bool_decide (tag ∈ important_tags E)) (sc_tags m).

(** One backup file of the cleanup loop. *)
Definition cleanup_one (E : env) (directory : string) (retention_days : Z)
    (pn : string * node) : M unit :=
  match pn.2 with
  | File _ _ mtime =>
      let name := default "" (entry_name directory pn.1) in
      let metadata_path := directory // _backup_name_to_meta_name name in
      do fs <- get_files;
      do preserve <-
        match fs !! metadata_path with
        | Some (File (Metadata m) _ _) => ret (should_preserve E m)
        | Some _ => logger WARNING ("Could not read metadata for " +:+ name) ;; ret false
        | None => ret false
        end;
      if (preserve : bool) then logger DEBUG ("Preserving " +:+ name)
      else if mtime <? clock_epoch E - retention_days * day_length E then
        modify_files (fun fs => delete metadata_path (delete pn.1 fs)) ;;
        logger INFO ("Removed old backup: " +:+ name)
      else ret tt
  | _ => ret tt
  end.

Fixpoint for_each {A} (f : A -> M unit) (l : list A) : M unit :=
  match l with
  | [] => ret tt
  | x :: l' => f x ;; for_each f l'
  end.

Definition _cleanup_old_backups (E : env) (patterns : list string)
    (directory : string) (retention_days : Z) : M unit :=
  emit (EvCleanup directory retention_days) ;;
  do fs <- get_files;
  if negb (exists_path fs directory) then ret tt
  else
    syscall (fault E) AtCleanup "cleanup" ;;
    for_each (fun suffix => for_each (cleanup_one E directory retention_days)
                                     (glob fs directory "" suffix))
             patterns.

(** The default [patterns] of [_cleanup_old_backups], as suffixes. *)
Definition default_patterns : list string := [".tar.gz"; ".sql.gz"].

Definition _run_retention_cleanup (E : env) (local_dir : string) (sync_subdirectory : string)
    (retention_days : Z) (cleanup_fn : string -> Z -> M unit) : M unit :=
  cleanup_fn local_dir retention_days ;;
  match secondary E with
  | Some sp =>
      if String.eqb sync_subdirectory "" then ret tt
      else
        do fs <- get_files;
        when (exists_path fs (sp // sync_subdirectory))
             (cleanup_fn (sp // sync_subdirectory) retention_days)
  | None => ret tt
  end.

(** [latest_link.unlink()] if it is there, then [symlink_to]. *)
Definition update_latest (E : env) (backup_dir latest_link_name target : string) : M unit :=
  syscall (fault E) AtSymlink "symlink" ;;
  modify_files (insert (backup_dir // latest_link_name) (Symlink target)) ;;
  emit (EvSymlink (backup_dir // latest_link_name) target).

(** [_finalize_backup].  [local_backup_path] is [backup_dir / backup_name]
    at every call site; the result is the size in bytes. *)
Definition _finalize_backup (E : env) (backup_dir backup_name item_name item_type : string)
    (description : option string) (sync_subdirectory latest_link_name : string)
    (retention_days : Z) (extra : option extra_metadata)
    (cleanup_fn : string -> Z -> M unit) : M Z :=
  let local_backup_path := backup_dir // backup_name in
  (* Set permissions *)
  chmod E local_backup_path 384 ;;
  (* Create metadata file with checksum *)
  do fs <- get_files;
  let size_bytes := default 0 (size_of E <$> file_content fs local_backup_path) in
  _create_backup_metadata E backup_dir backup_name item_name item_type description
                          size_bytes local_backup_path extra ;;
  (* Copy to secondary sync location (with metadata) *)
  _sync_to_secondary E backup_dir sync_subdirectory backup_name ;;
  (* Create symlink to latest *)
  update_latest E backup_dir latest_link_name backup_name ;;
  (* Clean old backups (local + sync) *)
  _run_retention_cleanup E backup_dir sync_subdirectory retention_days cleanup_fn ;;
  ret size_bytes.

(** The four callers of [_finalize_backup] and what they pass. *)
Inductive backup_kind := KProject | KComplete | KDatabase | KGit.

Definition finalize_for (E : env) (kind : backup_kind) (item backup_name : string)
    (description : option string) (retention_days : Z) (extra : option extra_metadata) : M Z :=
  match kind with
  | KProject =>
      _finalize_backup E (local_path E // "projects" // item) backup_name item "project"
        description ("projects/" +:+ item) "latest.tar.gz" retention_days extra
        (_cleanup_old_backups E default_patterns)
  | KComplete =>
      _finalize_backup E (local_path E // "projects" // item) backup_name item "project_complete"
        (Some (default "Complete backup (all files including configs)" description))
        ("projects/" +:+ item) "latest_complete.tar.gz" retention_days extra
        (_cleanup_old_backups E default_patterns)
  | KDatabase =>
      _finalize_backup E (local_path E // "databases" // item) backup_name item "database"
        description ("databases/" +:+ item)
        (if endswith backup_name ".gz" then "latest.sql.gz" else "latest.sql")
        retention_days None
        (_cleanup_old_backups E default_patterns)
  | KGit =>
      _finalize_backup E (local_path E // "git" // item) backup_name item "git"
        description ("git/" +:+ item) "latest.bundle" retention_days extra
        (_cleanup_old_backups E [".bundle"])
  end.

(** *** [backup_project] *)

Definition ESTIMATED_COMPRESSION_RATIO : Z * Z := (7, 10).
Definition DEFAULT_PROJECT_RETENTION_DAYS : Z := 30.

Fixpoint tree_nodes (t : tree) : list TarInfo :=
  match t with
  | Node info children => info :: flat_map tree_nodes children
  end.

Definition tree_children (t : tree) : list tree :=
  match t with Node _ children => children end.

(** The name of a member relative to the parent of the project directory:
    the archive name with the directory's own name as first component. *)
Definition disk_name (project_path member_name : string) : string :=
  String.concat "/" (path_name project_path :: tail (split_slash member_name)).

Definition _has_backup_today (E : env) (fs : gmap string node) (backup_dir name_prefix : string)
    : bool :=
  if negb (exists_path fs backup_dir) then false
  else
    let pre := name_prefix +:+ "_" +:+ clock_today E +:+ "_" in
    match glob fs backup_dir pre ".tar.gz" with
    | _ :: _ => true
    | [] => match glob fs backup_dir pre ".sql.gz" with
            | _ :: _ => true
            | [] => match glob fs backup_dir pre ".bundle" with
                    | _ :: _ => true
                    | [] => false
                    end
            end
    end.

(** [_estimate_project_size]: the sizes of the files below the root that no
    rule excludes. *)
Definition _estimate_project_size (E : env) (project_path : string) (t : tree)
    (exclude_patterns : list string) : Z :=
  let exclude_regexes := map (compile_pattern E) exclude_patterns in
  foldr (fun ti total =>
           if negb (hidden_part (ti_name ti)
                    || regex_excluded exclude_regexes (disk_name project_path (ti_name ti)))
              && isfile ti
           then total + ti_size ti else total)
        0 (flat_map tree_nodes (tree_children t)).

(** [_check_disk_space].  The margin is a float in the code (1.2, 1.1); the
    product [required_bytes * safety_margin] is taken exactly here, as the
    fraction [margin.1 / margin.2]. *)
Definition _check_disk_space (E : env) (path : string) (required_bytes : Z) (margin : Z * Z)
    : M result :=
  match available_bytes E path with
  | None =>
      logger WARNING "Could not check disk space" ;;
      ret (true, "Disk space check skipped (error occurred)")
  | Some available =>
      if available * margin.2 <? required_bytes * margin.1
      then ret (false, "Insufficient disk space")
      else ret (true, "Sufficient disk space available")
  end.

(** The newest of the globbed full backups: the head of the list sorted by
    [st_mtime], newest first. *)
Definition node_mtime (n : node) : Z := match n with File _ _ t => t | _ => 0 end.

Definition newest_full (l : list (string * node)) : option string :=
  fst <$> fold_left (fun best pn =>
                       match best with
                       | None => Some pn
                       | Some b => if node_mtime b.2 <? node_mtime pn.2 then Some pn else Some b
                       end)
                    (List.filter (fun pn => negb (is_symlink pn.2)) l) None.

(** What the [try] block has decided once the baseline was looked up and the
    snapshot loaded: the function's variables [incremental], [backup_type],
    [backup_name], [last_full_backup] and [file_snapshot]. *)
Record backup_plan := mkPlanB
  { bp_incremental : bool;
    bp_backup_type : string;
    bp_backup_name : string;
    bp_last_full : option string;
    bp_file_snapshot : gmap string snap_entry }.

(** What opening and parsing the snapshot file gave. *)
Inductive snapshot_load :=
  | SnapAbsent
  | SnapUnreadable
  | SnapLoaded (s : gmap string snap_entry).

Definition read_snapshot (E : env) (fs : gmap string node) (p : string) : snapshot_load :=
  match fs !! p with
  | None => SnapAbsent
  | Some (File (Snapshot s) _ _) => if fault E AtOpenForRead then SnapUnreadable else SnapLoaded s
  | Some _ => SnapUnreadable
  end.

(** Lines 453-505: full or incremental, under which name, against which
    snapshot. *)
Definition plan_backup (project_name timestamp : string) (incremental : bool)
    (last_full : option string) (snap : snapshot_load) : M backup_plan :=
  (* Look for the last full backup *)
  do incremental1 <-
    (if incremental then
       match last_full with
       | Some _ => ret true
       | None =>
           logger INFO ("No full backup found for '" +:+ project_name
                        +:+ "', performing full backup") ;;
           ret false
       end
     else ret false);
  let last_full_backup := if incremental then last_full else None in
  (* Determine backup type and filename *)
  do type_name <-
    (if incremental1 && bool_decide (is_Some last_full_backup) then
       logger INFO ("Starting incremental backup of project '" +:+ project_name +:+ "'") ;;
       ret ("incremental", project_name +:+ "_" +:+ timestamp +:+ "_incr.tar.gz")
     else
       logger INFO ("Starting full backup of project '" +:+ project_name +:+ "'") ;;
       ret ("full", project_name +:+ "_" +:+ timestamp +:+ "_full.tar.gz"));
  (* Load or create snapshot for incremental backup *)
  if incremental1 && bool_decide (is_Some last_full_backup) then
    match snap with
    | SnapAbsent => ret (mkPlanB incremental1 type_name.1 type_name.2 last_full_backup ∅)
    | SnapLoaded s => ret (mkPlanB incremental1 type_name.1 type_name.2 last_full_backup s)
    | SnapUnreadable =>
        logger WARNING "Could not load snapshot file, performing full backup" ;;
        ret (mkPlanB false "full" type_name.2 last_full_backup ∅)
    end
  else ret (mkPlanB incremental1 type_name.1 type_name.2 last_full_backup ∅).

(** The snapshot a full backup writes: every file of the walk that no
    pattern excludes, under its name on disk. *)
Definition full_snapshot (exclude_regexes : list (string -> bool)) (project_path : string)
    (t : tree) : gmap string snap_entry :=
  fold_left (fun m ti =>
               if isdir ti then m
               else
                 let rel_path := disk_name project_path (ti_name ti) in
                 if regex_excluded exclude_regexes rel_path then m
                 else <[rel_path := snap_of ti]> m)
            (flat_map tree_nodes (tree_children t)) ∅.

(** Lines 567-601: save the snapshot; a failure is logged and swallowed. *)
Definition save_snapshot (E : env) (exclude_regexes : list (string -> bool))
    (project : project) (t : tree) (snapshot_file : string)
    (plan : backup_plan) (st : filter_state) : M unit :=
  if String.eqb (bp_backup_type plan) "full"
     || (bp_incremental plan && negb (bool_decide (new_snapshot st = ∅)))
  then
    try_except
      (let new_snapshot' :=
         if String.eqb (bp_backup_type plan) "full"
         then full_snapshot exclude_regexes (p_path project) t
         else new_snapshot st in
       syscall (fault E) AtWriteSnapshot "write snapshot" ;;
       modify_files (insert snapshot_file (File (Snapshot new_snapshot') 420 (clock_epoch E))) ;;
       logger DEBUG "Saved snapshot")
      (fun e => logger WARNING ("Failed to save snapshot: " +:+ exn_msg e))
  else ret tt.

(** The [except Exception] clause of [backup_project]; [local_backup_path]
    is the variable of that name if it is bound when the exception arrives. *)
Definition backup_failed (E : env) (project_name : string) (local_backup_path : option string)
    (e : exn) : M result :=
  logger ERROR ("Failed to backup project '" +:+ project_name +:+ "': " +:+ exn_msg e) ;;
  do fs <- get_files;
  match local_backup_path with
  | Some p =>
      when (exists_path fs p)
           (if fault E AtUnlinkPartial
            then logger WARNING ("Could not remove partial archive " +:+ p)
            else modify_files (delete p) ;;
                 logger INFO ("Cleaned up partial archive: " +:+ p))
  | None => ret tt
  end ;;
  ret (false, "Backup failed: " +:+ exn_msg e).

(** A step of the [try] block: an exception it raises goes to the handler. *)
Definition guarded {A} (E : env) (project_name : string) (local_backup_path : option string)
    (m : M A) (k : A -> M result) : M result :=
  fun w => match m w with
           | (Returned a, w') => k a w'
           | (Raised e, w') => backup_failed E project_name local_backup_path e w'
           end.

(** [local_backup_dir.mkdir(parents=True, exist_ok=True)]. *)
Definition make_backup_dir (E : env) (local_backup_dir : string) : M unit :=
  syscall (fault E) AtMkdir "mkdir" ;;
  modify_files (insert local_backup_dir Directory).

(** Lines 453-505, with the glob for the last full backup and the read of
    the snapshot file. *)
Definition choose_plan (E : env) (project_name local_backup_dir : string) (incremental : bool)
    : M backup_plan :=
  do fs <- get_files;
  let snapshot_file := local_backup_dir // ("." +:+ project_name +:+ "_snapshot.json") in
  do last_full <-
    (if incremental then
       syscall (fault E) AtListBackups "glob" ;;
       ret ((fun p => default p (entry_name local_backup_dir p))
              <$> newest_full (glob fs local_backup_dir (project_name +:+ "_") "_full.tar.gz"))
     else ret None);
  plan_backup project_name (clock_stamp E) incremental last_full
              (read_snapshot E fs snapshot_file).

(** Lines 485-619: write the archive, save the snapshot, finalize. *)
Definition write_and_finalize (E : env) (project_name : string) (project : project) (t : tree)
    (description : option string) (local_backup_dir : string) (exclude_patterns : list string)
    (plan : backup_plan) : M unit :=
  let local_backup_path := local_backup_dir // bp_backup_name plan in
  let all_exclude_patterns := remove_dups (["_*/"; ".*/"] ++ exclude_patterns) in
  let exclude_regexes := map (compile_pattern E) all_exclude_patterns in
  (* Create tar archive with exclusions and incremental logic *)
  syscall (fault E) AtOpenArchive "tarfile.open" ;;
  modify_files (insert local_backup_path (File (Archive []) 420 (clock_epoch E))) ;;
  syscall (fault E) AtAddFiles "tar.add" ;;
  let added := tar_add (filter_func exclude_regexes (bp_incremental plan)
                                    (bp_backup_type plan) (bp_file_snapshot plan))
                       t (mkFilter 0 0 ∅, []) in
  modify_files (insert local_backup_path (File (Archive added.2) 420 (clock_epoch E))) ;;
  when (bp_incremental plan) (logger INFO "Incremental backup: files added, files unchanged") ;;
  (* Save snapshot for next incremental backup *)
  save_snapshot E exclude_regexes project t
                (local_backup_dir // ("." +:+ project_name +:+ "_snapshot.json"))
                plan added.1 ;;
  (* Finalize: permissions, metadata, sync, symlink, retention *)
  let metadata_extra :=
    mkExtra (bp_backup_type plan) (bp_incremental plan)
            (if bp_incremental plan then Some (files_added added.1) else None)
            (if bp_incremental plan then Some (files_skipped added.1) else None)
            (if bp_incremental plan then bp_last_full plan else None) in
  let retention_days :=
    default (default DEFAULT_PROJECT_RETENTION_DAYS (default_retention_days E))
            (p_retention_days project) in
  do _ <- finalize_for E KProject project_name (bp_backup_name plan) description
                       retention_days (Some metadata_extra);
  logger INFO ("Successfully backed up '" +:+ project_name +:+ "'").

(** The [try] block of [backup_project] with its [except] clause. *)
Definition backup_project_try (E : env) (project_name : string) (project : project) (t : tree)
    (description : option string) (incremental : bool) (exclude_patterns : list string)
    : M result :=
  let local_backup_dir := local_path E // "projects" // project_name in
  let backup_name0 := project_name +:+ "_" +:+ clock_stamp E +:+ ".tar.gz" in
  guarded E project_name None (make_backup_dir E local_backup_dir) (fun _ =>
  guarded E project_name (Some (local_backup_dir // backup_name0))
    (choose_plan E project_name local_backup_dir incremental) (fun plan =>
  guarded E project_name (Some (local_backup_dir // bp_backup_name plan))
    (write_and_finalize E project_name project t description local_backup_dir
                        exclude_patterns plan) (fun _ =>
  ret (true, "Backup successful: " +:+ bp_backup_name plan)))).

Definition backup_project (E : env) (project_name : string) (description : option string)
    (incremental skip_if_exists_today : bool) : M result :=
  do _ <- lift (_validate_identifier project_name "project name");
  match get_project E project_name with
  | None => ret (false, "Project '" +:+ project_name +:+ "' not found in configuration")
  | Some project =>
  if negb (p_enabled project)
  then ret (false, "Backup disabled for project '" +:+ project_name +:+ "'")
  else
  match source_tree E (p_path project) with
  | None => ret (false, "Project path does not exist: " +:+ p_path project)
  | Some t =>
  let local_backup_dir := local_path E // "projects" // project_name in
  do fs <- get_files;
  if skip_if_exists_today && _has_backup_today E fs local_backup_dir project_name
  then ret (true, "Skipped: backup already exists for today")
  else
  (* Check disk space before starting backup *)
  let exclude_patterns := remove_dups (p_exclude project ++ global_excludes E) in
  let estimated_size := _estimate_project_size E (p_path project) t exclude_patterns in
  let estimated_compressed_size :=
    estimated_size * ESTIMATED_COMPRESSION_RATIO.1 / ESTIMATED_COMPRESSION_RATIO.2 in
  do space <- _check_disk_space E local_backup_dir estimated_compressed_size (12, 10);
  if negb space.1 then
    logger ERROR ("Disk space check failed for project '" +:+ project_name +:+ "': " +:+ space.2) ;;
    ret (false, space.2)
  else
  logger DEBUG ("Disk space check passed: " +:+ space.2) ;;
  backup_project_try E project_name project t description incremental exclude_patterns
  end
  end.

(** *** Restore *)

(** [os.path.dirname]. *)
Definition dirname (p : string) : string :=
  String.concat "/" (removelast (split_slash p)).

Definition within (resolved target : string) : bool :=
  startswith resolved (target +:+ "/") || String.eqb resolved target.

Definition protected_prefixes : list string :=
  ["/bin"; "/sbin"; "/usr"; "/etc"; "/boot"; "/dev"; "/proc"; "/sys"; "/lib"; "/lib64"].

Definition _validate_restore_target (E : env) (target_path : string) : outcome unit :=
  let resolved := resolve E target_path in
  if existsb (fun pre => within resolved pre) protected_prefixes
  then Raised (ValueError ("Restore target '" +:+ resolved
                           +:+ "' is inside a protected system directory."))
  else Returned tt.

(** [tarfile.data_filter] of Python 3.12, as its documentation states it:
    it refuses a member leaving the destination, a link with an absolute
    target or a target outside the destination, and a special file. *)
Definition data_filter (E : env) (dest : string) (m : TarInfo) : outcome TarInfo :=
  let dest_path := resolve E dest in
  if negb (within (resolve E (dest // ti_name m)) dest_path)
  then Raised (FilterError "OutsideDestinationError")
  else if issym m || islnk m then
    if isabs (ti_linkname m) then Raised (FilterError "AbsoluteLinkError")
    else
      let target := if issym m then dest // dirname (ti_name m) // ti_linkname m
                    else dest // ti_linkname m in
      if negb (within (resolve E target) dest_path)
      then Raised (FilterError "LinkOutsideDestinationError")
      else Returned m
  else if isfile m || isdir m then Returned m
  else Raised (FilterError "SpecialFileError").

Definition node_of_member (E : env) (m : TarInfo) : node :=
  match ti_type m with
  | DIRTYPE => Directory
  | SYMTYPE => Symlink (ti_linkname m)
  | _ => File (Bytes "") (ti_mode m) (ti_mtime m)
  end.

(** [tar.extract(member, path, filter=...)]: one member onto the disk. *)
Definition tar_extract (E : env) (path : string) (m : TarInfo) : M unit :=
  do m' <- (if python_3_12 E then lift (data_filter E path m) else ret m);
  syscall (fault E) AtExtract "extract" ;;
  modify_files (insert (path // ti_name m') (node_of_member E m')) ;;
  emit (EvExtract path (ti_name m') (ti_type m')).

(** [tar.extractall(path, members=...)]: the members in order; the first
    one that fails ends the call, the ones before it stay extracted. *)
Definition tar_extractall (E : env) (path : string) (members : list TarInfo) : M unit :=
  for_each (tar_extract E path) members.

(** The checking loop of [_safe_extractall]. *)
Fixpoint check_members (E : env) (target : string) (members safe_members : list TarInfo)
    : outcome (list TarInfo) :=
  match members with
  | [] => Returned safe_members
  | member :: rest =>
      (* Reject absolute paths and '..' components *)
      if isabs (ti_name member) || has_dotdot (ti_name member)
      then Raised (ValueError ("Tar member '" +:+ ti_name member
                               +:+ "' would extract outside target directory"))
      else if negb (within (resolve E (target // ti_name member)) target)
      then Raised (ValueError ("Tar member '" +:+ ti_name member
                               +:+ "' would extract outside target directory"))
      else check_members E target rest (safe_members ++ [member])
  end.

Definition _safe_extractall (E : env) (members : list TarInfo) (path : string) : M unit :=
  let target := resolve E path in
  do safe_members <- lift (check_members E target members []);
  tar_extractall E path safe_members.

(** [verify_backup]. *)
Definition item_dir (E : env) (item_type item_name : string) : option string :=
  if String.eqb item_type "project" then Some (local_path E // "projects" // item_name)
  else if String.eqb item_type "database" then Some (local_path E // "databases" // item_name)
  else if String.eqb item_type "git" then Some (local_path E // "git" // item_name)
  else None.

Definition verify_backup (E : env) (item_type item_name backup_file : string) : M result :=
  match item_dir E item_type item_name with
  | None => ret (false, "Invalid item type: " +:+ item_type)
  | Some backup_dir =>
      let backup_path := backup_dir // backup_file in
      let metadata_name := _backup_name_to_meta_name backup_file in
      let metadata_path := backup_dir // metadata_name in
      do fs <- get_files;
      if negb (exists_path fs backup_path) then ret (false, "Backup file not found: " +:+ backup_file)
      else if negb (exists_path fs metadata_path)
      then ret (false, "Metadata file not found: " +:+ metadata_name)
      else
        try_except
          (match fs !! metadata_path with
           | Some (File (Metadata metadata) _ _) =>
               match sc_checksum_sha256 metadata with
               | None => ret (false, "No checksum found in metadata (backup created before verification feature)")
               | Some stored_checksum =>
                   if String.eqb stored_checksum "" then
                     ret (false, "No checksum found in metadata (backup created before verification feature)")
                   else
                     logger INFO ("Verifying backup: " +:+ backup_file) ;;
                     do current_checksum <- _calculate_file_checksum E backup_path;
                     if String.eqb current_checksum stored_checksum then
                       logger INFO ("Verification successful for " +:+ backup_file) ;;
                       ret (true, "Backup verified successfully (checksum matches)")
                     else
                       logger ERROR ("Verification failed for " +:+ backup_file +:+ ": checksum mismatch") ;;
                       ret (false, "Backup corrupted! Checksum mismatch. Expected: "
                                   +:+ stored_checksum +:+ " Actual: " +:+ current_checksum)
               end
           | _ => raise (ValueError "metadata is not valid JSON")
           end)
          (fun e =>
             logger ERROR ("Failed to verify backup " +:+ backup_file +:+ ": " +:+ exn_msg e) ;;
             ret (false, "Verification failed: " +:+ exn_msg e))
  end.

(** [shutil.move] of a directory: the entry and everything below it. *)
Definition move_tree (src dst : string) (fs : gmap string node) : gmap string node :=
  list_to_map
    (map (fun pn => if String.eqb pn.1 src || startswith pn.1 (src +:+ "/")
                    then (dst +:+ drop_chars (String.length src) pn.1, pn.2)
                    else pn)
         (map_to_list fs)).

(** [tarfile.open(path, "r:gz")] and [getmembers()]. *)
Definition open_archive (E : env) (p : string) : M (list TarInfo) :=
  syscall (fault E) AtOpenForRead "tarfile.open" ;;
  do fs <- get_files;
  match file_content fs p with
  | Some (Archive members) => ret members
  | _ => raise (OSError "not a gzip file")
  end.

(** Lines 1661-1663: extract backup (with path traversal protection). *)
Definition extract_backup (E : env) (backup_path restore_path : string) : M unit :=
  do members <- open_archive E backup_path;
  _safe_extractall E members (dirname restore_path).

Definition restore_project (E : env) (project_name backup_file : string)
    (target_path : option string) : M result :=
  do _ <- lift (_validate_identifier project_name "project name");
  do _ <- lift (_validate_backup_filename backup_file);
  let backup_path := local_path E // "projects" // project_name // backup_file in
  do fs <- get_files;
  if negb (exists_path fs backup_path) then ret (false, "Backup file not found: " +:+ backup_file)
  else
  let project := get_project E project_name in
  match project, target_path with
  | None, None =>
      ret (false, "Project '" +:+ project_name
                  +:+ "' not found in configuration and no target path provided")
  | _, _ =>
  do restore_path <-
    match target_path with
    | Some tp => (do _ <- lift (_validate_restore_target E tp); ret tp)
    | None => ret (default "" (p_path <$> project))
    end;
  try_except
    ((* Verify backup integrity before restoring *)
     do verified <- verify_backup E "project" project_name backup_file;
     if negb verified.1 then
       logger WARNING ("Backup verification failed: " +:+ verified.2) ;;
       ret (false, "Restore aborted - backup verification failed: " +:+ verified.2)
     else
       syscall (fault E) AtMkdir "mkdir" ;;
       (* If directory exists, rename it as backup *)
       do fs <- get_files;
       when (exists_path fs restore_path)
            (let backup_existing := restore_path +:+ "_backup_" +:+ clock_stamp E in
             syscall (fault E) AtMoveAside "move" ;;
             modify_files (move_tree restore_path backup_existing) ;;
             emit (EvMoveAside restore_path backup_existing) ;;
             logger INFO ("Existing directory moved to: " +:+ backup_existing)) ;;
       extract_backup E backup_path restore_path ;;
       logger INFO ("Successfully restored '" +:+ project_name +:+ "' from " +:+ backup_file) ;;
       ret (true, "Project restored successfully to " +:+ restore_path))
    (fun e =>
       logger ERROR ("Failed to restore project '" +:+ project_name +:+ "': " +:+ exn_msg e) ;;
       ret (false, "Restore failed: " +:+ exn_msg e))
  end.

(** *** Selective restore *)

Fixpoint fold_m {S A} (f : S -> A -> M S) (l : list A) (s : S) : M S :=
  match l with
  | [] => ret s
  | x :: l' => do s' <- f s x; fold_m f l' s'
  end.

(** The variables the loops of [selective_restore] update.  [sel_members]
    is the member list of the archive at hand: [getmembers()] hands out the
    same [TarInfo] objects every time, so a flattened name stays changed. *)
Record sel_state := mkSel
  { sel_members : list TarInfo;
    files_found : gset string;
    restored_files : list string }.

(** The body of [for member in tar.getmembers()], for the member at
    position [i]. *)
Definition restore_member (E : env) (extract_path : string) (preserve_structure : bool)
    (file_pattern : string) (st : sel_state) (i : nat) : M sel_state :=
  match sel_members st !! i with
  | None => ret st
  | Some member =>
      if negb (fnmatch E (ti_name member) file_pattern) then ret st
      else if decide (ti_name member ∈ files_found st) then ret st
      else
        let found := {[ti_name member]} ∪ files_found st in
        let member' := if preserve_structure then member
                       else set_name (path_name (ti_name member)) member in
        let st1 := mkSel (<[i := member']> (sel_members st)) found (restored_files st) in
        (* Validate extraction path (prevent path traversal) *)
        if negb (startswith (resolve E (extract_path // ti_name member'))
                            (resolve E extract_path +:+ "/"))
        then logger WARNING ("Skipping unsafe tar member: " +:+ ti_name member') ;; ret st1
        (* Skip symlinks and hardlinks *)
        else if issym member' || islnk member'
        then logger WARNING ("Skipping symlink/hardlink: " +:+ ti_name member') ;; ret st1
        else
          tar_extract E extract_path member' ;;
          logger INFO ("Restored: " +:+ ti_name member') ;;
          ret (mkSel (sel_members st1) found (restored_files st ++ [ti_name member']))
  end.

(** One archive of [backups_to_check]. *)
Definition restore_from (E : env) (extract_path : string) (preserve_structure : bool)
    (files_to_restore : list string) (st : sel_state) (backup : string) : M sel_state :=
  do members <- open_archive E backup;
  fold_m (fun st file_pattern =>
            fold_m (restore_member E extract_path preserve_structure file_pattern)
                   (seq 0 (length members)) st)
         files_to_restore
         (mkSel members (files_found st) (restored_files st)).

Definition contains (s sub : string) : bool :=
  bool_decide (is_Some (String.index 0 sub s)).

Definition selective_restore (E : env) (item_type item_name backup_file : string)
    (files_to_restore : list string) (target_path : option string)
    (preserve_structure : bool) : M result :=
  if negb (String.eqb item_type "project")
  then ret (false, "Selective restore only supported for projects")
  else
  do _ <- lift (_validate_backup_filename backup_file);
  let backup_dir := local_path E // "projects" // item_name in
  let backup_path := backup_dir // backup_file in
  do fs <- get_files;
  if negb (exists_path fs backup_path) then ret (false, "Backup file not found: " +:+ backup_file)
  else
  do restore_dir <-
    match target_path with
    | Some tp => (do _ <- lift (_validate_restore_target E tp); ret (Some tp))
    | None => ret (p_path <$> get_project E item_name)
    end;
  match restore_dir with
  | None => ret (false, "Project '" +:+ item_name +:+ "' not found and no target path specified")
  | Some restore_dir =>
  let is_incremental := contains backup_file "_incr.tar.gz" in
  try_except
    (do backups_to_check <-
       (if is_incremental then
          match fs !! (backup_dir // replace ".tar.gz" ".json" backup_file) with
          | None => ret [backup_path]
          | Some (File (Metadata metadata) _ _) =>
              match sc_base_backup metadata with
              | Some base_backup =>
                  if negb (String.eqb base_backup "") && exists_path fs (backup_dir // base_backup)
                  then ret [backup_path; backup_dir // base_backup]
                  else ret [backup_path]
              | None => ret [backup_path]
              end
          | Some _ => raise (ValueError "metadata is not valid JSON")
          end
        else ret [backup_path]);
     do st <- fold_m (restore_from E restore_dir preserve_structure files_to_restore)
                     backups_to_check (mkSel [] ∅ []);
     match restored_files st with
     | [] => ret (false, "No files matching patterns")
     | _ :: _ =>
         logger INFO ("Selectively restored files from " +:+ backup_file) ;;
         ret (true, "Restored files successfully")
     end)
    (fun e =>
       logger ERROR ("Failed to restore files: " +:+ exn_msg e) ;;
       ret (false, "Restore failed: " +:+ exn_msg e))
  end.

(** *** Batches *)

(** The branch [backup_all_projects] takes: the pool only when [parallel]
    is set and there are two projects or more. *)
Definition runs_in_pool (E : env) (parallel : bool) : bool :=
  negb (negb parallel || (length (projects E) <=? 1)%nat).

(** One future of the pool, as the collecting loop sees it: the result of
    the call, or the failure result made from its exception. *)
Definition pooled_backup (E : env) (incremental skip_if_exists_today : bool)
    (results : gmap string result) (project_name : string) : M (gmap string result) :=
  try_except
    (do r <- backup_project E project_name None incremental skip_if_exists_today;
     ret (<[project_name := r]> results))
    (fun e =>
       logger ERROR ("Parallel backup failed for '" +:+ project_name +:+ "': " +:+ exn_msg e) ;;
       ret (<[project_name := (false, "Backup failed: " +:+ exn_msg e)]> results)).

(** [backup_all_projects].  [completed] is the order in which the futures
    complete, a rearrangement of the project names that the scheduler
    chooses; each project works in its own directory, and the runs are
    taken one after the other in that order. *)
Definition backup_all_projects (E : env) (parallel skip_if_exists_today incremental : bool)
    (completed : list string) : M (gmap string result) :=
  let project_names := map fst (projects E) in
  if negb parallel || (length project_names <=? 1)%nat then
    (* Sequential execution *)
    fold_m (fun results project_name =>
              do r <- backup_project E project_name None incremental skip_if_exists_today;
              ret (<[project_name := r]> results))
           project_names ∅
  else
    (* Parallel execution *)
    let max_workers := max_parallel_backups E in
    logger INFO "Starting parallel backup" ;;
    if max_workers <=? 0 then raise (ValueError "max_workers must be greater than 0")
    else fold_m (pooled_backup E incremental skip_if_exists_today) completed ∅.

End Engine.

(* ===================================================================== *)
(** ** Facts about the backup engine *)
(* ===================================================================== *)
Module EngineFacts.
Import Engine.
Local Open Scope engine_scope.

(** *** A sample installation *)

Definition reg (n : string) (mtime size : Z) : TarInfo := mkTarInfo n REGTYPE mtime size 420 "".
Definition dir (n : string) : TarInfo := mkTarInfo n DIRTYPE 50 0 493 "".
Definition sym (n target : string) : TarInfo := mkTarInfo n SYMTYPE 50 0 511 target.

Definition app_tree : tree :=
  Node (dir "app")
    [ Node (reg "app/main.py" 100 10) [];
      Node (dir "app/src") [ Node (reg "app/src/util.py" 100 20) [] ];
      Node (dir "app/.git") [ Node (reg "app/.git/HEAD" 1 1) [] ] ].

Definition no_fault : stage -> bool := fun _ => false.

(** Projects [p1] .. [p5]; the directory of [p3] is missing. *)
Definition sample_projects : list (string * project) :=
  [ ("app", mkProject "/home/u/app" true [] None) ].

Definition sample_env (projects : list (string * project)) (fault : stage -> bool)
    (sync : option string) (py312 : bool) : env :=
  mkEnv projects [] None ["production"] "/backups" sync 4 py312
        "20261104_120000" "20261104" "2026-11-04T12:00:00" 1000000 86400
        (fun p => if String.eqb p "/home/u/missing" then None else Some app_tree)
        (fun _ => Some 1000000000)
        (fun _ _ => false)
        (fun n p => String.eqb n p)
        (fun c => match c with Archive _ => "sha-archive" | _ => "sha-other" end)
        (fun _ => 4096)
        (fun p => p)
        fault.

Definition empty_world : world := mkWorld ∅ [] [].

(** *** C9: identifiers *)

Lemma backup_project_invalid_name E name description incremental skip w :
  identifier_matches name = false ->
  exists msg, backup_project E name description incremental skip w = (Raised (ValueError msg), w).
Proof.
  intros H. unfold backup_project, bind, lift, _validate_identifier. rewrite H. eauto.
Qed.

Lemma restore_project_invalid_filename E name backup_file target w :
  identifier_matches name = true ->
  negb (String.eqb (path_name backup_file) backup_file) || has_dotdot backup_file = true ->
  exists msg, restore_project E name backup_file target w = (Raised (ValueError msg), w).
Proof.
  intros H1 H2. unfold restore_project, bind, lift, _validate_identifier, _validate_backup_filename.
  rewrite H1, H2. eauto.
Qed.

(** C9 (the code at the failing inputs): a project name with a space, and
    a backup file name with a path component, leave [backup_project] and
    [restore_project] as a [ValueError], not as a [(False, message)] result. *)
Theorem invalid_identifier_propagates :
  forall E w,
    (exists msg, backup_project E "my project" None false false w = (Raised (ValueError msg), w))
    /\ (exists msg, restore_project E "app" "../app_1_full.tar.gz" None w
                    = (Raised (ValueError msg), w)).
Proof.
  intros E w. split.
  - apply backup_project_invalid_name. reflexivity.
  - apply restore_project_invalid_filename; reflexivity.
Qed.

(** *** C5: the incremental skip rule *)



Lemma tar_add_node filter info children acc :
  tar_add filter (Node info children) acc
  = match filter acc.1 info with
    | (None, st) => (st, acc.2)
    | (Some ti, st) =>
        if isdir ti
        then fold_left (fun a c => tar_add filter c a) children (st, acc.2 ++ [ti])
        else (st, acc.2 ++ [ti])
    end.
Proof. reflexivity. Qed.



(** *** C6: a missing or unreadable baseline *)






(** *** C7: unsafe member names *)

Definition unsafe_name (m : TarInfo) : Prop :=
  isabs (ti_name m) = true \/ has_dotdot (ti_name m) = true.

Lemma check_members_rejects E target members acc :
  Exists unsafe_name members ->
  exists msg, check_members E target members acc = Raised (ValueError msg).
Proof.
  intros H. revert acc. induction H as [m rest Hm | m rest _ IH]; intros acc; simpl.
  - assert (isabs (ti_name m) || has_dotdot (ti_name m) = true) as ->.
    { destruct Hm as [-> | ->]; [reflexivity | apply orb_true_r]. }
    eauto.
  - destruct (isabs (ti_name m) || has_dotdot (ti_name m)); [eauto|].
    destruct (negb _); [eauto | apply IH].
Qed.

(** C7: an archive with a member whose name is absolute or has a [..]
    component is rejected by [_safe_extractall] with a [ValueError] before
    anything is written: the filesystem, and the whole state, is as before
    the call; the extraction step of [restore_project] fails in the same
    way on such an archive. *)
Theorem unsafe_member_rejected_before_writing (E : env) (members : list TarInfo) (w : world) :
  Exists unsafe_name members ->
  (forall path, exists msg, _safe_extractall E members path w = (Raised (ValueError msg), w))
  /\ (forall backup_path restore_path,
        file_content (files w) backup_path = Some (Archive members) ->
        exists e, extract_backup E backup_path restore_path w = (Raised e, w)).
Proof.
  intros H. split.
  - intros path. unfold _safe_extractall, bind, lift.
    destruct (check_members_rejects E (resolve E path) members [] H) as [msg ->]. eauto.
  - intros backup_path restore_path Hc.
    unfold extract_backup, open_archive, bind, syscall, get_files.
    destruct (fault E AtOpenForRead); simpl; [eauto|].
    rewrite Hc. unfold _safe_extractall, bind, lift, ret. simpl.
    destruct (check_members_rejects E (resolve E (dirname restore_path)) members [] H) as [msg Hm].
    rewrite Hm. eauto.
Qed.

Definition evil_archive : list TarInfo :=
  [ dir "app"; reg "app/ok.txt" 1 1; reg "app/../../etc/cron.d/job" 1 1 ].

Lemma unsafe_member_rejected_witness :
  Exists unsafe_name evil_archive
  /\ exists msg, _safe_extractall (sample_env sample_projects no_fault None true)
                                  evil_archive "/home/u" empty_world
                 = (Raised (ValueError msg), empty_world).
Proof.
  assert (H : Exists unsafe_name evil_archive).
  { unfold evil_archive. do 2 apply Exists_cons_tl. apply Exists_cons_hd. right. reflexivity. }
  split; [exact H|].
  exact (proj1 (unsafe_member_rejected_before_writing
                  (sample_env sample_projects no_fault None true) evil_archive empty_world H)
               "/home/u").
Defined.

(** *** Reasoning about runs: what a computation adds to the trace *)

Lemma bind_inv {A B} (m : M A) (k : A -> M B) w r w' :
  bind m k w = (r, w') ->
  (exists a w1, m w = (Returned a, w1) /\ k a w1 = (r, w'))
  \/ (exists e, m w = (Raised e, w') /\ r = Raised e).
Proof.
  unfold bind. destruct (m w) as [[a|e] w1]; intros H.
  - left. eauto.
  - right. inversion H; subst. eauto.
Qed.

Lemma try_inv {A} (m : M A) (h : exn -> M A) w r w' :
  try_except m h w = (r, w') ->
  (exists a, m w = (Returned a, w') /\ r = Returned a)
  \/ (exists e w1, m w = (Raised e, w1) /\ h e w1 = (r, w')).
Proof.
  unfold try_except. destruct (m w) as [[a|e] w1]; intros H.
  - left. inversion H; subst. eauto.
  - right. eauto.
Qed.

(** [emits P m]: whatever [m] does, the events it adds all satisfy [P]. *)
Definition emits {A} (P : event -> Prop) (m : M A) : Prop :=
  forall w r w', m w = (r, w') -> exists evs, trace w' = trace w ++ evs /\ Forall P evs.

Section emits.
Context (P : event -> Prop).

Lemma emits_nothing {A} (m : M A) :
  (forall w r w', m w = (r, w') -> trace w' = trace w) -> emits P m.
Proof.
  intros H w r w' Hm. exists []. rewrite app_nil_r. split; [eapply H, Hm | constructor].
Qed.

Lemma emits_ret {A} (a : A) : emits P (ret a).
Proof. apply emits_nothing. intros w r w' [= _ <-]. reflexivity. Qed.

Lemma emits_raise {A} e : emits P (@raise A e).
Proof. apply emits_nothing. intros w r w' [= _ <-]. reflexivity. Qed.

Lemma emits_lift {A} (o : outcome A) : emits P (lift o).
Proof. apply emits_nothing. intros w r w' [= _ <-]. reflexivity. Qed.

Lemma emits_logger l msg : emits P (logger l msg).
Proof. apply emits_nothing. intros w r w' [= _ <-]. reflexivity. Qed.

Lemma emits_modify f : emits P (modify_files f).
Proof. apply emits_nothing. intros w r w' [= _ <-]. reflexivity. Qed.

Lemma emits_get : emits P get_files.
Proof. apply emits_nothing. intros w r w' [= _ <-]. reflexivity. Qed.

Lemma emits_syscall flt s what : emits P (syscall flt s what).
Proof.
  apply emits_nothing. intros w r w'. unfold syscall.
  destruct (flt s); intros [= _ <-]; reflexivity.
Qed.

Lemma emits_emit e : P e -> emits P (emit e).
Proof.
  intros He w r w' [= _ <-]. exists [e]. split; [reflexivity | repeat constructor; exact He].
Qed.

Lemma emits_bind {A B} (m : M A) (k : A -> M B) :
  emits P m -> (forall a, emits P (k a)) -> emits P (bind m k).
Proof.
  intros Hm Hk w r w' H. apply bind_inv in H as [(a & w1 & H1 & H2) | (e & H1 & _)].
  - destruct (Hm _ _ _ H1) as (e1 & T1 & F1). destruct (Hk a _ _ _ H2) as (e2 & T2 & F2).
    exists (e1 ++ e2). rewrite T2, T1, app_assoc. split; [reflexivity | apply Forall_app; auto].
  - apply (Hm _ _ _ H1).
Qed.

Lemma emits_try {A} (m : M A) (h : exn -> M A) :
  emits P m -> (forall e, emits P (h e)) -> emits P (try_except m h).
Proof.
  intros Hm Hh w r w' H. apply try_inv in H as [(a & H1 & _) | (e & w1 & H1 & H2)].
  - apply (Hm _ _ _ H1).
  - destruct (Hm _ _ _ H1) as (e1 & T1 & F1). destruct (Hh e _ _ _ H2) as (e2 & T2 & F2).
    exists (e1 ++ e2). rewrite T2, T1, app_assoc. split; [reflexivity | apply Forall_app; auto].
Qed.

Lemma emits_when b m : emits P m -> emits P (when b m).
Proof. intros H. destruct b; [exact H | apply emits_ret]. Qed.

Lemma emits_for_each {A} (f : A -> M unit) l :
  (forall x, emits P (f x)) -> emits P (for_each f l).
Proof.
  intros H. induction l as [|x l IH]; simpl; [apply emits_ret|].
  apply emits_bind; [apply H | intros _; exact IH].
Qed.

Lemma emits_fold_m {S A} (f : S -> A -> M S) l s :
  (forall s x, emits P (f s x)) -> emits P (fold_m f l s).
Proof.
  intros H. revert s. induction l as [|x l IH]; intros s; simpl; [apply emits_ret|].
  apply emits_bind; [apply H | intros s'; apply IH].
Qed.
End emits.

Ltac emits_step :=
  first
    [ apply emits_ret | apply emits_raise | apply emits_lift | apply emits_logger
    | apply emits_modify | apply emits_get | apply emits_syscall
    | apply emits_when
    | apply emits_bind; [|intros ?]
    | apply emits_try; [|intros ?]
    | apply emits_for_each; intros ?
    | apply emits_fold_m; intros ? ? ].

(** *** C8: links inside archives *)

(** An event that is not the extraction of a symlink or of a hardlink. *)
Definition not_link_extract (e : event) : Prop :=
  match e with
  | EvExtract _ _ SYMTYPE | EvExtract _ _ LNKTYPE => False
  | _ => True
  end.

Lemma data_filter_same E dest m m' : data_filter E dest m = Returned m' -> m' = m.
Proof.
  unfold data_filter.
  repeat match goal with
         | |- context [if ?c then _ else _] => destruct c
         end; congruence.
Qed.

Lemma tar_extract_emits E path m :
  issym m || islnk m = false -> emits not_link_extract (tar_extract E path m).
Proof.
  intros Hm w r w' H. unfold tar_extract in H.
  apply bind_inv in H as [(m' & w1 & H1 & H2) | (e & H1 & _)].
  - assert (m' = m /\ w1 = w) as [-> ->].
    { destruct (python_3_12 E).
      - unfold lift in H1. inversion H1 as [[D W]]. split; [|reflexivity].
        apply data_filter_same in D. exact D.
      - inversion H1. auto. }
    revert H2. apply emits_bind; [apply emits_syscall|]. intros _.
    apply emits_bind; [apply emits_modify|]. intros _.
    apply emits_emit. unfold issym, islnk in Hm. simpl.
    destruct (ti_type m); try exact I; discriminate.
  - exists []. rewrite app_nil_r. split; [|constructor].
    destruct (python_3_12 E); inversion H1; reflexivity.
Qed.

Lemma open_archive_emits P E p : emits P (open_archive E p).
Proof.
  unfold open_archive. repeat emits_step.
  destruct (file_content _ p) as [[| | |]|]; emits_step.
Qed.

Lemma restore_member_emits E extract_path preserve pattern st i :
  emits not_link_extract (restore_member E extract_path preserve pattern st i).
Proof.
  unfold restore_member.
  destruct (sel_members st !! i) as [member|]; [|apply emits_ret].
  destruct (negb (fnmatch E (ti_name member) pattern)); [apply emits_ret|].
  destruct (decide _); [apply emits_ret|].
  destruct (negb (startswith _ _)); [repeat emits_step|].
  destruct (issym _ || islnk _) eqn:Hl; [repeat emits_step|].
  apply emits_bind; [apply tar_extract_emits, Hl|]. intros _. repeat emits_step.
Qed.

(** A store whose full backup of [app] holds a symlink. *)
Definition linked_archive : list TarInfo :=
  [ dir "app"; reg "app/a.txt" 1 1; sym "app/link" "a.txt" ].

Definition linked_sidecar : sidecar :=
  mkSidecar "app_20261103_120000_full.tar.gz" "app" "project" None "2026-11-03T12:00:00" 4096
            (Some "sha-archive") [] (Some "normal") false false (Some "full") (Some false)
            None None None.

Definition world_with_link : world :=
  mkWorld (<["/backups/projects/app/app_20261103_120000_full.json"
               := File (Metadata linked_sidecar) 420 900000]>
             (<["/backups/projects/app/app_20261103_120000_full.tar.gz"
                  := File (Archive linked_archive) 384 900000]>
                (<["/backups/projects/app" := Directory]> ∅)))
          [] [].

(** What the full restore of that backup does under an interpreter: it
    succeeds, the symlink is the last member extracted and is on disk, and
    the log has no line about it. *)
Definition full_restore_extracts_link (py312 : bool) : Prop :=
  let run := restore_project (sample_env sample_projects no_fault None py312)
                             "app" "app_20261103_120000_full.tar.gz" None world_with_link in
  run.1 = Returned (true, "Project restored successfully to /home/u/app")
  /\ trace run.2 =
     [ EvChecksum "/backups/projects/app/app_20261103_120000_full.tar.gz";
       EvExtract "/home/u" "app" DIRTYPE;
       EvExtract "/home/u" "app/a.txt" REGTYPE;
       EvExtract "/home/u" "app/link" SYMTYPE ]
  /\ files run.2 !! "/home/u/app/link" = Some (Symlink "a.txt")
  /\ log run.2 =
     [ (INFO, "Verifying backup: app_20261103_120000_full.tar.gz");
       (INFO, "Verification successful for app_20261103_120000_full.tar.gz");
       (INFO, "Successfully restored 'app' from app_20261103_120000_full.tar.gz") ].

(** C8, as stated, fails for the full restore: [restore_project] extracts
    the symlink, with Python 3.12 and its [data] filter and before it, and
    logs nothing about it. *)
Lemma restore_project_extracts_symlink :
  full_restore_extracts_link true /\ full_restore_extracts_link false.
Proof. split; repeat split; vm_compute; reflexivity. Qed.

(** C8 (amended): [selective_restore] never extracts a member that is a
    symlink or a hardlink, and a matching link member that reaches the link
    test is skipped with a WARNING line, the disk untouched.  (The full
    restore hands link members to [tarfile]'s extraction, see above.) *)
Theorem selective_restore_skips_links (E : env) :
  (forall item_type item_name backup_file files_to_restore target_path preserve_structure w r w',
      selective_restore E item_type item_name backup_file files_to_restore target_path
                        preserve_structure w = (r, w') ->
      exists evs, trace w' = trace w ++ evs /\ Forall not_link_extract evs)
  /\ (forall extract_path (preserve_structure : bool) file_pattern st i member w,
        let member' := if preserve_structure then member
                       else set_name (path_name (ti_name member)) member in
        sel_members st !! i = Some member ->
        fnmatch E (ti_name member) file_pattern = true ->
        ti_name member ∉ files_found st ->
        startswith (resolve E (extract_path // ti_name member'))
                   (resolve E extract_path +:+ "/") = true ->
        issym member || islnk member = true ->
        restore_member E extract_path preserve_structure file_pattern st i w
        = (Returned (mkSel (<[i := member']> (sel_members st))
                           ({[ti_name member]} ∪ files_found st) (restored_files st)),
           mkWorld (files w)
                   (log w ++ [(WARNING, "Skipping symlink/hardlink: " +:+ ti_name member')])
                   (trace w))).
Proof.
  split.
  - intros item_type item_name backup_file files_to_restore target_path preserve.
    change (emits not_link_extract
              (selective_restore E item_type item_name backup_file files_to_restore
                                 target_path preserve)).
    unfold selective_restore.
    destruct (negb (String.eqb item_type "project")); [apply emits_ret|].
    apply emits_bind; [apply emits_lift|]. intros _.
    apply emits_bind; [apply emits_get|]. intros fs.
    destruct (negb (exists_path fs _)); [apply emits_ret|].
    apply emits_bind.
    { destruct target_path; repeat emits_step. }
    intros [restore_dir|]; [|apply emits_ret].
    apply emits_try; [|intros e; repeat emits_step].
    apply emits_bind.
    { destruct (contains backup_file "_incr.tar.gz"); [|apply emits_ret].
      destruct (fs !! _) as [[[| |m|] ? ?| |]|]; try apply emits_raise; try apply emits_ret.
      destruct (sc_base_backup m); [|apply emits_ret].
      destruct (_ && _); apply emits_ret. }
    intros backups. apply emits_bind.
    { apply emits_fold_m. intros st backup. unfold restore_from.
      apply emits_bind; [apply open_archive_emits|]. intros members.
      apply emits_fold_m. intros st1 pattern. apply emits_fold_m. intros st2 i.
      apply restore_member_emits. }
    intros st. destruct (restored_files st); repeat emits_step.
  - intros extract_path preserve pattern st i member w member' Hi Hf Hn Hs Hl.
    unfold restore_member. rewrite Hi, Hf. simpl.
    rewrite decide_False by assumption. fold member'. rewrite Hs.
    assert (issym member' || islnk member' = true) as ->; [|reflexivity].
    subst member'. destruct preserve; exact Hl.
Qed.

Lemma selective_restore_skips_links_witness :
  let run := selective_restore (sample_env sample_projects no_fault None true)
                               "project" "app" "app_20261103_120000_full.tar.gz"
                               ["app/a.txt"; "app/link"] None true world_with_link in
  run.1 = Returned (true, "Restored files successfully")
  /\ trace run.2 = [EvExtract "/home/u/app" "app/a.txt" REGTYPE]
  /\ exists evs, trace run.2 = trace world_with_link ++ evs /\ Forall not_link_extract evs.
Proof.
  split; [vm_compute; reflexivity|]. split; [vm_compute; reflexivity|].
  refine (proj1 (selective_restore_skips_links (sample_env sample_projects no_fault None true))
            "project" "app" "app_20261103_120000_full.tar.gz"
            ["app/a.txt"; "app/link"] None true world_with_link _ _ _).
  apply surjective_pairing.
Defined.

(** *** C10: batches *)

(** The result the batch records for one project run from [w]: what the
    call returned, or the failure made from the exception it raised. *)
Definition item_result (E : env) (incremental skip : bool) (name : string) (w : world)
    (r : result) : Prop :=
  (backup_project E name None incremental skip w).1 = Returned r
  \/ exists e, (backup_project E name None incremental skip w).1 = Raised e
               /\ r = (false, "Backup failed: " +:+ exn_msg e).

Lemma pooled_backup_returns E incremental skip results name w :
  exists r w',
    pooled_backup E incremental skip results name w = (Returned (<[name := r]> results), w')
    /\ item_result E incremental skip name w r.
Proof.
  unfold pooled_backup, try_except, bind, item_result.
  destruct (backup_project E name None incremental skip w) as [[r|e] w1] eqn:Hrun; simpl.
  - exists r, w1. split; [reflexivity | left; reflexivity].
  - eexists _, _. split; [reflexivity|]. right. exists e. split; reflexivity.
Qed.

Lemma pool_collects E incremental skip completed results w :
  exists results' w',
    fold_m (pooled_backup E incremental skip) completed results w = (Returned results', w')
    /\ (forall name, is_Some (results' !! name) <-> is_Some (results !! name) \/ name ∈ completed)
    /\ (forall name r, results' !! name = Some r ->
          results !! name = Some r \/ exists w1, item_result E incremental skip name w1 r).
Proof.
  revert results w. induction completed as [|name completed IH]; intros results w; simpl.
  - exists results, w. split; [reflexivity|]. split.
    + intros n. split; [auto|]. intros [H|H]; [exact H | inversion H].
    + auto.
  - destruct (pooled_backup_returns E incremental skip results name w) as (r & w1 & Hrun & Hr).
    unfold bind at 1. rewrite Hrun.
    destruct (IH (<[name := r]> results) w1) as (results' & w' & Hfold & Hdom & Hval).
    exists results', w'. split; [exact Hfold|]. split.
    + intros n. rewrite Hdom, lookup_insert. rewrite elem_of_cons.
      destruct (decide (name = n)) as [->|Hne].
      * split; [auto|]. intros _. left. eauto.
      * split; [intros [H|H]; auto | intros [H|[H|H]]; auto; congruence].
    + intros n r' Hn. destruct (Hval n r' Hn) as [H|H]; [|auto].
      rewrite lookup_insert in H. destruct (decide (name = n)) as [->|Hne]; [|auto].
      inversion H; subst. right. eauto.
Qed.

Lemma sequential_collects E incremental skip names
    (results : gmap string result) w (results' : gmap string result) w' :
  fold_m (fun (results : gmap string result) project_name =>
            do r <- backup_project E project_name None incremental skip;
            ret (<[project_name := r]> results))
         names results w = (Returned results', w') ->
  forall name, is_Some (results' !! name) <-> is_Some (results !! name) \/ name ∈ names.
Proof.
  revert results w. induction names as [|n names IH]; intros results w; simpl.
  - intros [= <- _] name. split; [auto|]. intros [H|H]; [exact H | inversion H].
  - intros H name. apply bind_inv in H as [(res1 & w1 & H1 & H2) | (e & _ & [=])].
    apply bind_inv in H1 as [(r & w2 & _ & [= <- <-]) | (e & _ & [=])].
    rewrite (IH _ _ H2), lookup_insert, elem_of_cons.
    destruct (decide (n = name)) as [->|Hne].
    + split; [auto|]. intros _. left. eauto.
    + split; [intros [H|H]; auto | intros [H|[H|H]]; auto; congruence].
Qed.

(** Projects [p1] .. [p5], each with a small tree; the directory of [p3]
    is missing. *)
Definition tree_of (name : string) : tree :=
  Node (dir name) [ Node (reg (name +:+ "/main.py") 100 10) [] ].

Definition five_projects : list (string * project) :=
  [ ("p1", mkProject "/home/u/p1" true [] None);
    ("p2", mkProject "/home/u/p2" true [] None);
    ("p3", mkProject "/home/u/p3" true [] None);
    ("p4", mkProject "/home/u/p4" true [] None);
    ("p5", mkProject "/home/u/p5" true [] None) ].

Definition five_env : env :=
  mkEnv five_projects [] None ["production"] "/backups" None 4 true
        "20261104_120000" "20261104" "2026-11-04T12:00:00" 1000000 86400
        (fun p => if String.eqb p "/home/u/p3" then None else Some (tree_of (path_name p)))
        (fun _ => Some 1000000000)
        (fun _ _ => false)
        (fun n p => String.eqb n p)
        (fun c => match c with Archive _ => "sha-archive" | _ => "sha-other" end)
        (fun _ => 4096)
        (fun p => p)
        no_fault.

Definition two_env : env :=
  sample_env [ ("app", mkProject "/home/u/app" true [] None);
               ("web", mkProject "/home/u/web" true [] None) ]
             no_fault None true.

(** C10, as stated, fails on the first clause: with [parallel=False] a
    batch of two projects (N > 1) runs sequentially, not in the pool. *)
Lemma two_projects_run_sequentially :
  (1 < length (projects two_env))%nat
  /\ runs_in_pool two_env false = false
  /\ let run := backup_all_projects two_env false false false ["web"; "app"] empty_world in
     (exists results, run.1 = Returned results /\ map fst (map_to_list results) = ["web"; "app"])
     /\ Forall (fun l => l.2 <> "Starting parallel backup") (log run.2).
Proof.
  split; [simpl; lia|]. split; [reflexivity|]. split.
  - eexists. split; [vm_compute; reflexivity|]. vm_compute. reflexivity.
  - vm_compute. repeat constructor; discriminate.
Qed.

(** C10 (amended): [backup_all_projects] takes the pool exactly when
    [parallel] is set and there are two projects or more, and the sequential
    loop otherwise.  In the pool, with a positive worker bound and whatever
    order the futures complete in, the call returns a map with an entry for
    every project and for nothing else, each entry being the
    [(success, message)] the project's call returned or, if it raised, the
    failure [(False, "Backup failed: ...")] made from the exception; the
    other projects are not affected.  A sequential batch that returns has an
    entry for every project. *)
Theorem batch_isolates_failures (E : env) (skip incremental : bool)
    (completed : list string) (w : world) :
  (forall parallel,
      runs_in_pool E parallel = true <-> parallel = true /\ (2 <= length (projects E))%nat)
  /\ (runs_in_pool E true = true ->
      0 < max_parallel_backups E ->
      completed ≡ₚ map fst (projects E) ->
      exists results w',
        backup_all_projects E true skip incremental completed w = (Returned results, w')
        /\ (forall name, is_Some (results !! name) <-> name ∈ map fst (projects E))
        /\ (forall name r, results !! name = Some r ->
              exists w1, item_result E incremental skip name w1 r))
  /\ (forall parallel results w',
        runs_in_pool E parallel = false ->
        backup_all_projects E parallel skip incremental completed w = (Returned results, w') ->
        forall name, is_Some (results !! name) <-> name ∈ map fst (projects E)).
Proof.
  split; [|split].
  - intros parallel. unfold runs_in_pool.
    destruct parallel; simpl.
    + rewrite negb_true_iff, Nat.leb_gt.
      split; [intros ?; split; [reflexivity | lia] | intros [_ ?]; lia].
    + split; [discriminate | intros [? _]; discriminate].
  - intros Hpool Hworkers Hperm.
    unfold runs_in_pool in Hpool.
    unfold backup_all_projects. rewrite length_map.
    apply negb_true_iff in Hpool. rewrite Hpool.
    unfold bind, logger.
    assert ((max_parallel_backups E <=? 0) = false) as -> by lia.
    destruct (pool_collects E incremental skip completed ∅
                (mkWorld (files w) (log w ++ [(INFO, "Starting parallel backup")]) (trace w)))
      as (results & w' & Hfold & Hdom & Hval).
    exists results, w'. split; [exact Hfold|]. split.
    + intros name. rewrite Hdom, lookup_empty. rewrite Hperm.
      split; [intros [[? H]|H]; [discriminate | exact H] | auto].
    + intros name r Hr. destruct (Hval name r Hr) as [H|H]; [|exact H].
      rewrite lookup_empty in H. discriminate.
  - intros parallel results w' Hseq.
    unfold runs_in_pool in Hseq.
    unfold backup_all_projects. rewrite length_map.
    apply negb_false_iff in Hseq. rewrite Hseq.
    intros Hrun name. rewrite (sequential_collects _ _ _ _ _ _ _ _ Hrun name), lookup_empty.
    split; [intros [[? H]|H]; [discriminate | exact H] | auto].
Qed.

(** The batch of the design document: five projects in the pool, the source
    of the third missing; completion order p4, p1, p5, p3, p2. *)
Lemma batch_isolates_failures_witness :
  runs_in_pool five_env true = true
  /\ 0 < max_parallel_backups five_env
  /\ ["p4"; "p1"; "p5"; "p3"; "p2"] ≡ₚ map fst (projects five_env)
  /\ (exists results w',
        backup_all_projects five_env true false false ["p4"; "p1"; "p5"; "p3"; "p2"] empty_world
        = (Returned results, w')
        /\ (forall name, is_Some (results !! name) <-> name ∈ map fst (projects five_env))
        /\ (forall name r, results !! name = Some r ->
              exists w1, item_result five_env false false name w1 r))
  /\ match (backup_all_projects five_env true false false
                                 ["p4"; "p1"; "p5"; "p3"; "p2"] empty_world).1 with
     | Returned results =>
         (results !! "p1", results !! "p2", results !! "p3", results !! "p4", results !! "p5")
         = ( Some (true, "Backup successful: p1_20261104_120000_full.tar.gz"),
             Some (true, "Backup successful: p2_20261104_120000_full.tar.gz"),
             Some (false, "Project path does not exist: /home/u/p3"),
             Some (true, "Backup successful: p4_20261104_120000_full.tar.gz"),
             Some (true, "Backup successful: p5_20261104_120000_full.tar.gz") )
     | Raised _ => False
     end.
Proof.
  assert (H1 : runs_in_pool five_env true = true) by reflexivity.
  assert (H2 : 0 < max_parallel_backups five_env) by (simpl; lia).
  assert (H3 : ["p4"; "p1"; "p5"; "p3"; "p2"] ≡ₚ map fst (projects five_env)).
  { simpl. apply (bool_decide_unpack _). vm_compute. exact I. }
  split; [exact H1|]. split; [exact H2|]. split; [exact H3|]. split.
  - exact (proj1 (proj2 (batch_isolates_failures five_env false false
                           ["p4"; "p1"; "p5"; "p3"; "p2"] empty_world)) H1 H2 H3).
  - vm_compute. reflexivity.
Defined.

(** *** C4: the order of finalization *)

(** [run_spec m Q]: whatever [m] does from a state, the events it adds to
    the trace and its outcome are related by [Q]. *)
Definition run_spec {A} (m : M A) (Q : outcome A -> list event -> Prop) : Prop :=
  forall w r w', m w = (r, w') -> exists evs, trace w' = trace w ++ evs /\ Q r evs.






Lemma spec_ret {A} (a : A) : run_spec (ret a) (fun r evs => r = Returned a /\ evs = []).
Proof. intros w r w' [= <- <-]. exists []. rewrite app_nil_r. auto. Qed.











(** Case analysis on a run of one of the small straight-line functions. *)
Ltac run_cases H :=
  repeat first
    [ progress (cbv beta iota in H)
    | match type of H with
      | context [match ?x with _ => _ end] =>
          lazymatch x with
          | context [match _ with _ => _ end] => fail
          | _ => destruct x eqn:?
          end
      end ].














(** The directory, mirror subdirectory and link name each kind finalizes with. *)
Definition kind_dir (E : env) (kind : backup_kind) (item : string) : string :=
  match kind with
  | KProject | KComplete => local_path E // "projects" // item
  | KDatabase => local_path E // "databases" // item
  | KGit => local_path E // "git" // item
  end.


Definition kind_link (kind : backup_kind) (backup_name : string) : string :=
  match kind with
  | KProject => "latest.tar.gz"
  | KComplete => "latest_complete.tar.gz"
  | KDatabase => if endswith backup_name ".gz" then "latest.sql.gz" else "latest.sql"
  | KGit => "latest.bundle"
  end.




(** The finalization inside the sample run with a mirror. *)
Definition written_world : world :=
  mkWorld (<["/backups/projects/app/app_20261104_120000_full.tar.gz"
               := File (Archive [dir "app"]) 420 1000000]>
             (<["/backups/projects/app" := Directory]> ∅))
          [] [].

Definition sample_finalize : outcome Z * world :=
  finalize_for (sample_env sample_projects no_fault (Some "/mirror") true)
               KProject "app" "app_20261104_120000_full.tar.gz" None 30 None written_world.


(** *** C3: what a failed project backup leaves behind *)

(** **** File names *)

Fixpoint last_char (s : string) : option ascii :=
  match s with
  | EmptyString => None
  | String a EmptyString => Some a
  | String _ s' => last_char s'
  end.

Lemma append_nonempty_r (a b : string) : b <> "" -> a +:+ b <> "".
Proof. intros Hb. destruct a; simpl; [exact Hb | discriminate]. Qed.

Lemma last_char_app (a b : string) : b <> "" -> last_char (a +:+ b) = last_char b.
Proof.
  intros Hb. induction a as [|c a IH]; simpl; [reflexivity|].
  destruct (a +:+ b) eqn:E; [|exact IH].
  exfalso. apply (append_nonempty_r a b Hb E).
Qed.

Lemma append_inj_l (a x y : string) : a +:+ x = a +:+ y -> x = y.
Proof. induction a as [|c a IH]; simpl; [auto|]. intros [= H]. auto. Qed.

Lemma append_length (a b : string) :
  String.length (a +:+ b) = (String.length a + String.length b)%nat.
Proof. induction a as [|c a IH]; simpl; [reflexivity | rewrite IH; reflexivity]. Qed.

Lemma path_join_ne_dir (a b : string) : a // b <> a.
Proof.
  unfold path_join. intros H. apply (f_equal String.length) in H.
  rewrite !append_length in H. simpl in H. lia.
Qed.

Lemma path_join_inj (a x y : string) : a // x = a // y -> x = y.
Proof. unfold path_join. intros H. apply append_inj_l in H. injection H. auto. Qed.


Definition snapshot_name (project_name : string) : string :=
  "." +:+ project_name +:+ "_snapshot.json".


(** **** The plan of a run *)

(** The plan [plan_backup] returns; it depends on no state. *)
Definition plan_of (project_name timestamp : string) (incremental : bool)
    (last_full : option string) (snap : snapshot_load) : backup_plan :=
  match (plan_backup project_name timestamp incremental last_full snap empty_world).1 with
  | Returned plan => plan
  | Raised _ => mkPlanB false "" "" None ∅
  end.

Lemma plan_backup_run project_name timestamp incremental last_full snap w :
  exists l,
    plan_backup project_name timestamp incremental last_full snap w
    = (Returned (plan_of project_name timestamp incremental last_full snap),
       mkWorld (files w) (log w ++ l) (trace w)).
Proof.
  unfold plan_of, plan_backup, bind, logger, ret.
  destruct incremental, last_full as [f|], snap as [| |s]; simpl;
    rewrite <- ?app_assoc; eexists; reflexivity.
Qed.

Lemma plan_of_name project_name timestamp incremental last_full snap :
  exists suffix,
    bp_backup_name (plan_of project_name timestamp incremental last_full snap)
    = project_name +:+ "_" +:+ timestamp +:+ suffix
    /\ (suffix = ".tar.gz" \/ suffix = "_full.tar.gz" \/ suffix = "_incr.tar.gz").
Proof.
  unfold plan_of, plan_backup, bind, logger, ret.
  destruct incremental, last_full as [f|], snap as [| |s]; simpl; eexists; eauto.
Qed.


(** **** The segments of the [try] block *)

Lemma guarded_inv {A} E name lbp (m : M A) (k : A -> M result) w r w' :
  guarded E name lbp m k w = (r, w') ->
  (exists a w1, m w = (Returned a, w1) /\ k a w1 = (r, w'))
  \/ (exists e w1, m w = (Raised e, w1) /\ backup_failed E name lbp e w1 = (r, w')).
Proof.
  unfold guarded. destruct (m w) as [[a|e] w1]; intros H; [left | right]; eauto.
Qed.

(** The [except] clause returns a failure and removes the file at
    [local_backup_path], unless the removal fails. *)
Lemma backup_failed_run E name lbp e w r w' :
  backup_failed E name lbp e w = (r, w') ->
  r = Returned (false, "Backup failed: " +:+ exn_msg e)
  /\ files w' = match lbp with
                | Some p => if fault E AtUnlinkPartial then files w else delete p (files w)
                | None => files w
                end.
Proof.
  unfold backup_failed, bind, logger, get_files, when, ret, modify_files.
  destruct lbp as [p|]; simpl.
  - destruct (exists_path (files w) p) eqn:Hp; simpl.
    + destruct (fault E AtUnlinkPartial); simpl; intros [= <- <-]; auto.
    + intros [= <- <-]. split; [reflexivity|]. simpl.
      destruct (fault E AtUnlinkPartial); [reflexivity|].
      symmetry. apply delete_id.
      unfold exists_path in Hp. apply bool_decide_eq_false in Hp.
      destruct (files w !! p) eqn:L; [|reflexivity]. exfalso. apply Hp. eauto.
  - intros [= <- <-]. auto.
Qed.

Lemma make_backup_dir_run E dir w r w' :
  make_backup_dir E dir w = (r, w') ->
  (fault E AtMkdir = true /\ (exists e, r = Raised e) /\ files w' = files w)
  \/ (fault E AtMkdir = false /\ r = Returned tt /\ files w' = <[dir := Directory]> (files w)).
Proof.
  unfold make_backup_dir, bind, syscall, modify_files, raise, ret.
  destruct (fault E AtMkdir); intros [= <- <-]; [left | right]; eauto.
Qed.

Lemma choose_plan_run E name incremental w r w' :
  let dir := local_path E // "projects" // name in
  choose_plan E name dir incremental w = (r, w') ->
  files w' = files w
  /\ ((exists e, r = Raised e)
      \/ r = Returned
               (plan_of name (clock_stamp E) incremental
                  (if incremental
                   then (fun p => default p (entry_name dir p))
                          <$> newest_full (glob (files w) dir (name +:+ "_") "_full.tar.gz")
                   else None)
                  (read_snapshot E (files w) (dir // snapshot_name name)))).
Proof.
  intros dir. unfold choose_plan, bind, get_files, syscall, raise, ret.
  destruct incremental.
  - destruct (fault E AtListBackups).
    + intros [= <- <-]. split; [reflexivity | left; eauto].
    + destruct (plan_backup_run name (clock_stamp E) true
                  ((fun p => default p (entry_name dir p))
                     <$> newest_full (glob (files w) dir (name +:+ "_") "_full.tar.gz"))
                  (read_snapshot E (files w) (dir // snapshot_name name)) w) as [l Hl].
      unfold snapshot_name in *. fold dir. rewrite Hl. intros [= <- <-]. split; [reflexivity | right; reflexivity].
  - destruct (plan_backup_run name (clock_stamp E) false None
                (read_snapshot E (files w) (dir // snapshot_name name)) w) as [l Hl].
    unfold snapshot_name in *. fold dir. rewrite Hl. intros [= <- <-]. split; [reflexivity | right; reflexivity].
Qed.





(** The size the disk check asks for. *)
Definition required_bytes (E : env) (project : project) (t : tree) : Z :=
  _estimate_project_size E (p_path project) t (remove_dups (p_exclude project ++ global_excludes E))
  * ESTIMATED_COMPRESSION_RATIO.1 / ESTIMATED_COMPRESSION_RATIO.2.









End EngineFacts.

From Stdlib Require Import Sorted.

(* ===================================================================== *)
(** ** What the validators let through *)
(* ===================================================================== *)
Module ValidationFacts.
Import Engine.

Lemma all_chars_weaken (p q : ascii -> bool) s :
  (forall c, p c = true -> q c = true) -> all_chars p s = true -> all_chars q s = true.
Proof.
  intros H. induction s as [|a s IH]; simpl; [auto|].
  intros [Ha Hs]%andb_true_iff. rewrite (H a Ha). simpl. auto.
Qed.

Lemma all_chars_drop_last p s : all_chars p s = true -> all_chars p (drop_last s) = true.
Proof.
  induction s as [|a s IH]; simpl; [auto|].
  intros [Ha Hs]%andb_true_iff. destruct s as [|b s]; [reflexivity|].
  change (all_chars p (String a (drop_last (String b s))) = true).
  simpl all_chars at 1. rewrite Ha. simpl. apply IH, Hs.
Qed.

(** A string whose characters but a closing newline are in a class. *)
Lemma all_chars_but_newline p s :
  ends_with_newline s = true -> all_chars p (drop_last s) = true ->
  all_chars (fun c => p c || Ascii.eqb c "010"%char) s = true.
Proof.
  induction s as [|a s IH]; simpl; [discriminate|].
  destruct s as [|b s].
  - intros -> _. rewrite orb_true_r. reflexivity.
  - intros He. change (drop_last (String a (String b s))) with (String a (drop_last (String b s))).
    simpl all_chars at 1. intros [Ha Hs]%andb_true_iff.
    rewrite Ha. simpl. apply IH; assumption.
Qed.

(** A string without the separator is its own single component. *)
Lemma split_on_absent c s :
  all_chars (fun a => negb (Ascii.eqb a c)) s = true -> split_on c s = [s].
Proof.
  induction s as [|a s IH]; simpl; [reflexivity|].
  intros [Ha Hs]%andb_true_iff. apply negb_true_iff in Ha. rewrite Ha, (IH Hs). reflexivity.
Qed.

(** No component of a split holds the separator. *)
Lemma split_on_component c s x :
  x ∈ split_on c s -> all_chars (fun a => negb (Ascii.eqb a c)) x = true.
Proof.
  revert x. induction s as [|a s IH]; simpl; intros x.
  - intros ->%list_elem_of_singleton. reflexivity.
  - destruct (Ascii.eqb a c) eqn:E.
    + intros [->|H]%elem_of_cons; [reflexivity | apply IH, H].
    + destruct (split_on c s) as [|h t] eqn:S.
      * intros ->%list_elem_of_singleton. simpl. rewrite E. reflexivity.
      * intros [->|H]%elem_of_cons.
        -- simpl. rewrite E. simpl. apply IH. by left.
        -- apply IH. by right.
Qed.

Lemma ident_char_not_slash c : ident_char c || Ascii.eqb c "010"%char = true ->
  negb (Ascii.eqb c "/"%char) = true.
Proof.
  destruct (Ascii.eqb_spec c "/"%char) as [->|]; [|reflexivity].
  vm_compute. discriminate.
Qed.

(** What [_validate_identifier] guarantees of a name it lets through: it
    is not empty, every character is a letter, a digit, [_], [-] or [.]
    -- but for a newline that may close it, since [$] matches before one --
    and so it holds no path separator: it is a single path component. *)
Theorem validated_identifier_chars (name identifier_type : string) :
  _validate_identifier name identifier_type = Returned true ->
  name <> ""
  /\ all_chars ident_char (if ends_with_newline name then drop_last name else name) = true
  /\ all_chars (fun c => ident_char c || Ascii.eqb c "010"%char) name = true
  /\ split_slash name = [name].
Proof.
  unfold _validate_identifier, identifier_matches.
  destruct (negb _ && _) eqn:E; [|discriminate]. intros _.
  apply andb_true_iff in E as [Hne Hall].
  assert (Hcls : all_chars (fun c => ident_char c || Ascii.eqb c "010"%char) name = true).
  { destruct (ends_with_newline name) eqn:En.
    - apply all_chars_but_newline; assumption.
    - revert Hall. apply all_chars_weaken. intros c ->. reflexivity. }
  split; [|split; [exact Hall | split; [exact Hcls|]]].
  - intros ->. simpl in Hne. discriminate.
  - apply split_on_absent. revert Hcls. apply all_chars_weaken, ident_char_not_slash.
Qed.

Lemma validated_identifier_chars_witness :
  _validate_identifier "my-app_2.0" "project name" = Returned true
  /\ split_slash "my-app_2.0" = ["my-app_2.0"].
Proof.
  assert (H : _validate_identifier "my-app_2.0" "project name" = Returned true)
    by reflexivity.
  split; [exact H|].
  exact (proj2 (proj2 (proj2 (validated_identifier_chars _ _ H)))).
Defined.

Lemma last_filter_elem {A} (P : A -> Prop) `{forall x, Decision (P x)} (l : list A) d :
  List.last (filter P l) d = d \/ List.last (filter P l) d ∈ l.
Proof.
  assert (G : forall l' : list A, List.last l' d = d \/ List.last l' d ∈ l').
  { induction l' as [|x l' IH]; [left; reflexivity|].
    destruct l' as [|y l']; [right; by left|].
    change (List.last (x :: y :: l') d) with (List.last (y :: l') d).
    destruct IH as [IH|IH]; [left; exact IH | right; by right]. }
  destruct (G (filter P l)) as [G1|G1]; [left; exact G1|].
  right. apply list_elem_of_filter in G1 as [_ G1]. exact G1.
Qed.

(** What [_validate_backup_filename] guarantees of a file name it lets
    through: it holds no path separator and is neither [.] nor [..], so
    joined to the backup directory it names an entry of that directory
    (or, for the empty name, the directory itself). *)
Theorem validated_filename_is_plain (filename : string) :
  _validate_backup_filename filename = Returned tt ->
  split_slash filename = [filename] /\ filename <> ".." /\ filename <> ".".
Proof.
  unfold _validate_backup_filename.
  destruct (negb (String.eqb (path_name filename) filename)) eqn:E1; [discriminate|].
  destruct (has_dotdot filename) eqn:E2; [discriminate|]. intros _.
  apply negb_false_iff, String.eqb_eq in E1.
  assert (Hplain : split_slash filename = [filename]).
  { unfold path_name, path_components in E1.
    destruct (last_filter_elem (fun x => x <> "" /\ x <> ".") (split_slash filename) "")
      as [H|H]; rewrite E1 in H.
    - subst filename. reflexivity.
    - apply split_on_absent. apply (split_on_component _ _ _ H). }
  split; [exact Hplain|]. split.
  - intros ->. vm_compute in E2. discriminate.
  - intros ->. vm_compute in E1. discriminate.
Qed.

Lemma validated_filename_is_plain_witness :
  _validate_backup_filename "app_20261104_120000_full.tar.gz" = Returned tt
  /\ split_slash "app_20261104_120000_full.tar.gz" = ["app_20261104_120000_full.tar.gz"].
Proof.
  assert (H : _validate_backup_filename "app_20261104_120000_full.tar.gz" = Returned tt)
    by (vm_compute; reflexivity).
  split; [exact H|].
  exact (proj1 (validated_filename_is_plain _ H)).
Defined.

End ValidationFacts.

(* ===================================================================== *)
(** ** Facts about the retention plan as a whole *)
(* ===================================================================== *)
Module PlanFacts.
Import Datetime Retention RetentionFacts.

(** *** Nothing is lost and nothing is planned twice *)

Lemma insert_newest_perm x l : insert_newest x l ≡ₚ x :: l.
Proof.
  induction l as [|y l IH]; simpl; [reflexivity|].
  destruct (ltb (timestamp x) (timestamp y)); [|reflexivity].
  rewrite IH. apply Permutation_swap.
Qed.

Lemma sort_newest_first_perm l : sort_newest_first l ≡ₚ l.
Proof.
  induction l as [|x l IH]; simpl; [reflexivity|].
  rewrite insert_newest_perm, IH. reflexivity.
Qed.

Lemma tier_rule_perm preserve keep_count i l kd :
  (tier_rule preserve keep_count i l kd).1 ++ (tier_rule preserve keep_count i l kd).2
  ≡ₚ kd.1 ++ kd.2 ++ l.
Proof.
  revert i kd. induction l as [|b l IH]; intros i kd; simpl.
  - rewrite app_nil_r. reflexivity.
  - rewrite IH. destruct (_ || _); simpl.
    + rewrite <- !app_assoc. apply Permutation_app_head. simpl.
      apply Permutation_middle.
    + rewrite <- !app_assoc. reflexivity.
Qed.

Lemma rules_uncat_perm preserve l kd :
  (fold_left (rules_uncat_step preserve) l kd).1 ++ (fold_left (rules_uncat_step preserve) l kd).2
  ≡ₚ kd.1 ++ kd.2 ++ l.
Proof.
  revert kd. induction l as [|b l IH]; intros kd; simpl.
  - rewrite app_nil_r. reflexivity.
  - rewrite IH. unfold rules_uncat_step.
    destruct (preserve && tagged b); [|destruct (_ <? _)%nat]; simpl;
      rewrite <- ?app_assoc; try reflexivity;
      apply Permutation_app_head; simpl; apply Permutation_middle.
Qed.

Lemma rules_tier_step_lists preserve st kc k :
  tlist (ps_tiered (rules_tier_step preserve st kc)) k ≡ₚ tlist (ps_tiered st) k.
Proof.
  unfold rules_tier_step. simpl.
  destruct (ps_tiered st !! kc.1) as [l|] eqn:E; [|reflexivity].
  rewrite tlist_insert. destruct (decide (kc.1 = k)) as [<-|]; [|reflexivity].
  rewrite sort_newest_first_perm. unfold tlist. rewrite E. reflexivity.
Qed.

(** The records the tier loop has gone through. *)
Definition tier_records (tiered : gmap string (list backup)) (tiers : tiers_t) : list backup :=
  concat (map (fun kc => tlist tiered kc.1) tiers).

Lemma tier_records_perm t1 t2 tiers :
  (forall k, tlist t1 k ≡ₚ tlist t2 k) -> tier_records t1 tiers ≡ₚ tier_records t2 tiers.
Proof.
  intros H. unfold tier_records. induction tiers as [|kc tiers IH]; simpl; [reflexivity|].
  rewrite (H kc.1), IH. reflexivity.
Qed.

Lemma rules_tiers_perm preserve tiers st :
  let st' := fold_left (rules_tier_step preserve) tiers st in
  (forall k, tlist (ps_tiered st') k ≡ₚ tlist (ps_tiered st) k)
  /\ keep_list st' ++ delete_list st'
     ≡ₚ keep_list st ++ delete_list st ++ tier_records (ps_tiered st) tiers.
Proof.
  revert st. induction tiers as [|kc tiers IH]; intros st; simpl.
  - split; [reflexivity|]. unfold tier_records. simpl. rewrite app_nil_r. reflexivity.
  - destruct (IH (rules_tier_step preserve st kc)) as [IH1 IH2]. split.
    + intros k. rewrite IH1. apply rules_tier_step_lists.
    + rewrite IH2.
      rewrite (tier_records_perm _ (ps_tiered st) tiers)
        by (intros k; apply rules_tier_step_lists).
      assert (A : keep_list (rules_tier_step preserve st kc)
                  ++ delete_list (rules_tier_step preserve st kc)
                  ≡ₚ keep_list st ++ delete_list st ++ tlist (ps_tiered st) kc.1).
      { unfold rules_tier_step. simpl. rewrite tier_rule_perm. simpl.
        rewrite sort_newest_first_perm. reflexivity. }
      rewrite app_assoc, A.
      change (tier_records (ps_tiered st) (kc :: tiers))
        with (tlist (ps_tiered st) kc.1 ++ tier_records (ps_tiered st) tiers).
      rewrite <- !app_assoc. reflexivity.
Qed.

(** [_apply_retention_rules] files every record of the lists it goes
    through -- the list of each tier of [tiers], then the uncategorized
    one -- under keep or under delete, once. *)
Lemma apply_rules_partition tiered tiers preserve :
  let kd := _apply_retention_rules tiered tiers preserve in
  kd.1 ++ kd.2 ≡ₚ tier_records tiered tiers ++ tlist tiered "uncategorized".
Proof.
  unfold _apply_retention_rules.
  destruct (rules_tiers_perm preserve tiers (mkPlan tiered [] [])) as [H1 H2].
  simpl in H1, H2. cbv zeta. rewrite rules_uncat_perm. simpl fst. simpl snd.
  rewrite app_assoc, H2. apply Permutation_app_head.
  apply (H1 "uncategorized").
Qed.

(** The record as it was read, before a tier was written on it. *)
Definition forget_tier (b : backup) : backup :=
  {| path := path b; name := name b; size := size b; mtime := mtime b;
     tagged := tagged b; importance := importance b; tags := tags b;
     timestamp := timestamp b; tier := None |}.

Lemma forget_set_tier k b : forget_tier (set_tier k b) = forget_tier b.
Proof. reflexivity. Qed.

Lemma forget_backup_info e : forget_tier (backup_info e) = backup_info e.
Proof.
  unfold backup_info. destruct (de_sidecar e) as [| |m]; try reflexivity.
  destruct (md_timestamp m); reflexivity.
Qed.

(** The lists of [tiered] under the keys [keys], one after the other. *)
Definition filed (tiered : gmap string (list backup)) (keys : list string) : list backup :=
  concat (map (tlist tiered) keys).

Lemma filed_insert_absent tiered keys k l :
  k ∉ keys -> filed (<[k := l]> tiered) keys = filed tiered keys.
Proof.
  unfold filed. induction keys as [|k' keys IH]; intros Hk; simpl; [reflexivity|].
  apply not_elem_of_cons in Hk as [Hne Hk].
  rewrite tlist_insert_ne by assumption. rewrite IH by assumption. reflexivity.
Qed.

Lemma filed_append tiered keys k x :
  NoDup keys -> k ∈ keys ->
  filed (<[k := tlist tiered k ++ [x]]> tiered) keys ≡ₚ filed tiered keys ++ [x].
Proof.
  unfold filed. induction keys as [|k' keys IH]; intros Hnd Hk; [inversion Hk|].
  apply NoDup_cons in Hnd as [Hk' Hnd]. simpl.
  destruct (decide (k = k')) as [<-|Hne].
  - rewrite tlist_insert_eq.
    fold (filed (<[k := tlist tiered k ++ [x]]> tiered) keys).
    rewrite filed_insert_absent by assumption. unfold filed.
    rewrite <- !app_assoc. apply Permutation_app_head. apply Permutation_app_comm.
  - apply elem_of_cons in Hk as [Hk|Hk]; [congruence|].
    rewrite tlist_insert_ne by assumption. rewrite IH by assumption.
    rewrite app_assoc. reflexivity.
Qed.

Lemma tiers_get_key (tiers : tiers_t) k c : tiers_get tiers k = Some c -> k ∈ map fst tiers.
Proof.
  induction tiers as [|[k' c'] tiers IH]; simpl; [discriminate|].
  destruct (String.eqb_spec k' k) as [->|]; [intros _; by left | intros H; right; auto].
Qed.

Lemma first_fit_key fits tiers now tiered b names t :
  first_fit fits tiers now tiered b names = Some (Some t) -> t ∈ map fst tiers.
Proof.
  induction names as [|n names IH]; simpl; [discriminate|].
  destruct (tiers_get tiers n) as [cfg|] eqn:E; [|exact IH].
  destruct (fits n cfg now tiered b) as [[|]|]; [|exact IH|discriminate].
  intros [= <-]. eapply tiers_get_key, E.
Qed.

Definition all_keys (tiers : tiers_t) : list string := map fst tiers ++ ["uncategorized"].

Lemma filed_init tiers keys : filed (tiered_init tiers) keys = [].
Proof.
  unfold filed. induction keys as [|k keys IH]; simpl; [reflexivity|].
  rewrite tlist_init, IH. reflexivity.
Qed.

Lemma by_record_filed fits tiers now bs tiered :
  NoDup (all_keys tiers) ->
  foldM (assign_record fits tiers now) (tiered_init tiers) bs = Some tiered ->
  map forget_tier (filed tiered (all_keys tiers)) ≡ₚ map forget_tier bs.
Proof.
  intros Hk. revert tiered. induction bs as [|b bs IH] using rev_ind; intros tiered.
  - intros [= <-]. rewrite filed_init. reflexivity.
  - rewrite foldM_snoc.
    destruct (foldM _ _ bs) as [tiered1|] eqn:E; simpl; [|discriminate].
    unfold assign_record.
    destruct (first_fit fits tiers now tiered1 b tier_order) as [r|] eqn:F; simpl; [|discriminate].
    intros [= <-].
    rewrite filed_append; [| exact Hk |].
    + rewrite !map_app. rewrite (IH tiered1 eq_refl). reflexivity.
    + unfold all_keys. apply elem_of_app. destruct r as [t|]; simpl.
      * left. eapply first_fit_key, F.
      * right. by left.
Qed.

Lemma filed_all_keys tiered tiers :
  filed tiered (all_keys tiers) = tier_records tiered tiers ++ tlist tiered "uncategorized".
Proof.
  unfold filed, all_keys, tier_records. rewrite map_app, concat_app, map_map. simpl.
  rewrite app_nil_r. reflexivity.
Qed.

Lemma plan_partition (entries : list dir_entry) (tiers : tiers_t)
    (now : datetime) (preserve_tagged : bool) (keep delete : list backup) :
  NoDup (map name (_get_backups_with_metadata entries)) ->
  NoDup (map fst tiers) -> "uncategorized" ∉ map fst tiers ->
  plan entries tiers now preserve_tagged = Some (keep, delete) ->
  map forget_tier (keep ++ delete) ≡ₚ _get_backups_with_metadata entries.
Proof.
  intros Hnd Hk Hu. unfold plan.
  set (bs := sort_newest_first (_get_backups_with_metadata entries)).
  assert (Hbs : bs ≡ₚ _get_backups_with_metadata entries) by apply sort_newest_first_perm.
  destruct (_categorize_into_tiers bs tiers now) as [tiered|] eqn:E; simpl; [|discriminate].
  intros [= Hkd].
  pose proof (apply_rules_partition tiered tiers preserve_tagged) as Hp.
  cbv zeta in Hp. rewrite Hkd in Hp. simpl in Hp. rewrite Hp.
  rewrite <- filed_all_keys.
  rewrite categorize_is_first_fit in E by (rewrite Hbs; exact Hnd).
  rewrite (by_record_filed fits_tier tiers now bs tiered); [| |exact E].
  - rewrite Hbs. unfold _get_backups_with_metadata. rewrite <- list_fmap_compose.
    erewrite list_fmap_ext; [reflexivity|]. intros i e _. simpl. apply forget_backup_info.
  - unfold all_keys. apply NoDup_app. split; [exact Hk|]. split.
    + intros x Hx ->%list_elem_of_singleton. contradiction.
    + apply NoDup_singleton.
Qed.


(** Every backup of the directory is planned once: the records of the keep
    list and of the delete list together are the records read from the
    directory (symbolic links left out), each once, whatever the tiers and
    the ages.  So the report's [backups_to_keep] and [backups_to_delete]
    add up to [total_backups].  The file names of a directory are distinct;
    [tiers] is a dict, its keys are distinct, and none is "uncategorized". *)
Theorem plan_accounts_for_every_backup (entries : list dir_entry) (tiers : tiers_t)
    (now : datetime) (preserve_tagged : bool) (keep delete : list backup) :
  NoDup (map name (_get_backups_with_metadata entries)) ->
  NoDup (map fst tiers) -> "uncategorized" ∉ map fst tiers ->
  plan entries tiers now preserve_tagged = Some (keep, delete) ->
  map forget_tier (keep ++ delete) ≡ₚ _get_backups_with_metadata entries
  /\ (length keep + length delete = length (_get_backups_with_metadata entries))%nat.
Proof.
  intros Hnd Hk Hu Hplan.
  pose proof (plan_partition _ _ _ _ _ _ Hnd Hk Hu Hplan) as Hperm.
  split; [exact Hperm|].
  apply Permutation_length in Hperm. rewrite length_map, length_app in Hperm. exact Hperm.
Qed.

Lemma plan_accounts_for_every_backup_witness :
  plan sample_dir one_hourly sample_now true = Some (sample_keep, [sample_deleted])
  /\ (length sample_keep + length [sample_deleted]
      = length (_get_backups_with_metadata sample_dir))%nat.
Proof.
  assert (H : plan sample_dir one_hourly sample_now true = Some (sample_keep, [sample_deleted]))
    by (vm_compute; reflexivity).
  split; [exact H|].
  refine (proj2 (plan_accounts_for_every_backup sample_dir one_hourly sample_now true
                   sample_keep [sample_deleted] _ _ _ H)).
  - apply (bool_decide_unpack _). vm_compute. exact I.
  - apply (bool_decide_unpack _). vm_compute. exact I.
  - apply (bool_decide_unpack _). vm_compute. exact I.
Defined.

(** *** A tier without its max-age key *)

Lemma categorize_nothing tiers now :
  _categorize_into_tiers [] tiers now = Some (tiered_init tiers).
Proof.
  unfold _categorize_into_tiers.
  assert (H : forall names st, foldM (tier_pass tiers now []) st names = Some st).
  { induction names as [|t names IH]; intros st; simpl; [reflexivity|].
    unfold tier_pass at 1. destruct (tiers_get tiers t); simpl; apply IH. }
  rewrite H. reflexivity.
Qed.

(** [tier_config["max_age_hours"]] is plain indexing: with an hourly tier
    configured without that key, [_categorize_into_tiers] raises [KeyError]
    as soon as there is one backup to look at; with no backup it returns
    the empty lists.  (The monthly and yearly tiers read their key with a
    default and never raise.) *)
Theorem hourly_without_max_age_raises (backups : list backup) (tiers : tiers_t)
    (now : datetime) (cfg : tier_config) :
  tiers_get tiers "hourly" = Some cfg -> max_age_hours cfg = None ->
  (_categorize_into_tiers backups tiers now = None <-> backups <> []).
Proof.
  intros Hget Hkey. split.
  - intros H ->. rewrite categorize_nothing in H. discriminate.
  - destruct backups as [|b bs]; [congruence|]. intros _.
    unfold _categorize_into_tiers, tier_order. simpl foldM.
    unfold tier_pass at 1. rewrite Hget. simpl foldM.
    unfold tier_step at 1. simpl.
    rewrite decide_False by apply not_elem_of_empty.
    unfold fits_tier. simpl. rewrite Hkey. reflexivity.
Qed.

Lemma hourly_without_max_age_raises_witness :
  _categorize_into_tiers same_hour_pair
    [("hourly", mkTier (Some 24) None None None None None)] sample_now = None.
Proof.
  apply (hourly_without_max_age_raises same_hour_pair
           [("hourly", mkTier (Some 24) None None None None None)] sample_now
           (mkTier (Some 24) None None None None None)); [reflexivity | reflexivity |].
  discriminate.
Defined.

(** *** The newest backup stays *)























(** *** The archive of uncategorized backups *)










End PlanFacts.

(* ===================================================================== *)
(** ** What the age-based cleanup removes and what it leaves *)
(* ===================================================================== *)
Module CleanupFacts.
Import Engine EngineFacts.
Local Open Scope engine_scope.

(** *** Paths and names *)

Lemma string_app_assoc (a b c : string) : (a +:+ b) +:+ c = a +:+ (b +:+ c).
Proof.
  induction a as [|x a IH]; [reflexivity|].
  change (String x ((a +:+ b) +:+ c) = String x (a +:+ (b +:+ c))). f_equal. exact IH.
Qed.

Lemma prefix_drop (pre p : string) :
  String.prefix pre p = true -> p = pre +:+ drop_chars (String.length pre) p.
Proof.
  revert p. induction pre as [|a pre IH]; intros p.
  - destruct p; reflexivity.
  - destruct p as [|b p]; simpl; [discriminate|].
    destruct (ascii_dec a b) as [->|]; [|discriminate].
    intros H. change (String b p = String b (pre +:+ drop_chars (String.length pre) p)).
    f_equal. apply IH, H.
Qed.

(** An entry of a directory is the directory's path joined to its name. *)
Lemma entry_name_join dir p n : entry_name dir p = Some n -> p = dir // n.
Proof.
  unfold entry_name, path_join.
  destruct (String.prefix (dir +:+ "/") p) eqn:E; [|discriminate].
  destruct (_ || _); [discriminate|]. intros [= <-].
  rewrite <- string_app_assoc. apply prefix_drop, E.
Qed.

Lemma glob_elem fs dir pre suffix pn :
  pn ∈ glob fs dir pre suffix ->
  fs !! pn.1 = Some pn.2
  /\ exists n, entry_name dir pn.1 = Some n /\ endswith n suffix = true.
Proof.
  unfold glob. rewrite list_elem_of_In, filter_In, <- list_elem_of_In.
  intros [Hin Hf]. destruct pn as [p nd]. apply elem_of_map_to_list in Hin.
  split; [exact Hin|]. simpl in *.
  destruct (entry_name dir p) as [n|]; [|discriminate].
  exists n. split; [reflexivity|].
  apply andb_true_iff in Hf as [Hf _]. apply andb_true_iff in Hf as [_ Hf]. exact Hf.
Qed.

Lemma endswith_nil suffix : endswith "" suffix = true -> suffix = "".
Proof. destruct suffix; [reflexivity | discriminate]. Qed.

Lemma endswith_cons a s suffix :
  endswith (String a s) suffix = String.eqb (String a s) suffix || endswith s suffix.
Proof. reflexivity. Qed.

Lemma last_char_endswith s suffix :
  endswith s suffix = true -> suffix <> "" -> last_char s = last_char suffix.
Proof.
  intros H Hne. induction s as [|a s IH].
  - apply endswith_nil in H. congruence.
  - rewrite endswith_cons in H. apply orb_true_iff in H as [H|H].
    + apply String.eqb_eq in H. subst. reflexivity.
    + specialize (IH H). destruct s as [|b s]; [apply endswith_nil in H; congruence|].
      change (last_char (String a (String b s))) with (last_char (String b s)). exact IH.
Qed.

(** A sidecar's name ends in [.json]. *)
Lemma last_char_meta_name n : last_char (_backup_name_to_meta_name n) = Some "n"%char.
Proof.
  unfold _backup_name_to_meta_name.
  repeat match goal with |- context [if ?c then _ else _] => destruct c end;
    rewrite last_char_app by discriminate; reflexivity.
Qed.

(** The name patterns of the backups the engine writes. *)
Definition backup_suffix (s : string) : Prop :=
  s = ".tar.gz" \/ s = ".sql.gz" \/ s = ".bundle".

Lemma backup_name_not_json n suffix :
  backup_suffix suffix -> endswith n suffix = true -> last_char n <> Some "n"%char.
Proof.
  intros Hs He.
  rewrite (last_char_endswith n suffix He) by (destruct Hs as [-> | [-> | ->]]; discriminate).
  destruct Hs as [-> | [-> | ->]]; discriminate.
Qed.

Lemma last_char_join dir n : n <> "" -> last_char (dir // n) = last_char n.
Proof.
  intros Hn. unfold path_join. rewrite last_char_app.
  - change ("/" +:+ n) with (String "/" n). simpl. destruct n; [congruence | reflexivity].
  - discriminate.
Qed.

Lemma last_char_some_nonempty s c : last_char s = Some c -> s <> "".
Proof. intros H ->. discriminate. Qed.

(** No sidecar path is the path of a backup. *)
Lemma sidecar_is_no_backup dir dir' n n' suffix :
  backup_suffix suffix -> endswith n suffix = true ->
  dir // n <> dir' // _backup_name_to_meta_name n'.
Proof.
  intros Hs He Heq. apply (f_equal last_char) in Heq.
  pose proof (backup_name_not_json n suffix Hs He) as Hn.
  rewrite last_char_join in Heq.
  - rewrite last_char_join in Heq
      by (eapply last_char_some_nonempty, last_char_meta_name).
    rewrite last_char_meta_name in Heq. contradiction.
  - intros ->. destruct Hs as [-> | [-> | ->]]; discriminate.
Qed.

(** *** One file of the loop *)

Definition cutoff (E : env) (retention_days : Z) : Z :=
  clock_epoch E - retention_days * day_length E.

(** What [cleanup_one] does: nothing, or it removes the file and its
    sidecar; it removes them only when the file is older than the cutoff
    and the sidecar found at that moment does not hold it back. *)
Lemma cleanup_one_run E directory retention_days pn w r w' :
  cleanup_one E directory retention_days pn w = (r, w') ->
  files w' = files w
  \/ exists c mode mtime,
       pn.2 = File c mode mtime /\ mtime < cutoff E retention_days
       /\ files w' = delete (directory // _backup_name_to_meta_name
                                            (default "" (entry_name directory pn.1)))
                            (delete pn.1 (files w))
       /\ forall m md t,
            files w !! (directory // _backup_name_to_meta_name
                                       (default "" (entry_name directory pn.1)))
            = Some (File (Metadata m) md t) ->
            should_preserve E m = false.
Proof.
  unfold cleanup_one, cutoff. destruct pn.2 as [c mode mtime| |] eqn:Hn;
    [| intros [= _ <-]; auto | intros [= _ <-]; auto].
  set (mp := directory // _backup_name_to_meta_name (default "" (entry_name directory pn.1))).
  unfold bind, get_files, ret, logger, modify_files.
  destruct (files w !! mp) as [[[a|s|m|b] md t|tg|]|] eqn:Hm; simpl;
    try (destruct (mtime <? _) eqn:Hlt; simpl; intros [= _ <-]; simpl; [|auto];
         right; exists c, mode, mtime; apply Z.ltb_lt in Hlt;
         repeat split; try assumption; try reflexivity; intros ? ? ? [=]).
  destruct (should_preserve E m) eqn:Hp; simpl.
  - intros [= _ <-]. auto.
  - destruct (mtime <? _) eqn:Hlt; simpl; intros [= _ <-]; simpl; [|auto].
    right. exists c, mode, mtime. apply Z.ltb_lt in Hlt.
    repeat split; try assumption; try reflexivity. intros ? ? ? [= <- _ _]. exact Hp.
Qed.

Lemma for_each_invariant {A} (I : world -> Prop) (f : A -> M unit) (l : list A) :
  (forall x w r w', x ∈ l -> I w -> f x w = (r, w') -> I w') ->
  forall w r w', I w -> for_each f l w = (r, w') -> I w'.
Proof.
  induction l as [|x l IH]; intros Hf w r w' Hw; simpl.
  - intros [= _ <-]. exact Hw.
  - intros H. apply bind_inv in H as [(a & w1 & H1 & H2) | (e & H1 & _)].
    + assert (Hl : forall y w2 r2 w3, y ∈ l -> I w2 -> f y w2 = (r2, w3) -> I w3)
        by (intros y w2 r2 w3 Hy; apply Hf; by right).
      apply (IH Hl w1 r w'); [|exact H2].
      eapply (Hf x w); [by left | exact Hw | exact H1].
    + eapply (Hf x w); [by left | exact Hw | exact H1].
Qed.

(** The run of [_cleanup_old_backups] brought down to its loop: an
    invariant of the world that holds at the start and that every
    [cleanup_one] on a matched file keeps, holds at the end. *)
Lemma cleanup_invariant E patterns directory retention_days (I : world -> Prop) w r w' :
  (forall w1 w2, files w1 = files w2 -> I w1 -> I w2) ->
  (forall suffix pn w1 r1 w2,
      suffix ∈ patterns -> pn ∈ glob (files w) directory "" suffix ->
      I w1 -> cleanup_one E directory retention_days pn w1 = (r1, w2) -> I w2) ->
  I w ->
  _cleanup_old_backups E patterns directory retention_days w = (r, w') ->
  I w'.
Proof.
  intros Hext Hstep Hw. unfold _cleanup_old_backups.
  intros H. apply bind_inv in H as [(a & w1 & [= _ <-] & H) | (e & [=] & _)].
  apply bind_inv in H as [(fs & w2 & [= <- <-] & H) | (e & [=] & _)].
  simpl in H.
  assert (Hw1 : I (mkWorld (files w) (log w) (trace w ++ [EvCleanup directory retention_days])))
    by (apply (Hext w); [reflexivity | exact Hw]).
  destruct (negb (exists_path (files w) directory)); [injection H as _ <-; exact Hw1|].
  apply bind_inv in H as [(a2 & w3 & H1 & H) | (e & H1 & _)].
  - unfold syscall in H1. destruct (fault E AtCleanup); [discriminate|].
    injection H1 as _ <-.
    revert H. apply for_each_invariant; [|exact Hw1].
    intros suffix w4 r4 w5 Hs Hw4. apply for_each_invariant; [|exact Hw4].
    intros pn w6 r6 w7 Hpn. apply Hstep with suffix; assumption.
  - unfold syscall in H1. destruct (fault E AtCleanup); injection H1 as _ <-; exact Hw1.
Qed.

(** A file the cleanup may remove: a regular file of the directory that a
    pattern matches and that is older than the cutoff. *)
Definition expired (E : env) (patterns : list string) (directory : string)
    (retention_days : Z) (fs : gmap string node) (q n : string) : Prop :=
  exists suffix c mode mtime,
    suffix ∈ patterns /\ fs !! q = Some (File c mode mtime)
    /\ entry_name directory q = Some n /\ endswith n suffix = true
    /\ mtime < cutoff E retention_days.

Lemma cleanup_frame E patterns directory retention_days w r w' p :
  _cleanup_old_backups E patterns directory retention_days w = (r, w') ->
  files w' !! p = files w !! p
  \/ (files w' !! p = None
      /\ exists q n, expired E patterns directory retention_days (files w) q n
                     /\ (p = q \/ p = directory // _backup_name_to_meta_name n)).
Proof.
  apply (cleanup_invariant E patterns directory retention_days
           (fun w1 => files w1 !! p = files w !! p
                      \/ (files w1 !! p = None
                          /\ exists q n, expired E patterns directory retention_days (files w) q n
                                         /\ (p = q \/ p = directory // _backup_name_to_meta_name n)))).
  - intros w1 w2 Hf. rewrite Hf. auto.
  - intros suffix [q nd] w1 r1 w2 Hs Hpn Hw1 Hrun.
    apply glob_elem in Hpn as (Hq & n & Hn & He). simpl in Hq, Hn.
    apply cleanup_one_run in Hrun as [Hrun|(c & mode & mtime & Hnd & Hlt & Hrun & _)].
    + rewrite Hrun. exact Hw1.
    + simpl in Hnd, Hrun. subst nd. rewrite Hn in Hrun. simpl in Hrun. rewrite Hrun.
      assert (Hex : expired E patterns directory retention_days (files w) q n)
        by (exists suffix, c, mode, mtime; auto).
      destruct (decide (p = directory // _backup_name_to_meta_name n)) as [->|Hne1].
      { right. split; [apply lookup_delete_eq | eauto]. }
      rewrite lookup_delete_ne by congruence.
      destruct (decide (p = q)) as [->|Hne2].
      { right. split; [apply lookup_delete_eq | eauto]. }
      rewrite lookup_delete_ne by congruence. exact Hw1.
  - left. reflexivity.
Qed.

(** The cleanup creates and changes nothing: every path is as it was, or
    gone; and a path is gone only if it was a regular file of the
    directory that one of the patterns matches and that is older than
    [retention_days], or the sidecar path of such a file.  So links,
    directories, recent backups and files that no pattern matches stay.
    The patterns are those the engine cleans with. *)
Theorem cleanup_removes_only_expired (E : env) (patterns : list string)
    (directory : string) (retention_days : Z) (w : world) (r : outcome unit) (w' : world) :
  (forall s, s ∈ patterns -> backup_suffix s) ->
  _cleanup_old_backups E patterns directory retention_days w = (r, w') ->
  forall p,
    files w' !! p = files w !! p
    \/ (files w' !! p = None
        /\ exists q n, expired E patterns directory retention_days (files w) q n
                       /\ (p = q \/ p = directory // _backup_name_to_meta_name n)).
Proof. intros _ H p. eapply cleanup_frame, H. Qed.

(** A store with a backup from long ago, its sidecar, a pinned backup just
    as old, and a backup of today. *)
Definition plain_sidecar (n : string) (pinned : bool) : sidecar :=
  mkSidecar n "app" "project" None "2026-01-01T00:00:00" 4096 (Some "sha-archive")
            [] (Some "normal") pinned pinned (Some "full") (Some false) None None None.

Definition aged_world : world :=
  mkWorld
    (<["/backups/projects/app/app_20260101_000000_full.tar.gz" := File (Archive []) 384 1000]>
       (<["/backups/projects/app/app_20260101_000000_full.json"
            := File (Metadata (plain_sidecar "app_20260101_000000_full.tar.gz" false)) 420 1000]>
       (<["/backups/projects/app/app_20260102_000000_full.tar.gz" := File (Archive []) 384 2000]>
       (<["/backups/projects/app/app_20260102_000000_full.json"
            := File (Metadata (plain_sidecar "app_20260102_000000_full.tar.gz" true)) 420 2000]>
       (<["/backups/projects/app/app_20261104_120000_full.tar.gz"
            := File (Archive []) 384 1000000]>
       (<["/backups/projects/app/latest.tar.gz" := Symlink "app_20261104_120000_full.tar.gz"]>
       (<["/backups/projects/app" := Directory]> ∅)))))))
    [] [].

Definition aged_cleanup : outcome unit * world :=
  _cleanup_old_backups (sample_env sample_projects no_fault None true) default_patterns
                       "/backups/projects/app" 7 aged_world.

Lemma cleanup_removes_only_expired_witness :
  files aged_cleanup.2 !! "/backups/projects/app/app_20260101_000000_full.tar.gz" = None
  /\ files aged_cleanup.2 !! "/backups/projects/app/app_20261104_120000_full.tar.gz"
     = Some (File (Archive []) 384 1000000)
  /\ files aged_cleanup.2 !! "/backups/projects/app/latest.tar.gz"
     = Some (Symlink "app_20261104_120000_full.tar.gz").
Proof.
  assert (Hpat : forall s, s ∈ default_patterns -> backup_suffix s).
  { intros s Hs. unfold default_patterns in Hs.
    apply elem_of_cons in Hs as [->|Hs]; [left; reflexivity|].
    apply list_elem_of_singleton in Hs as ->. right. left. reflexivity. }
  pose proof (cleanup_removes_only_expired (sample_env sample_projects no_fault None true)
                default_patterns "/backups/projects/app" 7 aged_world
                aged_cleanup.1 aged_cleanup.2 Hpat (surjective_pairing _)) as H.
  split; [vm_compute; reflexivity|]. split.
  - destruct (H "/backups/projects/app/app_20261104_120000_full.tar.gz") as [-> | [Hn _]];
      [reflexivity | vm_compute in Hn; discriminate].
  - destruct (H "/backups/projects/app/latest.tar.gz") as [-> | [Hn _]];
      [reflexivity | vm_compute in Hn; discriminate].
Defined.

(** *** Backups that their sidecar holds back *)

(** A backup whose sidecar says [keep_forever] or [pinned], gives it the
    importance "critical" or "high", or carries one of the configured
    important tags, is still there after the cleanup, however old it is,
    and so is its sidecar.  The patterns are those the engine cleans with. *)
Theorem preserved_backup_survives_cleanup (E : env) (patterns : list string)
    (directory : string) (retention_days : Z) (w : world) (r : outcome unit) (w' : world)
    (q n suffix : string) (m : sidecar) (mode t : Z) :
  (forall s, s ∈ patterns -> backup_suffix s) ->
  backup_suffix suffix -> entry_name directory q = Some n -> endswith n suffix = true ->
  files w !! (directory // _backup_name_to_meta_name n) = Some (File (Metadata m) mode t) ->
  should_preserve E m = true ->
  _cleanup_old_backups E patterns directory retention_days w = (r, w') ->
  files w' !! q = files w !! q
  /\ files w' !! (directory // _backup_name_to_meta_name n) = Some (File (Metadata m) mode t).
Proof.
  intros Hpat Hsuf Hq He Hside Hkeep.
  set (S := directory // _backup_name_to_meta_name n) in *.
  apply (cleanup_invariant E patterns directory retention_days
           (fun w1 => files w1 !! q = files w !! q
                      /\ files w1 !! S = Some (File (Metadata m) mode t))).
  - intros w1 w2 Hf. rewrite Hf. auto.
  - intros suffix' [q' nd] w1 r1 w2 Hs' Hpn [I1 I2] Hrun.
    apply glob_elem in Hpn as (_ & n' & Hn' & He'). simpl in Hn'.
    apply cleanup_one_run in Hrun as [Hrun|(c & md & mt & _ & _ & Hrun & Hnp)].
    + rewrite Hrun. auto.
    + simpl in Hrun, Hnp. rewrite Hn' in Hrun, Hnp. simpl in Hrun, Hnp.
      assert (Hmp : directory // _backup_name_to_meta_name n' <> S).
      { intros Heq. rewrite Heq in Hnp. specialize (Hnp m mode t I2). congruence. }
      assert (Hq'S : q' <> S).
      { rewrite (entry_name_join _ _ _ Hn'). unfold S.
        apply sidecar_is_no_backup with suffix'; [apply Hpat, Hs' | exact He']. }
      assert (Hq'q : q' <> q).
      { intros ->. rewrite Hq in Hn'. injection Hn' as <-. apply Hmp. reflexivity. }
      assert (Hmpq : directory // _backup_name_to_meta_name n' <> q).
      { rewrite (entry_name_join _ _ _ Hq). intros Heq. symmetry in Heq. revert Heq.
        apply sidecar_is_no_backup with suffix; assumption. }
      rewrite Hrun. rewrite !lookup_delete_ne by congruence. auto.
  - auto.
Qed.

Lemma preserved_backup_survives_cleanup_witness :
  files aged_cleanup.2 !! "/backups/projects/app/app_20260102_000000_full.tar.gz"
  = Some (File (Archive []) 384 2000).
Proof.
  refine (proj1 (preserved_backup_survives_cleanup
                   (sample_env sample_projects no_fault None true) default_patterns
                   "/backups/projects/app" 7 aged_world aged_cleanup.1 aged_cleanup.2
                   "/backups/projects/app/app_20260102_000000_full.tar.gz"
                   "app_20260102_000000_full.tar.gz" ".tar.gz"
                   (plain_sidecar "app_20260102_000000_full.tar.gz" true) 420 2000
                   _ _ _ _ _ _ (surjective_pairing _))).
  - intros s Hs. unfold default_patterns in Hs.
    apply elem_of_cons in Hs as [->|Hs]; [left; reflexivity|].
    apply list_elem_of_singleton in Hs as ->. right. left. reflexivity.
  - left. reflexivity.
  - vm_compute. reflexivity.
  - vm_compute. reflexivity.
  - vm_compute. reflexivity.
  - reflexivity.
Defined.

(** *** The "latest" link after finalization *)

Lemma cleanup_keeps_link E patterns directory retention_days w r w' p target :
  files w !! p = Some (Symlink target) -> last_char p <> Some "n"%char ->
  _cleanup_old_backups E patterns directory retention_days w = (r, w') ->
  files w' !! p = Some (Symlink target).
Proof.
  intros Hp Hc Hrun.
  destruct (cleanup_frame _ _ _ _ _ _ _ p Hrun) as [-> | (_ & q & n & Hex & [-> | ->])].
  - exact Hp.
  - destruct Hex as (sf & c & md & mt & _ & Hq & _). congruence.
  - exfalso. apply Hc. rewrite last_char_join.
    + apply last_char_meta_name.
    + eapply last_char_some_nonempty, last_char_meta_name.
Qed.

Lemma retention_cleanup_keeps_link E patterns local_dir sub retention_days w r w' p target :
  files w !! p = Some (Symlink target) -> last_char p <> Some "n"%char ->
  _run_retention_cleanup E local_dir sub retention_days (_cleanup_old_backups E patterns) w
  = (r, w') ->
  files w' !! p = Some (Symlink target).
Proof.
  intros Hp Hc. unfold _run_retention_cleanup. intros H.
  apply bind_inv in H as [(a & w1 & H1 & H) | (e & H1 & _)];
    [|eapply cleanup_keeps_link; eassumption].
  pose proof (cleanup_keeps_link _ _ _ _ _ _ _ _ _ Hp Hc H1) as Hp1.
  destruct (secondary E) as [sp|]; [|injection H as _ <-; exact Hp1].
  destruct (String.eqb sub ""); [injection H as _ <-; exact Hp1|].
  apply bind_inv in H as [(fs & w2 & [= <- <-] & H) | (e & [=] & _)].
  unfold when in H. destruct (exists_path _ _); [|injection H as _ <-; exact Hp1].
  eapply cleanup_keeps_link; eassumption.
Qed.

Lemma finalize_backup_latest E backup_dir backup_name item_name item_type description
    sub link retention_days extra patterns w size w' :
  last_char (backup_dir // link) <> Some "n"%char ->
  _finalize_backup E backup_dir backup_name item_name item_type description sub link
                   retention_days extra (_cleanup_old_backups E patterns) w
  = (Returned size, w') ->
  files w' !! (backup_dir // link) = Some (Symlink backup_name).
Proof.
  intros Hc H. unfold _finalize_backup in H.
  apply bind_inv in H as [(a1 & w1 & _ & H) | (e & _ & [=])].
  apply bind_inv in H as [(fs & w1' & [= <- <-] & H) | (e & [=] & _)].
  apply bind_inv in H as [(a2 & w2 & _ & H) | (e & _ & [=])].
  apply bind_inv in H as [(a3 & w3 & _ & H) | (e & _ & [=])].
  apply bind_inv in H as [(a4 & w4 & H4 & H) | (e & _ & [=])].
  apply bind_inv in H as [(a5 & w5 & H5 & H) | (e & _ & [=])].
  injection H as _ <-.
  assert (Hl : files w4 !! (backup_dir // link) = Some (Symlink backup_name)).
  { unfold update_latest, bind, syscall, modify_files, emit in H4.
    destruct (fault E AtSymlink); [discriminate|]. injection H4 as _ <-. simpl.
    apply lookup_insert_eq. }
  eapply retention_cleanup_keeps_link; eassumption.
Qed.

(** After a finalization that returns, whatever the kind of backup, the
    "latest" link of the item's directory points to the backup just made:
    the cleanup that follows the link's update never removes it. *)
Theorem finalize_points_latest (E : env) (kind : backup_kind) (item backup_name : string)
    (description : option string) (retention_days : Z) (extra : option extra_metadata)
    (w : world) (size : Z) (w' : world) :
  finalize_for E kind item backup_name description retention_days extra w
  = (Returned size, w') ->
  files w' !! (kind_dir E kind item // kind_link kind backup_name)
  = Some (Symlink backup_name).
Proof.
  destruct kind; simpl; intros H; (eapply finalize_backup_latest; [|exact H]);
    try (rewrite last_char_join by discriminate; discriminate).
  destruct (endswith backup_name ".gz"); rewrite last_char_join by discriminate; discriminate.
Qed.

Lemma finalize_points_latest_witness :
  sample_finalize.1 = Returned 4096
  /\ files sample_finalize.2 !! "/backups/projects/app/latest.tar.gz"
     = Some (Symlink "app_20261104_120000_full.tar.gz").
Proof.
  assert (H : finalize_for (sample_env sample_projects no_fault (Some "/mirror") true)
                KProject "app" "app_20261104_120000_full.tar.gz" None 30 None written_world
              = (Returned 4096, sample_finalize.2)) by (vm_compute; reflexivity).
  split; [vm_compute; reflexivity|].
  exact (finalize_points_latest _ KProject "app" "app_20261104_120000_full.tar.gz" None 30 None
                                written_world 4096 sample_finalize.2 H).
Defined.

End CleanupFacts.

(* ===================================================================== *)
(** ** Sidecars, checksums and what verification accepts *)
(* ===================================================================== *)
Module IntegrityFacts.
Import Engine EngineFacts CleanupFacts.
Local Open Scope engine_scope.

(** *** The two ways the engine names a sidecar *)

(** [old in s], for a non-empty [old]. *)
Fixpoint occurs (old s : string) : bool :=
  String.prefix old s
  || match s with
     | EmptyString => false
     | String _ s' => occurs old s'
     end.

Lemma replace_from_cons old new a s :
  replace_from old new 0 (String a s)
  = if String.prefix old (String a s)
    then new +:+ replace_from old new (String.length old - 1) s
    else String a (replace_from old new 0 s).
Proof. reflexivity. Qed.

Lemma occurs_cons old a s :
  occurs old (String a s) = String.prefix old (String a s) || occurs old s.
Proof. reflexivity. Qed.

(** [s.replace(old, new)] leaves a string without [old] as it is. *)
Lemma replace_absent old new s : occurs old s = false -> replace old new s = s.
Proof.
  unfold replace. induction s as [|a s IH]; [reflexivity|].
  rewrite occurs_cons. intros [H1 H2]%orb_false_iff.
  rewrite replace_from_cons, H1. f_equal. apply IH, H2.
Qed.

Lemma prefix_cons a old b s :
  String.prefix (String a old) (String b s)
  = if ascii_dec a b then String.prefix old s else false.
Proof. reflexivity. Qed.

(** A prefix test that does not reach past [t] does not see what follows. *)
Lemma prefix_app_long old t ext :
  (String.length old <= String.length t)%nat ->
  String.prefix old (t +:+ ext) = String.prefix old t.
Proof.
  revert t. induction old as [|a old IH]; intros t Hl.
  - destruct t; destruct ext; reflexivity.
  - destruct t as [|b t]; [simpl in Hl; lia|].
    change (String b t +:+ ext) with (String b (t +:+ ext)).
    rewrite !prefix_cons. destruct (ascii_dec a b); [|reflexivity].
    apply IH. simpl in Hl. lia.
Qed.

(** No occurrence of [old] starts in the stem and ends in [ext]: whatever
    is left of [old] after its first [k] characters does not start [ext]. *)
Definition no_straddle (old ext : string) : bool :=
  forallb (fun k => negb (String.prefix (drop_chars k old) ext))
          (seq 1 (String.length old - 1)).

Lemma prefix_straddle old t ext :
  (forall k, (0 < k)%nat -> (k <= String.length t)%nat -> (k < String.length old)%nat ->
             String.prefix (drop_chars k old) ext = false) ->
  t <> "" -> (String.length t < String.length old)%nat ->
  String.prefix old (t +:+ ext) = false.
Proof.
  revert old. induction t as [|b t IH]; intros old Hk Hne Hl; [congruence|].
  destruct old as [|a old]; [simpl in Hl; lia|].
  change (String b t +:+ ext) with (String b (t +:+ ext)).
  rewrite prefix_cons. destruct (ascii_dec a b); [|reflexivity].
  destruct t as [|b' t].
  - apply (Hk 1%nat); simpl in *; lia.
  - apply IH; [|discriminate|simpl in *; lia].
    intros k Hk0 Hk1 Hk2. apply (Hk (S k)); simpl in *; lia.
Qed.

Lemma no_straddle_spec old ext k :
  no_straddle old ext = true -> (0 < k)%nat -> (k < String.length old)%nat ->
  String.prefix (drop_chars k old) ext = false.
Proof.
  unfold no_straddle. rewrite forallb_forall. intros H Hk0 Hk1.
  apply negb_true_iff. apply H. apply in_seq. lia.
Qed.

(** Replacing in [stem + ext] when [old] neither occurs in the stem nor
    straddles the joint: the stem stays, the replacement is done in [ext]. *)
Lemma replace_app old new stem ext :
  occurs old stem = false -> no_straddle old ext = true ->
  replace old new (stem +:+ ext) = stem +:+ replace old new ext.
Proof.
  intros Ho Hs. unfold replace. induction stem as [|a stem IH]; [reflexivity|].
  rewrite occurs_cons in Ho. apply orb_false_iff in Ho as [H1 H2].
  change (String a stem +:+ ext) with (String a (stem +:+ ext)).
  rewrite replace_from_cons.
  assert (String.prefix old (String a (stem +:+ ext)) = false) as ->.
  { change (String a (stem +:+ ext)) with (String a stem +:+ ext).
    destruct (le_lt_dec (String.length old) (String.length (String a stem))) as [Hl|Hl].
    - rewrite prefix_app_long by exact Hl. exact H1.
    - apply prefix_straddle; [|discriminate|exact Hl].
      intros k Hk0 _ Hk1. apply no_straddle_spec; assumption. }
  change (String a stem +:+ replace_from old new 0 ext)
    with (String a (stem +:+ replace_from old new 0 ext)).
  f_equal. apply IH, H2.
Qed.

Lemma append_length_eq_inj (a b x y : string) :
  a +:+ x = b +:+ y -> String.length x = String.length y -> a = b /\ x = y.
Proof.
  revert b. induction a as [|c a IH]; intros b H Hl.
  - destruct b as [|d b]; [auto|]. exfalso.
    apply (f_equal String.length) in H. rewrite !append_length in H. simpl in H. lia.
  - destruct b as [|d b].
    + exfalso. apply (f_equal String.length) in H. rewrite !append_length in H. simpl in H. lia.
    + change (String c (a +:+ x) = String d (b +:+ y)) in H. injection H as -> H.
      destruct (IH b H Hl) as [-> ->]. auto.
Qed.

Lemma endswith_split s suffix : endswith s suffix = true -> exists pre, s = pre +:+ suffix.
Proof.
  induction s as [|a s IH].
  - intros H. apply endswith_nil in H as ->. exists "". reflexivity.
  - rewrite endswith_cons. intros [H|H]%orb_true_iff.
    + apply String.eqb_eq in H. exists "". exact H.
    + destruct (IH H) as [pre ->]. exists (String a pre). reflexivity.
Qed.

Lemma endswith_app stem suffix : endswith (stem +:+ suffix) suffix = true.
Proof.
  induction stem as [|a stem IH].
  - change ("" +:+ suffix) with suffix.
    destruct suffix; [reflexivity|]. rewrite endswith_cons, String.eqb_refl. reflexivity.
  - change (String a stem +:+ suffix) with (String a (stem +:+ suffix)).
    rewrite endswith_cons, IH. apply orb_true_r.
Qed.

Lemma endswith_other stem e1 e2 :
  String.length e1 = String.length e2 -> e1 <> e2 -> endswith (stem +:+ e1) e2 = false.
Proof.
  intros Hl Hne. destruct (endswith (stem +:+ e1) e2) eqn:E; [|reflexivity].
  apply endswith_split in E as [pre E].
  apply append_length_eq_inj in E as [_ E]; [contradiction | exact Hl].
Qed.

Lemma substring_stem stem ext :
  String.substring 0 (String.length (stem +:+ ext) - String.length ext) (stem +:+ ext) = stem.
Proof.
  rewrite append_length. replace (_ + _ - _)%nat with (String.length stem) by lia.
  induction stem as [|a stem IH]; [destruct ext; reflexivity|].
  change (String a stem +:+ ext) with (String a (stem +:+ ext)). simpl. f_equal. exact IH.
Qed.

Lemma meta_name_strips stem ext :
  backup_suffix ext -> _backup_name_to_meta_name (stem +:+ ext) = stem +:+ ".json".
Proof.
  intros Hs. unfold _backup_name_to_meta_name.
  destruct Hs as [-> | [-> | ->]].
  - rewrite endswith_app. rewrite substring_stem. reflexivity.
  - rewrite (endswith_other stem ".sql.gz" ".tar.gz") by (reflexivity || discriminate).
    rewrite endswith_app. rewrite substring_stem. reflexivity.
  - rewrite (endswith_other stem ".bundle" ".tar.gz") by (reflexivity || discriminate).
    rewrite (endswith_other stem ".bundle" ".sql.gz") by (reflexivity || discriminate).
    rewrite endswith_app. rewrite substring_stem. reflexivity.
Qed.

(** A stem in which none of the three extensions occurs. *)
Definition plain_stem (stem : string) : Prop :=
  occurs ".tar.gz" stem = false /\ occurs ".sql.gz" stem = false
  /\ occurs ".bundle" stem = false.

Lemma metadata_name_replaces stem ext :
  backup_suffix ext -> plain_stem stem -> metadata_name_of (stem +:+ ext) = stem +:+ ".json".
Proof.
  intros Hs (H1 & H2 & H3). unfold metadata_name_of.
  destruct Hs as [-> | [-> | ->]].
  - rewrite (replace_app ".tar.gz") by (assumption || reflexivity).
    change (replace ".tar.gz" ".json" ".tar.gz") with ".json".
    rewrite (replace_app ".sql.gz") by (assumption || reflexivity).
    change (replace ".sql.gz" ".json" ".json") with ".json".
    rewrite (replace_app ".bundle") by (assumption || reflexivity). reflexivity.
  - rewrite (replace_app ".tar.gz") by (assumption || reflexivity).
    change (replace ".tar.gz" ".json" ".sql.gz") with ".sql.gz".
    rewrite (replace_app ".sql.gz") by (assumption || reflexivity).
    change (replace ".sql.gz" ".json" ".sql.gz") with ".json".
    rewrite (replace_app ".bundle") by (assumption || reflexivity). reflexivity.
  - rewrite (replace_app ".tar.gz") by (assumption || reflexivity).
    change (replace ".tar.gz" ".json" ".bundle") with ".bundle".
    rewrite (replace_app ".sql.gz") by (assumption || reflexivity).
    change (replace ".sql.gz" ".json" ".bundle") with ".bundle".
    rewrite (replace_app ".bundle") by (assumption || reflexivity). reflexivity.
Qed.

(** The sidecar name computed when a backup is made (the chain of
    [replace] calls of [_create_backup_metadata] and [_sync_to_secondary])
    and the one computed when it is looked up
    ([_backup_name_to_meta_name], used by the cleanup, by verification and
    by tagging) are the same name, the stem with [.json], for every backup
    name that is a stem without [.tar.gz], [.sql.gz] or [.bundle] inside,
    followed by one of these three. *)
Theorem sidecar_names_agree (stem ext : string) :
  backup_suffix ext -> plain_stem stem ->
  metadata_name_of (stem +:+ ext) = stem +:+ ".json"
  /\ _backup_name_to_meta_name (stem +:+ ext) = stem +:+ ".json".
Proof.
  intros Hs Hp. split; [apply metadata_name_replaces; assumption | apply meta_name_strips, Hs].
Qed.

Lemma sidecar_names_agree_witness :
  metadata_name_of "app_20261104_120000_incr.tar.gz" = "app_20261104_120000_incr.json"
  /\ _backup_name_to_meta_name "app_20261104_120000_incr.tar.gz"
     = "app_20261104_120000_incr.json".
Proof.
  apply (sidecar_names_agree "app_20261104_120000_incr" ".tar.gz").
  - left. reflexivity.
  - repeat split; vm_compute; reflexivity.
Defined.

(** *** Writing the sidecar *)

(** The sidecar [_create_backup_metadata] writes for the content [c]. *)
Definition sidecar_for (E : env) (backup_name item_name item_type : string)
    (description : option string) (size_bytes : Z) (extra : option extra_metadata)
    (c : content) : sidecar :=
  mkSidecar backup_name item_name item_type description (clock_iso E) size_bytes
            (Some (sha256 E c)) [] (Some "normal") false false
            (ex_backup_type <$> extra) (ex_incremental <$> extra)
            (extra ≫= ex_files_added) (extra ≫= ex_files_skipped)
            (extra ≫= ex_base_backup).

(** A call that returns has read the backup file, and has written the
    sidecar with the digest of what it read. *)
Lemma create_metadata_run E dir backup_name item_name item_type description size path extra
    w w1 :
  _create_backup_metadata E dir backup_name item_name item_type description size path extra w
  = (Returned tt, w1) ->
  exists c,
    file_content (files w) path = Some c
    /\ fault E AtChecksum = false
    /\ files w1 = <[dir // metadata_name_of backup_name
                      := File (Metadata (sidecar_for E backup_name item_name item_type
                                                     description size extra c))
                              420 (clock_epoch E)]> (files w).
Proof.
  intros H.
  cbv [_create_backup_metadata _calculate_file_checksum bind try_except get_files syscall
       logger emit modify_files ret raise] in H.
  run_cases H; simpl in H; try discriminate.
  injection H as <-. eexists. repeat split; eauto.
Qed.

(** A backup name in which none of [.tar.gz], [.sql.gz], [.bundle] occurs
    -- the [name.sql] of a database dump that is not compressed -- is its
    own sidecar name: [_create_backup_metadata] then writes the sidecar
    over the backup file.  When it returns, the backup's path holds the
    metadata, with the digest of the content that was there before. *)
Theorem sidecar_overwrites_unrecognized_backup (E : env)
    (dir backup_name item_name item_type : string) (description : option string)
    (size : Z) (extra : option extra_metadata) (w w1 : world) :
  plain_stem backup_name ->
  _create_backup_metadata E dir backup_name item_name item_type description size
                          (dir // backup_name) extra w = (Returned tt, w1) ->
  metadata_name_of backup_name = backup_name
  /\ exists c,
       file_content (files w) (dir // backup_name) = Some c
       /\ file_content (files w1) (dir // backup_name)
          = Some (Metadata (sidecar_for E backup_name item_name item_type description
                                        size extra c)).
Proof.
  intros (H1 & H2 & H3) Hrun.
  assert (Hn : metadata_name_of backup_name = backup_name).
  { unfold metadata_name_of. rewrite (replace_absent ".tar.gz") by exact H1.
    rewrite (replace_absent ".sql.gz") by exact H2. apply replace_absent, H3. }
  split; [exact Hn|].
  apply create_metadata_run in Hrun as (c & Hc & _ & Hf).
  exists c. split; [exact Hc|]. unfold file_content. rewrite Hf, Hn, lookup_insert_eq.
  reflexivity.
Qed.

(** An uncompressed dump of the database [shop]. *)
Definition dump_world : world :=
  mkWorld (<["/backups/databases/shop/shop_20261104_120000.sql"
               := File (Bytes "CREATE TABLE t (id INT);") 384 1000000]>
             (<["/backups/databases/shop" := Directory]> ∅))
          [] [].

Definition dump_metadata : outcome unit * world :=
  _create_backup_metadata (sample_env [] no_fault None true) "/backups/databases/shop"
    "shop_20261104_120000.sql" "shop" "database" None 24
    "/backups/databases/shop/shop_20261104_120000.sql" None dump_world.

Lemma sidecar_overwrites_unrecognized_backup_witness :
  dump_metadata.1 = Returned tt
  /\ file_content (files dump_world) "/backups/databases/shop/shop_20261104_120000.sql"
     = Some (Bytes "CREATE TABLE t (id INT);")
  /\ exists m, file_content (files dump_metadata.2)
                 "/backups/databases/shop/shop_20261104_120000.sql" = Some (Metadata m).
Proof.
  assert (H : _create_backup_metadata (sample_env [] no_fault None true)
                "/backups/databases/shop" "shop_20261104_120000.sql" "shop" "database" None 24
                ("/backups/databases/shop" // "shop_20261104_120000.sql") None dump_world
              = (Returned tt, dump_metadata.2)) by (vm_compute; reflexivity).
  assert (Hp : plain_stem "shop_20261104_120000.sql")
    by (repeat split; vm_compute; reflexivity).
  split; [vm_compute; reflexivity|]. split; [reflexivity|].
  destruct (sidecar_overwrites_unrecognized_backup _ _ _ _ _ _ _ _ _ _ Hp H)
    as (_ & c & _ & Hm).
  eexists. exact Hm.
Defined.

(** *** Verification *)

(** What a run of [verify_backup] is: it returns, it changes no file, and
    a success means that the backup and a readable sidecar are there and
    that the sidecar's checksum is the digest of the backup. *)
Lemma verify_backup_run E item_type item_name backup_file w r w' :
  verify_backup E item_type item_name backup_file w = (r, w') ->
  files w' = files w
  /\ exists ok msg,
       r = Returned (ok, msg)
       /\ (ok = true ->
           exists dir c m,
             item_dir E item_type item_name = Some dir
             /\ file_content (files w) (dir // backup_file) = Some c
             /\ file_content (files w) (dir // _backup_name_to_meta_name backup_file)
                = Some (Metadata m)
             /\ sc_checksum_sha256 m = Some (sha256 E c)).
Proof.
  intros H.
  cbv [verify_backup _calculate_file_checksum bind try_except get_files syscall
       logger emit modify_files ret raise] in H.
  destruct (item_dir E item_type item_name) as [dir|] eqn:Hd.
  2:{ injection H as <- <-. split; [reflexivity|]. eexists _, _. split; [reflexivity|].
      discriminate. }
  run_cases H; simpl in H; injection H as <- <-; (split; [reflexivity|]);
    eexists _, _; (split; [reflexivity|]); try discriminate.
  intros _. subst.
  match goal with
  | Hs : (sha256 E ?c0 =? ?s)%string = true,
    Hc : file_content _ (dir // backup_file) = Some ?c0,
    Hm : files w !! (dir // _backup_name_to_meta_name backup_file) = Some (File (Metadata ?m) _ _),
    Hk : sc_checksum_sha256 ?m = Some ?s |- _ =>
      apply String.eqb_eq in Hs; subst s; exists dir, c0, m;
      split; [reflexivity|]; split; [exact Hc|]; split; [|exact Hk];
      unfold file_content; rewrite Hm; reflexivity
  end.
Qed.

(** [verify_backup] never raises and changes no file.  When it reports
    success for a backup named by a stem and one of the extensions
    [.tar.gz], [.sql.gz], [.bundle], the backup file is there, the sidecar
    [stem.json] is there and readable, and its checksum entry is the
    SHA-256 digest of the backup file. *)
Theorem verify_backup_sound (E : env) (item_type item_name stem ext : string)
    (w : world) (r : outcome result) (w' : world) :
  backup_suffix ext ->
  verify_backup E item_type item_name (stem +:+ ext) w = (r, w') ->
  files w' = files w
  /\ exists ok msg,
       r = Returned (ok, msg)
       /\ (ok = true ->
           exists dir c m,
             item_dir E item_type item_name = Some dir
             /\ file_content (files w) (dir // (stem +:+ ext)) = Some c
             /\ file_content (files w) (dir // (stem +:+ ".json")) = Some (Metadata m)
             /\ sc_checksum_sha256 m = Some (sha256 E c)).
Proof.
  intros Hs H. apply verify_backup_run in H as (Hf & ok & msg & Hr & Hok).
  split; [exact Hf|]. exists ok, msg. split; [exact Hr|].
  intros Ht. destruct (Hok Ht) as (dir & c & m & Hd & Hc & Hm & Hk).
  rewrite (meta_name_strips stem ext Hs) in Hm. exists dir, c, m. auto.
Qed.

Lemma verify_backup_sound_witness :
  let E := sample_env sample_projects no_fault None true in
  let run := verify_backup E "project" "app" "app_20261103_120000_full.tar.gz" world_with_link in
  run.1 = Returned (true, "Backup verified successfully (checksum matches)")
  /\ files run.2 = files world_with_link
  /\ exists c m,
       file_content (files world_with_link)
                    "/backups/projects/app/app_20261103_120000_full.tar.gz" = Some c
       /\ file_content (files world_with_link)
                       "/backups/projects/app/app_20261103_120000_full.json" = Some (Metadata m)
       /\ sc_checksum_sha256 m = Some (sha256 E c).
Proof.
  intros E run.
  assert (Hr : run.1 = Returned (true, "Backup verified successfully (checksum matches)"))
    by (vm_compute; reflexivity).
  destruct (verify_backup_sound E "project" "app" "app_20261103_120000_full" ".tar.gz"
              world_with_link run.1 run.2 (or_introl eq_refl) (surjective_pairing _))
    as (Hf & ok & msg & Hrm & Hok).
  split; [exact Hr|]. split; [exact Hf|].
  rewrite Hr in Hrm. injection Hrm as <- _.
  destruct (Hok eq_refl) as (dir & c & m & Hd & Hc & Hm & Hs).
  injection Hd as <-. exists c, m. auto.
Defined.



(** *** A backup that does not verify is not restored *)

Lemma verify_changes_no_file E item_type item_name backup_file w r w' :
  verify_backup E item_type item_name backup_file w = (r, w') -> files w' = files w.
Proof.
  intros H.
  cbv [verify_backup _calculate_file_checksum bind try_except get_files syscall
       logger emit modify_files ret raise] in H.
  destruct (item_dir E item_type item_name); [|injection H as _ <-; reflexivity].
  run_cases H; simpl in H; injection H as _ <-; reflexivity.
Qed.

Lemma validate_identifier_raises name t e :
  _validate_identifier name t = Raised e -> exists msg, e = ValueError msg.
Proof.
  unfold _validate_identifier. destruct (identifier_matches name); [discriminate|].
  intros [= <-]. eauto.
Qed.

Lemma validate_filename_raises f e :
  _validate_backup_filename f = Raised e -> exists msg, e = ValueError msg.
Proof.
  unfold _validate_backup_filename. destruct (_ || _); [|discriminate].
  intros [= <-]. eauto.
Qed.

Lemma validate_target_raises E t e :
  _validate_restore_target E t = Raised e -> exists msg, e = ValueError msg.
Proof.
  unfold _validate_restore_target. destruct (existsb _ _); [|discriminate].
  intros [= <-]. eauto.
Qed.

(** When the verification of the backup fails, [restore_project] leaves
    every file as it was: nothing is moved aside and nothing is extracted
    (the trace is that of the verification, or has not grown at all).  The
    call returns a failure, unless it had raised [ValueError] on one of its
    arguments before. *)
Theorem unverified_backup_is_not_restored (E : env) (project_name backup_file : string)
    (target_path : option string) (w : world) (r : outcome result) (w' : world)
    (why : string) (wv : world) :
  verify_backup E "project" project_name backup_file w = (Returned (false, why), wv) ->
  restore_project E project_name backup_file target_path w = (r, w') ->
  files w' = files w
  /\ (trace w' = trace w \/ trace w' = trace wv)
  /\ match r with
     | Returned res => res.1 = false
     | Raised e => exists msg, e = ValueError msg
     end.
Proof.
  intros Hv H.
  pose proof (verify_changes_no_file _ _ _ _ _ _ _ Hv) as Hfv.
  unfold restore_project in H.
  apply bind_inv in H as [(a & w1 & V1 & H)|(e & V1 & ->)].
  2:{ unfold lift in V1. injection V1 as V1 <-. repeat split; auto.
      eapply validate_identifier_raises, V1. }
  unfold lift in V1. injection V1 as V1 <-.
  apply bind_inv in H as [(a' & w1 & V2 & H)|(e & V2 & ->)].
  2:{ unfold lift in V2. injection V2 as V2 <-. repeat split; auto.
      eapply validate_filename_raises, V2. }
  unfold lift in V2. injection V2 as V2 <-.
  apply bind_inv in H as [(fs & w1 & G & H)|(e & G & _)]; [|discriminate G].
  injection G as <- <-.
  destruct (negb (exists_path (files w) _)); [injection H as <- <-; auto|].
  assert (Habort : forall (k : M result) h w0,
             w0 = w ->
             try_except
               (do verified <- verify_backup E "project" project_name backup_file;
                if negb verified.1
                then (logger WARNING ("Backup verification failed: " +:+ verified.2) ;;
                      ret (false, "Restore aborted - backup verification failed: "
                                  +:+ verified.2))
                else k) h w0 = (r, w') ->
             files w' = files w /\ (trace w' = trace w \/ trace w' = trace wv)
             /\ match r with
                | Returned res => res.1 = false
                | Raised e => exists msg, e = ValueError msg
                end).
  { intros k h w0 ->. unfold try_except, bind, logger, ret. rewrite Hv. simpl.
    intros [= <- <-]. simpl. auto. }
  destruct (get_project E project_name) as [project|], target_path as [tp|].
  - apply bind_inv in H as [(p & w1 & V3 & H)|(e & V3 & ->)].
    + apply bind_inv in V3 as [(u & w2 & V3 & R)|(e & V3 & ?)]; [|discriminate].
      injection V3 as _ <-. injection R as _ <-. revert H. apply Habort. reflexivity.
    + apply bind_inv in V3 as [(u & w2 & V3 & R)|(e' & V3 & ?)]; [discriminate R|].
      injection V3 as V3 <-. injection H as ->. repeat split; auto.
      eapply validate_target_raises, V3.
  - apply bind_inv in H as [(p & w1 & V3 & H)|(e & V3 & ->)]; [|discriminate V3].
    injection V3 as _ <-. revert H. apply Habort. reflexivity.
  - apply bind_inv in H as [(p & w1 & V3 & H)|(e & V3 & ->)].
    + apply bind_inv in V3 as [(u & w2 & V3 & R)|(e & V3 & ?)]; [|discriminate].
      injection V3 as _ <-. injection R as _ <-. revert H. apply Habort. reflexivity.
    + apply bind_inv in V3 as [(u & w2 & V3 & R)|(e' & V3 & ?)]; [discriminate R|].
      injection V3 as V3 <-. injection H as ->. repeat split; auto.
      eapply validate_target_raises, V3.
  - injection H as <- <-. auto.
Qed.

Definition corrupted_world : world :=
  mkWorld (<["/backups/projects/app/app_20261103_120000_full.tar.gz"
               := File (Bytes "truncated") 384 900000]> (files world_with_link))
          [] [].

Lemma unverified_backup_is_not_restored_witness :
  let E := sample_env sample_projects no_fault None true in
  let check := verify_backup E "project" "app" "app_20261103_120000_full.tar.gz"
                             corrupted_world in
  let run := restore_project E "app" "app_20261103_120000_full.tar.gz" None corrupted_world in
  check.1 = Returned (false, "Backup corrupted! Checksum mismatch. Expected: sha-archive Actual: sha-other")
  /\ files run.2 = files corrupted_world
  /\ trace run.2 = [EvChecksum "/backups/projects/app/app_20261103_120000_full.tar.gz"]
  /\ exists msg, run.1 = Returned (false, msg).
Proof.
  intros E check run.
  assert (Hc : check = (Returned (false, "Backup corrupted! Checksum mismatch. Expected: sha-archive Actual: sha-other"), check.2))
    by (vm_compute; reflexivity).
  destruct (unverified_backup_is_not_restored E "app" "app_20261103_120000_full.tar.gz" None
              corrupted_world run.1 run.2 _ _ Hc (surjective_pairing _)) as (Hf & _ & Hr).
  split; [rewrite Hc; reflexivity|]. split; [exact Hf|].
  split; [vm_compute; reflexivity|].
  destruct run.1 as [res|e] eqn:Hrun.
  - destruct res as [ok msg]. simpl in Hr. subst ok. eauto.
  - exfalso. vm_compute in Hrun. discriminate Hrun.
Defined.

End IntegrityFacts.

(** ** The mirror copy *)

Module MirrorFacts.
Import Engine EngineFacts.
Local Open Scope engine_scope.

(** Two files that [_smart_copy] cannot tell apart: the same size and the
    same SHA-256 digest. *)
Definition same_size_and_digest (E : env) (a b : option node) : Prop :=
  exists ca ma ta cb mb tb,
    a = Some (File ca ma ta) /\ b = Some (File cb mb tb)
    /\ size_of E ca = size_of E cb /\ sha256 E ca = sha256 E cb.

Lemma copy2_run E source destination w w' :
  copy2 E source destination w = (Returned tt, w') ->
  exists n, files w !! source = Some n /\ files w' = <[destination := n]> (files w).
Proof.
  unfold copy2, bind, syscall, get_files, modify_files, emit, ret, raise.
  intros H. run_cases H; simpl in H; try discriminate.
  injection H as <-. simpl. eauto.
Qed.

Lemma copy2_then {A} E source destination (k : M A) w r w' :
  (copy2 E source destination ;; k) w = (Returned r, w') ->
  exists w1, copy2 E source destination w = (Returned tt, w1) /\ k w1 = (Returned r, w').
Proof.
  intros H. apply bind_inv in H as [([] & w1 & H1 & H2)|(e & _ & ?)]; [eauto|discriminate].
Qed.

Lemma checksum_run E p w s w' :
  _calculate_file_checksum E p w = (Returned s, w') ->
  files w' = files w /\ exists c, file_content (files w) p = Some c /\ s = sha256 E c.
Proof.
  unfold _calculate_file_checksum, bind, syscall, get_files, emit, ret, raise.
  intros H. run_cases H; simpl in H; try discriminate.
  injection H as <- <-. simpl. eauto.
Qed.

Lemma file_content_node fs p c :
  file_content fs p = Some c -> exists m t, fs !! p = Some (File c m t).
Proof.
  unfold file_content. destruct (fs !! p) as [[c' m t| |]|]; try discriminate.
  intros [= ->]. eauto.
Qed.

Lemma smart_copy_run (E : env) (source destination : string)
    (w : world) (copied : bool) (w' : world) :
  _smart_copy E source destination w = (Returned copied, w') ->
  is_Some (files w !! source)
  /\ (forall p, p <> destination -> files w' !! p = files w !! p)
  /\ if copied
     then files w' !! destination = files w !! source
     else files w' = files w
          /\ same_size_and_digest E (files w !! source) (files w !! destination).
Proof.
  intros H. unfold _smart_copy in H.
  apply bind_inv in H as [(fs & w0 & G & H)|(e & _ & ?)]; [|discriminate].
  injection G as <- <-.
  assert (Hcopy : forall msg, (copy2 E source destination ;; logger DEBUG msg ;; ret true) w
                              = (Returned copied, w') ->
            is_Some (files w !! source)
            /\ (forall p, p <> destination -> files w' !! p = files w !! p)
            /\ copied = true /\ files w' !! destination = files w !! source).
  { intros msg Hc. apply copy2_then in Hc as (w1 & Hc & Hk).
    apply copy2_run in Hc as (n & Hs & Hf).
    unfold bind, logger, ret in Hk. injection Hk as <- <-. cbn [files].
    rewrite Hf, Hs. split; [eauto|]. split; [|split; [reflexivity|apply lookup_insert_eq]].
    intros p Hp. apply lookup_insert_ne. congruence. }
  destruct (negb (exists_path (files w) destination)).
  { apply Hcopy in H as (Hs & Hfr & -> & Hd). auto. }
  destruct (file_content (files w) source) as [cs|] eqn:Hcs; [|discriminate H].
  destruct (file_content (files w) destination) as [cd|] eqn:Hcd; [|discriminate H].
  destruct (negb (size_of E cs =? size_of E cd)) eqn:Hsz.
  { apply Hcopy in H as (Hs & Hfr & -> & Hd). auto. }
  apply bind_inv in H as [(s1 & w1 & C1 & H)|(e & _ & ?)]; [|discriminate].
  apply checksum_run in C1 as (F1 & c1 & Hc1 & ->).
  apply bind_inv in H as [(s2 & w2 & C2 & H)|(e & _ & ?)]; [|discriminate].
  apply checksum_run in C2 as (F2 & c2 & Hc2 & ->).
  rewrite F1 in Hc2, F2. rewrite Hcs in Hc1. rewrite Hcd in Hc2.
  injection Hc1 as <-. injection Hc2 as <-.
  destruct (negb (sha256 E cs =? sha256 E cd)%string) eqn:Hsha.
  { assert (Hcopy2 : forall msg, (copy2 E source destination ;; logger DEBUG msg ;; ret true) w2
                              = (Returned copied, w') ->
            (forall p, p <> destination -> files w' !! p = files w2 !! p)
            /\ copied = true /\ files w' !! destination = files w2 !! source).
    { intros msg Hc. apply copy2_then in Hc as (w3 & Hc & Hk).
      apply copy2_run in Hc as (n & Hs & Hf).
      unfold bind, logger, ret in Hk. injection Hk as <- <-. cbn [files].
      rewrite Hf, Hs. split; [|split; [reflexivity|apply lookup_insert_eq]].
      intros p Hp. apply lookup_insert_ne. congruence. }
    apply Hcopy2 in H as (Hfr & -> & Hd). rewrite F2 in Hd.
    apply file_content_node in Hcs as (m & t & Hn).
    split; [rewrite Hn; eauto|]. split; [|exact Hd].
    intros p Hp. rewrite (Hfr p Hp), F2. reflexivity. }
  unfold bind, emit, logger, ret in H. injection H as <- <-. cbn [files].
  rewrite F2.
  apply file_content_node in Hcs as (ms & ts & Hns).
  apply file_content_node in Hcd as (md & td & Hnd).
  split; [rewrite Hns; eauto|]. split; [reflexivity|]. split; [reflexivity|].
  exists cs, ms, ts, cd, md, td. rewrite Hns, Hnd.
  apply negb_false_iff in Hsz, Hsha. apply Z.eqb_eq in Hsz. apply String.eqb_eq in Hsha.
  auto.
Qed.

(** When [_smart_copy] returns, the destination holds the source: either
    it was copied ([True]: the destination is now the very file of the
    source), or it was left alone ([False]: no file has changed, and
    destination and source have the same size and the same digest).  No
    other path is touched. *)
Theorem smart_copy_leaves_a_copy (E : env) (source destination : string)
    (w : world) (copied : bool) (w' : world) :
  _smart_copy E source destination w = (Returned copied, w') ->
  is_Some (files w !! source)
  /\ (forall p, p <> destination -> files w' !! p = files w !! p)
  /\ if copied
     then files w' !! destination = files w !! source
     else files w' = files w
          /\ same_size_and_digest E (files w !! source) (files w !! destination).
Proof. apply smart_copy_run. Qed.

(** A sidecar of the same size as the one in the mirror, with another
    digest, is copied over it. *)
Definition stale_mirror : world :=
  mkWorld (<["/mirror/projects/app/app_20261103_120000_full.tar.gz"
               := File (Bytes "older") 384 800000]> (files world_with_link))
          [] [].

Lemma smart_copy_leaves_a_copy_witness :
  let E := sample_env sample_projects no_fault (Some "/mirror") true in
  let run := _smart_copy E "/backups/projects/app/app_20261103_120000_full.tar.gz"
                         "/mirror/projects/app/app_20261103_120000_full.tar.gz" stale_mirror in
  run.1 = Returned true
  /\ files run.2 !! "/mirror/projects/app/app_20261103_120000_full.tar.gz"
     = files stale_mirror !! "/backups/projects/app/app_20261103_120000_full.tar.gz".
Proof.
  intros E run.
  assert (Hr : run = (Returned true, run.2)) by (vm_compute; reflexivity).
  split; [rewrite Hr; reflexivity|].
  exact (proj2 (proj2 (smart_copy_leaves_a_copy E _ _ stale_mirror true run.2 Hr))).
Defined.

(** *** What a sync leaves in the mirror *)

Definition holds_copy (E : env) (source destination : option node) : Prop :=
  destination = source \/ same_size_and_digest E source destination.

Lemma append_eq_prefix (a b x y : string) :
  a +:+ x = b +:+ y -> String.prefix a b = true \/ String.prefix b a = true.
Proof.
  revert b. induction a as [|c a IH]; intros [|d b]; simpl; auto.
  change (String c a +:+ x) with (String c (a +:+ x)).
  change (String d b +:+ y) with (String d (b +:+ y)).
  intros [= -> H]. destruct (IH b H) as [Hp|Hp]; [left|right];
    destruct (ascii_dec d d); congruence.
Qed.

Lemma append_nil_r (a : string) : a +:+ "" = a.
Proof.
  induction a as [|c a IH]; [reflexivity|].
  change (String c a +:+ "") with (String c (a +:+ "")). congruence.
Qed.

Lemma apart_join (a b x y : string) :
  String.prefix a b = false -> String.prefix b a = false -> a // x <> b // y.
Proof.
  intros Ha Hb H. apply append_eq_prefix in H as [H|H]; congruence.
Qed.

Lemma prefix_append (b z : string) : String.prefix b (b +:+ z) = true.
Proof.
  induction b as [|c b IH]; [destruct z; reflexivity|].
  change (String c b +:+ z) with (String c (b +:+ z)). cbn [String.prefix].
  destruct (ascii_dec c c); congruence.
Qed.

Lemma apart_dir (a b y : string) :
  String.prefix b a = false -> a <> b // y.
Proof.
  intros Hb ->. unfold path_join in Hb. rewrite prefix_append in Hb. discriminate.
Qed.

(** A sync that returns leaves in the mirror directory the backup, and the
    sidecar if the local directory has one: each is the local file itself
    or a file of the same size and digest.  Nothing of the local directory
    is changed.  The local directory and the mirror directory are apart:
    neither path begins with the other. *)
Theorem sync_mirrors_backup_and_sidecar (E : env) (local_dir subdirectory backup_name sp : string)
    (w w' : world) :
  secondary E = Some sp ->
  String.prefix (sp // subdirectory) local_dir = false ->
  String.prefix local_dir (sp // subdirectory) = false ->
  _sync_to_secondary E local_dir subdirectory backup_name w = (Returned tt, w') ->
  let sidecar := metadata_name_of backup_name in
  (forall n, files w' !! (local_dir // n) = files w !! (local_dir // n))
  /\ is_Some (files w !! (local_dir // backup_name))
  /\ holds_copy E (files w !! (local_dir // backup_name))
                  (files w' !! (sp // subdirectory // backup_name))
  /\ (is_Some (files w !! (local_dir // sidecar)) ->
      holds_copy E (files w !! (local_dir // sidecar))
                   (files w' !! (sp // subdirectory // sidecar))).
Proof.
  intros Hsec Ha Hb H sidecar. unfold _sync_to_secondary in H. rewrite Hsec in H.
  set (sync_dir := sp // subdirectory) in *.
  apply bind_inv in H as [([] & w0 & S & H)|(e & _ & ?)]; [|discriminate].
  assert (w0 = w) as ->.
  { unfold syscall in S. destruct (fault E AtSyncMkdir); [discriminate|]. now injection S. }
  clear S.
  apply bind_inv in H as [([] & w0 & S & H)|(e & _ & ?)]; [|discriminate].
  injection S as <-.
  set (w0 := mkWorld (<[sync_dir := Directory]> (files w)) (log w) (trace w)) in *.
  assert (Hlocal0 : forall n, files w0 !! (local_dir // n) = files w !! (local_dir // n)).
  { intros n. subst w0. cbn [files]. apply lookup_insert_ne.
    intros Heq. exact (apart_dir _ _ _ Hb Heq). }
  apply bind_inv in H as [(copied & w1 & C1 & H)|(e & _ & ?)]; [|discriminate].
  apply smart_copy_run in C1 as (Hs1 & Hfr1 & Hc1).
  assert (Hlocal1 : forall n, files w1 !! (local_dir // n) = files w !! (local_dir // n)).
  { intros n. rewrite Hfr1; [apply Hlocal0|].
    intros Heq. exact (apart_join _ _ _ _ Ha Hb (eq_sym Heq)). }
  assert (Hcopy1 : holds_copy E (files w !! (local_dir // backup_name))
                              (files w1 !! (sync_dir // backup_name))).
  { destruct copied.
    - left. rewrite Hc1. apply Hlocal0.
    - right. destruct Hc1 as [-> Hc1]. rewrite <- Hlocal0. exact Hc1. }
  apply bind_inv in H as [([] & w2 & L & H)|(e & _ & ?)]; [|discriminate].
  assert (Hf2 : files w2 = files w1).
  { destruct copied; simpl in L; unfold logger, ret in L; injection L as <-; reflexivity. }
  clear L.
  apply bind_inv in H as [(fs & w3 & G & H)|(e & _ & ?)]; [|discriminate].
  injection G as <- <-. fold sidecar in H.
  split; [|split; [rewrite <- Hlocal0; exact Hs1|]].
  - destruct (exists_path (files w2) (local_dir // sidecar)).
    + apply bind_inv in H as [(c2 & w3 & C2 & H)|(e & _ & ?)]; [|discriminate].
      injection H as <-. apply smart_copy_run in C2 as (_ & Hfr2 & _).
      intros n. rewrite Hfr2, Hf2; [apply Hlocal1|].
      intros Heq. exact (apart_join _ _ _ _ Ha Hb (eq_sym Heq)).
    + injection H as <-. intros n. rewrite Hf2. apply Hlocal1.
  - destruct (exists_path (files w2) (local_dir // sidecar)) eqn:Hex.
    + apply bind_inv in H as [(c2 & w3 & C2 & H)|(e & _ & ?)]; [|discriminate].
      injection H as <-. apply smart_copy_run in C2 as (Hs2 & Hfr2 & Hc2).
      rewrite Hf2 in Hs2, Hfr2, Hc2.
      assert (Hcopy2 : holds_copy E (files w !! (local_dir // sidecar))
                                  (files w3 !! (sync_dir // sidecar))).
      { destruct c2.
        - left. rewrite Hc2. apply Hlocal1.
        - right. destruct Hc2 as [-> Hc2]. rewrite <- Hlocal1. exact Hc2. }
      split; [|intros _; exact Hcopy2].
      destruct (decide (sidecar = backup_name)) as [Heq|Hne].
      * rewrite Heq in Hcopy2. exact Hcopy2.
      * rewrite Hfr2; [exact Hcopy1|].
        intros Heq. apply path_join_inj in Heq. congruence.
    + injection H as <-. rewrite Hf2. split; [exact Hcopy1|].
      intros Hsome. exfalso.
      unfold exists_path in Hex. apply bool_decide_eq_false in Hex. apply Hex.
      rewrite Hf2, Hlocal1. exact Hsome.
Qed.

Lemma sync_mirrors_backup_and_sidecar_witness :
  let E := sample_env sample_projects no_fault (Some "/mirror") true in
  let run := _sync_to_secondary E "/backups/projects/app" "projects/app"
                                "app_20261103_120000_full.tar.gz" world_with_link in
  run.1 = Returned tt
  /\ holds_copy E (files world_with_link
                     !! "/backups/projects/app/app_20261103_120000_full.tar.gz")
                  (files run.2 !! "/mirror/projects/app/app_20261103_120000_full.tar.gz")
  /\ holds_copy E (files world_with_link !! "/backups/projects/app/app_20261103_120000_full.json")
                  (files run.2 !! "/mirror/projects/app/app_20261103_120000_full.json").
Proof.
  intros E run.
  assert (Hr : run = (Returned tt, run.2)) by (vm_compute; reflexivity).
  destruct (sync_mirrors_backup_and_sidecar E "/backups/projects/app" "projects/app"
              "app_20261103_120000_full.tar.gz" "/mirror" world_with_link run.2
              eq_refl eq_refl eq_refl Hr) as (_ & _ & Hb & Hs).
  split; [rewrite Hr; reflexivity|]. split; [exact Hb|].
  apply Hs. vm_compute. eauto.
Defined.

End MirrorFacts.
(** ** What [tar.add] writes under the filter of [backup_project] *)

Module ArchiveFacts.
Import Engine EngineFacts.
Local Open Scope engine_scope.

Lemma tree_induction (P : tree -> Prop) :
  (forall info children, Forall P children -> P (Node info children)) ->
  forall t, P t.
Proof.
  intros step. fix IH 1. intros [info children]. apply step.
  induction children as [|c children IHc]; constructor; [apply IH | exact IHc].
Qed.

Section filter.
Variable exclude_regexes : list (string -> bool).
Variable incremental : bool.
Variable backup_type : string.
Variable file_snapshot : gmap string snap_entry.

(** The two exclusion tests at the head of [filter_func]. *)
Definition excluded (ti : TarInfo) : bool :=
  hidden_part (ti_name ti) || regex_excluded exclude_regexes (ti_name ti).

(** The test of the incremental branch that leaves a member out. *)
Definition skipped (ti : TarInfo) : bool :=
  (incremental && String.eqb backup_type "incremental") && negb (isdir ti)
  && match file_snapshot !! ti_name ti with
     | Some e => unchanged e ti
     | None => false
     end.

Definition record (ti : TarInfo) (m : gmap string snap_entry) : gmap string snap_entry :=
  <[ti_name ti := snap_of ti]> m.

(** What the walk does at a member that is not excluded. *)
Definition write (a : filter_state * list TarInfo) (ti : TarInfo)
    : filter_state * list TarInfo :=
  if skipped ti
  then (mkFilter (files_added a.1) (files_skipped a.1 + 1) (record ti (new_snapshot a.1)), a.2)
  else if isfile ti
  then (mkFilter (files_added a.1 + 1) (files_skipped a.1) (record ti (new_snapshot a.1)),
        a.2 ++ [ti])
  else (a.1, a.2 ++ [ti]).

(** The members the filter is asked about and does not exclude, in the
    order of the walk: an excluded directory is not entered. *)
Fixpoint visited (t : tree) : list TarInfo :=
  match t with
  | Node info children =>
      if excluded info then []
      else info :: (if isdir info then flat_map visited children else [])
  end.

Definition the_filter := filter_func exclude_regexes incremental backup_type file_snapshot.

Lemma filter_func_cases st ti :
  the_filter st ti
  = if excluded ti then (None, st)
    else if skipped ti
    then (None, mkFilter (files_added st) (files_skipped st + 1) (record ti (new_snapshot st)))
    else (Some ti,
          if isfile ti
          then mkFilter (files_added st + 1) (files_skipped st) (record ti (new_snapshot st))
          else st).
Proof.
  unfold the_filter, filter_func, excluded, skipped, record, isdir, isfile.
  destruct (hidden_part _); [reflexivity|].
  destruct (regex_excluded _ _); [reflexivity|]. cbn [orb].
  destruct (incremental && String.eqb backup_type "incremental"); cbn [andb].
  - destruct (ti_type ti); cbn [negb andb]; try reflexivity;
      destruct (file_snapshot !! ti_name ti) as [e|]; try reflexivity;
      destruct (unchanged e ti); reflexivity.
  - destruct (ti_type ti); reflexivity.
Qed.

Lemma skipped_not_dir ti : skipped ti = true -> isdir ti = false.
Proof.
  unfold skipped. destruct (isdir ti); [|reflexivity].
  rewrite andb_false_r. discriminate.
Qed.

Lemma isdir_not_file ti : isdir ti = true -> isfile ti = false.
Proof. unfold isdir, isfile. destruct (ti_type ti); congruence. Qed.

Lemma tar_add_children children :
  Forall (fun c => forall a, tar_add the_filter c a = fold_left write (visited c) a) children ->
  forall a, fold_left (fun a c => tar_add the_filter c a) children a
            = fold_left write (flat_map visited children) a.
Proof.
  induction 1 as [|c children Hc _ IH]; intros a; [reflexivity|].
  cbn [fold_left flat_map]. rewrite fold_left_app, Hc. apply IH.
Qed.

(** The walk is a fold of [write] over the visited members. *)
Lemma tar_add_visited t a :
  tar_add the_filter t a = fold_left write (visited t) a.
Proof.
  revert a. induction t as [info children IH] using tree_induction. intros [st acc].
  rewrite tar_add_node, filter_func_cases. cbn [visited fst snd].
  destruct (excluded info) eqn:He; [reflexivity|].
  destruct (skipped info) eqn:Hs.
  - rewrite (skipped_not_dir _ Hs). cbn [fold_left]. unfold write. rewrite Hs. reflexivity.
  - destruct (isdir info) eqn:Hd.
    + rewrite (isdir_not_file _ Hd). cbn [fold_left]. unfold write at 2.
      rewrite Hs, (isdir_not_file _ Hd). cbn [fst snd]. apply tar_add_children, IH.
    + cbn [fold_left]. unfold write. rewrite Hs. cbn [fst snd].
      destruct (isfile info); reflexivity.
Qed.

Lemma visited_nodes t ti :
  In ti (visited t) -> In ti (tree_nodes t) /\ excluded ti = false.
Proof.
  revert ti. induction t as [info children IH] using tree_induction. intros ti.
  cbn [visited tree_nodes]. destruct (excluded info) eqn:He; [intros []|].
  intros [<-|Hin]; [split; [left; reflexivity | exact He]|].
  destruct (isdir info); [|destruct Hin].
  apply in_flat_map in Hin as (c & Hc & Hin).
  rewrite Forall_forall in IH. destruct (IH c ltac:(apply list_elem_of_In; exact Hc) ti Hin).
  split; [|assumption]. right. apply in_flat_map. eauto.
Qed.

(** What a fold of [write] leaves: the members written, the two counters
    and the snapshot. *)
Lemma write_fold (l : list TarInfo) (a : filter_state * list TarInfo) :
  let r := fold_left write l a in
  r.2 = a.2 ++ List.filter (fun ti => negb (skipped ti)) l
  /\ files_added r.1
     = files_added a.1
       + Z.of_nat (length (List.filter (fun ti => negb (skipped ti) && isfile ti) l))
  /\ files_skipped r.1 = files_skipped a.1 + Z.of_nat (length (List.filter skipped l))
  /\ new_snapshot r.1
     = fold_left (fun m ti => record ti m)
                 (List.filter (fun ti => skipped ti || isfile ti) l) (new_snapshot a.1).
Proof.
  revert a. induction l as [|ti l IH]; intros a; cbn [fold_left List.filter].
  - cbn. rewrite app_nil_r. repeat split; lia.
  - destruct (IH (write a ti)) as (H1 & H2 & H3 & H4). cbv zeta.
    rewrite H1, H2, H3, H4. unfold write.
    destruct (skipped ti); cbn [negb andb orb fst snd files_added files_skipped new_snapshot
                                 fold_left length].
    + repeat split; lia.
    + destruct (isfile ti); cbn [fst snd files_added files_skipped new_snapshot fold_left length];
        rewrite <- ?app_assoc; repeat split; try reflexivity; lia.
Qed.

End filter.

Lemma filter_filter_and {A} (p q : A -> bool) (l : list A) :
  List.filter q (List.filter p l) = List.filter (fun x => p x && q x) l.
Proof.
  induction l as [|x l IH]; [reflexivity|]. cbn [List.filter].
  destruct (p x); cbn [List.filter andb]; [destruct (q x)|]; congruence.
Qed.

Lemma record_fold_keeps (l : list TarInfo) (m : gmap string snap_entry) (k : string) :
  is_Some (m !! k) -> is_Some (fold_left (fun m ti => record ti m) l m !! k).
Proof.
  revert m. induction l as [|a l IH]; intros m Hm; [exact Hm|].
  cbn [fold_left]. apply IH. unfold record.
  destruct (decide (ti_name a = k)) as [->|Hne].
  - rewrite lookup_insert_eq. eauto.
  - rewrite lookup_insert_ne by exact Hne. exact Hm.
Qed.

Lemma record_fold_member (l : list TarInfo) (m : gmap string snap_entry) (ti : TarInfo) :
  In ti l -> is_Some (fold_left (fun m ti => record ti m) l m !! ti_name ti).
Proof.
  revert m. induction l as [|a l IH]; intros m; [intros []|].
  intros [->|Hin]; cbn [fold_left]; [|apply IH, Hin].
  apply record_fold_keeps. unfold record. rewrite lookup_insert_eq. eauto.
Qed.

(** No member that the exclusion rules name gets into the archive: every
    member the walk writes is a member of the tree, as [gettarinfo] built
    it, with no component after the first starting with [_] or [.] and a
    name no exclusion pattern matches. *)
Theorem archive_leaves_out_excluded (exclude_regexes : list (string -> bool))
    (incremental : bool) (backup_type : string) (file_snapshot : gmap string snap_entry)
    (t : tree) (st : filter_state) (acc : list TarInfo) :
  let r := tar_add (filter_func exclude_regexes incremental backup_type file_snapshot)
                   t (st, acc) in
  exists written,
    r.2 = acc ++ written
    /\ Forall (fun ti => ti ∈ tree_nodes t
                         /\ hidden_part (ti_name ti) = false
                         /\ regex_excluded exclude_regexes (ti_name ti) = false) written.
Proof.
  intros r. subst r.
  change (filter_func exclude_regexes incremental backup_type file_snapshot)
    with (the_filter exclude_regexes incremental backup_type file_snapshot).
  rewrite tar_add_visited.
  destruct (write_fold incremental backup_type file_snapshot
              (visited exclude_regexes t) (st, acc)) as (H & _).
  cbv zeta in H. eexists. split; [exact H|].
  apply Forall_forall. intros ti Hin. apply list_elem_of_In, filter_In in Hin as [Hin _].
  apply visited_nodes in Hin as [Hn He]. unfold excluded in He.
  apply orb_false_iff in He as [Hh Hr]. split; [apply list_elem_of_In, Hn|]. auto.
Qed.

(** The counters and the snapshot of a walk agree with the archive: the
    files-added counter grows by the number of regular files written, and
    the snapshot has an entry for each of them and keeps the keys it had. *)
Theorem counters_agree_with_archive (exclude_regexes : list (string -> bool))
    (incremental : bool) (backup_type : string) (file_snapshot : gmap string snap_entry)
    (t : tree) (st : filter_state) (acc : list TarInfo) :
  let r := tar_add (filter_func exclude_regexes incremental backup_type file_snapshot)
                   t (st, acc) in
  exists written,
    r.2 = acc ++ written
    /\ files_added r.1 = files_added st + Z.of_nat (length (List.filter isfile written))
    /\ files_skipped st <= files_skipped r.1
    /\ (forall ti, ti ∈ written -> isfile ti = true ->
                   is_Some (new_snapshot r.1 !! ti_name ti))
    /\ (forall k, is_Some (new_snapshot st !! k) -> is_Some (new_snapshot r.1 !! k)).
Proof.
  intros r. subst r.
  change (filter_func exclude_regexes incremental backup_type file_snapshot)
    with (the_filter exclude_regexes incremental backup_type file_snapshot).
  rewrite tar_add_visited.
  destruct (write_fold incremental backup_type file_snapshot
              (visited exclude_regexes t) (st, acc)) as (H1 & H2 & H3 & H4).
  cbv zeta in H1, H2, H3, H4. cbn [fst snd] in H1, H2, H3, H4.
  eexists. split; [exact H1|]. rewrite filter_filter_and, H2, H3, H4.
  split; [reflexivity|]. split; [lia|]. split.
  - intros ti Hin Hf. apply record_fold_member, filter_In.
    apply list_elem_of_In, filter_In in Hin as [Hin _]. split; [exact Hin|].
    rewrite Hf. apply orb_true_r.
  - intros k. apply record_fold_keeps.
Qed.

(** *** Two incremental walks of the same tree *)

Lemma filter_sublist {A} (p : A -> bool) (l : list A) : List.filter p l `sublist_of` l.
Proof.
  induction l as [|x l IH]; [constructor|]. cbn [List.filter].
  destruct (p x); constructor; exact IH.
Qed.

Lemma flat_map_sublist {A B} (f g : A -> list B) (l : list A) :
  Forall (fun x => f x `sublist_of` g x) l -> flat_map f l `sublist_of` flat_map g l.
Proof.
  induction 1 as [|x l Hx _ IH]; [constructor|]. cbn [flat_map]. apply sublist_app; assumption.
Qed.

Lemma visited_sublist exclude_regexes t : visited exclude_regexes t `sublist_of` tree_nodes t.
Proof.
  induction t as [info children IH] using tree_induction. cbn [visited tree_nodes].
  destruct (excluded exclude_regexes info); [apply sublist_nil_l|].
  constructor. destruct (isdir info); [apply flat_map_sublist, IH | apply sublist_nil_l].
Qed.

Lemma record_fold_other (l : list TarInfo) (m : gmap string snap_entry) (k : string) :
  k ∉ ti_name <$> l -> fold_left (fun m ti => record ti m) l m !! k = m !! k.
Proof.
  revert m. induction l as [|a l IH]; intros m Hk; [reflexivity|].
  cbn [fold_left]. rewrite fmap_cons, not_elem_of_cons in Hk. destruct Hk as [Hne Hk].
  rewrite (IH _ Hk). unfold record. apply lookup_insert_ne. congruence.
Qed.

Lemma record_fold_exact (l : list TarInfo) (m : gmap string snap_entry) (ti : TarInfo) :
  NoDup (ti_name <$> l) -> ti ∈ l ->
  fold_left (fun m ti => record ti m) l m !! ti_name ti = Some (snap_of ti).
Proof.
  revert m. induction l as [|a l IH]; intros m Hnd Hin; [inversion Hin|].
  rewrite fmap_cons in Hnd. apply NoDup_cons in Hnd as [Ha Hnd]. cbn [fold_left].
  apply elem_of_cons in Hin as [->|Hin]; [|apply IH; assumption].
  rewrite (record_fold_other _ _ _ Ha). unfold record. apply lookup_insert_eq.
Qed.

Lemma names_identify (l : list TarInfo) (a b : TarInfo) :
  NoDup (ti_name <$> l) -> a ∈ l -> b ∈ l -> ti_name a = ti_name b -> a = b.
Proof.
  induction l as [|x l IH]; intros Hnd Ha Hb Heq; [inversion Ha|].
  rewrite fmap_cons in Hnd. apply NoDup_cons in Hnd as [Hx Hnd].
  apply elem_of_cons in Ha as [->|Ha]; apply elem_of_cons in Hb as [->|Hb]; auto.
  - exfalso. apply Hx. rewrite Heq. apply list_elem_of_fmap. eauto.
  - exfalso. apply Hx. rewrite <- Heq. apply list_elem_of_fmap. eauto.
Qed.

Lemma unchanged_snap_of ti : unchanged (snap_of ti) ti = true.
Proof.
  unfold unchanged, snap_of. cbn. rewrite Z.leb_refl, Z.eqb_refl. reflexivity.
Qed.

Lemma isfile_not_dir ti : isfile ti = true -> isdir ti = false.
Proof. unfold isdir, isfile. destruct (ti_type ti); congruence. Qed.

Section two_walks.
Variable exclude_regexes : list (string -> bool).
Variable file_snapshot : gmap string snap_entry.
Variable t : tree.
Hypothesis names_once : NoDup (ti_name <$> tree_nodes t).

Let V := visited exclude_regexes t.
Let recorded ti := skipped true "incremental" file_snapshot ti || isfile ti.
Let first_snapshot :=
  fold_left (fun m ti => record ti m) (List.filter recorded V) (∅ : gmap string snap_entry).

Lemma visited_names_once : NoDup (ti_name <$> V).
Proof.
  eapply sublist_NoDup; [exact names_once|]. apply fmap_sublist, visited_sublist.
Qed.

Lemma skipped_second ti :
  ti ∈ V -> skipped true "incremental" first_snapshot ti = recorded ti.
Proof.
  intros Hin. pose proof visited_names_once as Hnd.
  destruct (recorded ti) eqn:Hrec.
  - assert (Hin' : ti ∈ List.filter recorded V).
    { apply list_elem_of_In, filter_In. split; [apply list_elem_of_In, Hin | exact Hrec]. }
    assert (Hnd' : NoDup (ti_name <$> List.filter recorded V)).
    { eapply sublist_NoDup; [exact Hnd|]. apply fmap_sublist, filter_sublist. }
    unfold skipped, first_snapshot. rewrite (record_fold_exact _ _ _ Hnd' Hin').
    rewrite unchanged_snap_of. cbn [andb String.eqb].
    assert (isdir ti = false) as ->; [|reflexivity].
    unfold recorded in Hrec. apply orb_true_iff in Hrec as [H|H];
      [eapply skipped_not_dir, H | apply isfile_not_dir, H].
  - assert (Hout : ti_name ti ∉ ti_name <$> List.filter recorded V).
    { intros Hn. apply list_elem_of_fmap in Hn as (tj & Heq & Hj).
      apply list_elem_of_In, filter_In in Hj as [Hj Hrj]. apply list_elem_of_In in Hj.
      rewrite (names_identify V ti tj Hnd Hin Hj Heq) in Hrec. congruence. }
    unfold skipped, first_snapshot. rewrite (record_fold_other _ _ _ Hout), lookup_empty.
    apply andb_false_r.
Qed.

End two_walks.

(** An incremental walk that uses the snapshot a previous incremental walk
    of the same tree built reaches a fixed point: it adds no file, writes
    no regular file into the archive and builds the same snapshot again.
    Every member of the tree has a name of its own. *)
Theorem unchanged_tree_adds_no_file (exclude_regexes : list (string -> bool))
    (file_snapshot : gmap string snap_entry) (t : tree) :
  NoDup (ti_name <$> tree_nodes t) ->
  let first := tar_add (filter_func exclude_regexes true "incremental" file_snapshot)
                       t (mkFilter 0 0 ∅, []) in
  let second := tar_add (filter_func exclude_regexes true "incremental" (new_snapshot first.1))
                        t (mkFilter 0 0 ∅, []) in
  files_added second.1 = 0
  /\ Forall (fun ti => isfile ti = false) second.2
  /\ new_snapshot second.1 = new_snapshot first.1.
Proof.
  intros names_once first second.
  set (V := visited exclude_regexes t).
  set (recorded := fun ti => skipped true "incremental" file_snapshot ti || isfile ti).
  set (first_snapshot :=
         fold_left (fun m ti => record ti m) (List.filter recorded V)
                   (∅ : gmap string snap_entry)).
  pose proof (skipped_second exclude_regexes file_snapshot t names_once) as skipped_second.
  change (forall ti, ti ∈ V -> skipped true "incremental" first_snapshot ti = recorded ti)
    in skipped_second.
  assert (Hfirst : new_snapshot first.1 = first_snapshot).
  { subst first.
    change (filter_func exclude_regexes true "incremental" file_snapshot)
      with (the_filter exclude_regexes true "incremental" file_snapshot).
    rewrite tar_add_visited.
    destruct (write_fold true "incremental" file_snapshot V (mkFilter 0 0 ∅, []))
      as (_ & _ & _ & H).
    exact H. }
  subst second. rewrite Hfirst.
  change (filter_func exclude_regexes true "incremental" first_snapshot)
    with (the_filter exclude_regexes true "incremental" first_snapshot).
  rewrite tar_add_visited.
  destruct (write_fold true "incremental" first_snapshot V (mkFilter 0 0 ∅, []))
    as (H1 & H2 & _ & H4).
  cbv zeta in H1, H2, H4. cbn [fst snd files_added new_snapshot app] in H1, H2, H4.
  fold V. rewrite H1, H2, H4. split; [|split].
  - rewrite (filter_ext_in _ (fun _ => false)); [|].
    + clear. induction V; [reflexivity | assumption].
    + intros ti Hin. apply list_elem_of_In in Hin. cbv beta.
      rewrite (skipped_second ti Hin). unfold recorded. destruct (skipped _ _ _ ti), (isfile ti); reflexivity.
  - apply Forall_forall. intros ti Hin.
    apply list_elem_of_In, filter_In in Hin as [Hin Hs]. apply list_elem_of_In in Hin.
    rewrite (skipped_second ti Hin) in Hs. unfold recorded in Hs.
    destruct (isfile ti); [|reflexivity]. rewrite orb_true_r in Hs. discriminate.
  - transitivity (fold_left (fun m ti => record ti m) (List.filter recorded V)
                           (∅ : gmap string snap_entry)); [|reflexivity].
    f_equal. apply filter_ext_in.
    intros ti Hin. apply list_elem_of_In in Hin. cbv beta.
    rewrite (skipped_second ti Hin). unfold recorded. destruct (skipped _ _ _ ti), (isfile ti); reflexivity.
Qed.


Lemma unchanged_tree_adds_no_file_witness :
  let first := tar_add (filter_func [] true "incremental" ∅) app_tree (mkFilter 0 0 ∅, []) in
  let second := tar_add (filter_func [] true "incremental" (new_snapshot first.1))
                        app_tree (mkFilter 0 0 ∅, []) in
  NoDup (ti_name <$> tree_nodes app_tree)
  /\ files_added first.1 = 2
  /\ files_added second.1 = 0
  /\ second.2 = [dir "app"; dir "app/src"]
  /\ new_snapshot second.1 = new_snapshot first.1.
Proof.
  intros first second.
  assert (Hnd : NoDup (ti_name <$> tree_nodes app_tree))
    by (refine (bool_decide_unpack _ _); vm_compute; exact I).
  destruct (unchanged_tree_adds_no_file [] ∅ app_tree Hnd) as (H1 & _ & H3).
  split; [exact Hnd|]. split; [vm_compute; reflexivity|]. split; [exact H1|].
  split; [vm_compute; reflexivity | exact H3].
Defined.

End ArchiveFacts.

(** ** [tag_backup] *)

Module Tagging.
Import Engine.
Local Open Scope engine_scope.

(** What [tag_backup] takes from the platform: [datetime.fromtimestamp(t)
    .isoformat()], [st_mtime] and [st_size] of an entry that is no regular
    file, and the text of a list of strings inside an f-string. *)
Record platform := mkPlatform
  { isoformat : Z -> string;
    stat_other : node -> Z * Z;
    repr_list : list string -> string }.

(** [backup_path.stat()]: [st_mtime] and [st_size]. *)
Definition file_stats (E : env) (P : platform) (n : node) : Z * Z :=
  match n with
  | File c _ mtime => (mtime, size_of E c)
  | _ => stat_other P n
  end.

Fixpoint insert_sorted (s : string) (l : list string) : list string :=
  match l with
  | [] => [s]
  | x :: rest => if String.leb s x then s :: l else x :: insert_sorted s rest
  end.

(** [sorted(existing_tags)] on the set of the old and the new tags. *)
Definition sorted_tags (existing tags : list string) : list string :=
  foldr insert_sorted [] (remove_dups (existing ++ tags)).

Definition set_tags (tags : list string) (m : sidecar) : sidecar :=
  mkSidecar (sc_backup_name m) (sc_item_name m) (sc_item_type m) (sc_description m)
            (sc_timestamp m) (sc_size_bytes m) (sc_checksum_sha256 m) tags
            (sc_importance m) (sc_keep_forever m) (sc_pinned m) (sc_backup_type m)
            (sc_incremental m) (sc_files_added m) (sc_files_skipped m) (sc_base_backup m).

Definition set_importance (importance : string) (m : sidecar) : sidecar :=
  mkSidecar (sc_backup_name m) (sc_item_name m) (sc_item_type m) (sc_description m)
            (sc_timestamp m) (sc_size_bytes m) (sc_checksum_sha256 m) (sc_tags m)
            (Some importance) (sc_keep_forever m) (sc_pinned m) (sc_backup_type m)
            (sc_incremental m) (sc_files_added m) (sc_files_skipped m) (sc_base_backup m).

Definition set_keep_forever (keep_forever : bool) (m : sidecar) : sidecar :=
  mkSidecar (sc_backup_name m) (sc_item_name m) (sc_item_type m) (sc_description m)
            (sc_timestamp m) (sc_size_bytes m) (sc_checksum_sha256 m) (sc_tags m)
            (sc_importance m) keep_forever keep_forever (sc_backup_type m)
            (sc_incremental m) (sc_files_added m) (sc_files_skipped m) (sc_base_backup m).

Definition set_description (description : string) (m : sidecar) : sidecar :=
  mkSidecar (sc_backup_name m) (sc_item_name m) (sc_item_type m) (Some description)
            (sc_timestamp m) (sc_size_bytes m) (sc_checksum_sha256 m) (sc_tags m)
            (sc_importance m) (sc_keep_forever m) (sc_pinned m) (sc_backup_type m)
            (sc_incremental m) (sc_files_added m) (sc_files_skipped m) (sc_base_backup m).

Definition importance_levels : list string := ["critical"; "high"; "normal"; "low"].

(** The sidecar [tag_backup] starts from: the one on disk, or a basic one
    when the backup has none; [inr] is the message of a sidecar that cannot
    be read.  The keys [size_mb], [created_by] and [version] are not part
    of the record. *)
Definition load_or_create (E : env) (P : platform) (fs : gmap string node)
    (item_type item_name backup_file backup_path metadata_path : string) : sidecar + string :=
  if exists_path fs metadata_path then
    match fs !! metadata_path with
    | Some (File (Metadata metadata) _ _) => inl metadata
    | _ => inr "Failed to read metadata: not valid JSON"
    end
  else
    let file_stats := file_stats E P (default Directory (fs !! backup_path)) in
    inl (mkSidecar backup_file item_name item_type None (isoformat P file_stats.1)
                   file_stats.2 None [] None false false None None None None None).

(** The four updates, in the order of the code; [inr] is the early return
    on an importance level that is not one of the four. *)
Definition update_metadata (tags : option (list string)) (importance : option string)
    (keep_forever : option bool) (description : option string) (metadata : sidecar)
    : sidecar + string :=
  let metadata1 :=
    match tags with
    | Some tags => set_tags (sorted_tags (sc_tags metadata) tags) metadata
    | None => metadata
    end in
  match
    match importance with
    | Some importance =>
        if bool_decide (importance ∈ importance_levels)
        then inl (set_importance importance metadata1)
        else inr ("Invalid importance level: " +:+ importance)
    | None => inl metadata1
    end
  with
  | inr msg => inr msg
  | inl metadata2 =>
      let metadata3 :=
        match keep_forever with
        | Some keep_forever => set_keep_forever keep_forever metadata2
        | None => metadata2
        end in
      inl match description with
          | Some description => set_description description metadata3
          | None => metadata3
          end
  end.

(** The parts of the success message; a value counts when it is truthy. *)
Definition tag_summary (P : platform) (tags : option (list string)) (importance : option string)
    (keep_forever : option bool) (description : option string) (metadata : sidecar)
    : list string :=
  (match tags with
   | Some (_ :: _) => ["tags=" +:+ repr_list P (sc_tags metadata)]
   | _ => []
   end)
  ++ (match importance with
      | Some importance =>
          if String.eqb importance "" then [] else ["importance=" +:+ importance]
      | None => []
      end)
  ++ (match keep_forever with Some true => ["pinned"] | _ => [] end)
  ++ (match description with
      | Some description => if String.eqb description "" then [] else ["description updated"]
      | None => []
      end).

(** [tag_backup].  The keys [last_modified] and [last_modified_by] are not
    part of the record; a sidecar that exists keeps its mode when it is
    written again. *)
Definition tag_backup (E : env) (P : platform) (item_type item_name backup_file : string)
    (tags : option (list string)) (importance : option string)
    (keep_forever : option bool) (description : option string) : M result :=
  match item_dir E item_type item_name with
  | None => ret (false, "Invalid item type: " +:+ item_type)
  | Some backup_dir =>
      let backup_path := backup_dir // backup_file in
      do fs <- get_files;
      if negb (exists_path fs backup_path)
      then ret (false, "Backup file not found: " +:+ backup_file)
      else
        (* Load or create metadata *)
        let metadata_name := _backup_name_to_meta_name backup_file in
        let metadata_path := backup_dir // metadata_name in
        match load_or_create E P fs item_type item_name backup_file backup_path metadata_path with
        | inr msg => ret (false, msg)
        | inl metadata =>
            (* Update metadata with new values *)
            match update_metadata tags importance keep_forever description metadata with
            | inr msg => ret (false, msg)
            | inl metadata =>
                (* Save updated metadata *)
                let mode := match fs !! metadata_path with
                            | Some (File _ mode _) => mode
                            | _ => 420
                            end in
                try_except
                  (syscall (fault E) AtWriteMetadata "write metadata" ;;
                   modify_files (insert metadata_path
                                        (File (Metadata metadata) mode (clock_epoch E))) ;;
                   let summary :=
                     String.concat ", " (tag_summary P tags importance keep_forever
                                                     description metadata) in
                   logger INFO ("Tagged " +:+ backup_file +:+ ": " +:+ summary) ;;
                   ret (true, "Successfully tagged " +:+ backup_file +:+ ": " +:+ summary))
                  (fun e =>
                     logger ERROR ("Failed to save metadata for " +:+ backup_file
                                   +:+ ": " +:+ exn_msg e) ;;
                     ret (false, "Failed to tag backup: " +:+ exn_msg e))
            end
        end
  end.

End Tagging.

Module TaggingFacts.
Import Engine EngineFacts CleanupFacts Tagging.
Local Open Scope engine_scope.

(** *** The updated sidecar *)

Lemma update_keeps_checksum tags importance keep_forever description m m' :
  update_metadata tags importance keep_forever description m = inl m' ->
  sc_checksum_sha256 m' = sc_checksum_sha256 m.
Proof.
  unfold update_metadata.
  destruct tags, importance as [i|], keep_forever, description;
    try destruct (bool_decide (i ∈ importance_levels)); intros [= <-]; reflexivity.
Qed.

Lemma update_sets_tags tags importance keep_forever description m m' :
  update_metadata (Some tags) importance keep_forever description m = inl m' ->
  sc_tags m' = sorted_tags (sc_tags m) tags.
Proof.
  unfold update_metadata.
  destruct importance as [i|], keep_forever, description;
    try destruct (bool_decide (i ∈ importance_levels)); intros [= <-]; reflexivity.
Qed.

Lemma update_pins tags importance description m m' :
  update_metadata tags importance (Some true) description m = inl m' ->
  sc_keep_forever m' = true.
Proof.
  unfold update_metadata.
  destruct tags, importance as [i|], description;
    try destruct (bool_decide (i ∈ importance_levels)); intros [= <-]; reflexivity.
Qed.

(** A call that reports success has written the updated sidecar, and
    nothing else. *)
Lemma tag_backup_success E P item_type item_name backup_file tags importance keep_forever
    description w msg w' :
  tag_backup E P item_type item_name backup_file tags importance keep_forever description w
  = (Returned (true, msg), w') ->
  exists dir m0 m' mode,
    item_dir E item_type item_name = Some dir
    /\ is_Some (files w !! (dir // backup_file))
    /\ load_or_create E P (files w) item_type item_name backup_file (dir // backup_file)
                      (dir // _backup_name_to_meta_name backup_file) = inl m0
    /\ update_metadata tags importance keep_forever description m0 = inl m'
    /\ mode = match files w !! (dir // _backup_name_to_meta_name backup_file) with
              | Some (File _ mode _) => mode
              | _ => 420
              end
    /\ files w' = <[dir // _backup_name_to_meta_name backup_file
                      := File (Metadata m') mode (clock_epoch E)]> (files w).
Proof.
  unfold tag_backup. destruct (item_dir E item_type item_name) as [dir|]; [|discriminate].
  unfold bind at 1. unfold get_files at 1. cbv beta iota.
  destruct (exists_path (files w) (dir // backup_file)) eqn:Hex; [|discriminate].
  cbn [negb]. cbv beta iota.
  destruct (load_or_create _ _ _ _ _ _ _ _) as [m0|] eqn:Hl; [|discriminate].
  destruct (update_metadata _ _ _ _ m0) as [m'|] eqn:Hu; [|discriminate].
  unfold try_except, bind, syscall, modify_files, logger, ret, raise.
  destruct (fault E AtWriteMetadata); [discriminate|]. cbn [files].
  intros [= _ <-]. cbn [files].
  exists dir, m0, m'. eexists. split; [reflexivity|]. split.
  - unfold exists_path in Hex. apply bool_decide_eq_true in Hex. exact Hex.
  - split; [exact Hl|]. split; [exact Hu|]. split; reflexivity.
Qed.

Lemma load_existing E P fs item_type item_name backup_file backup_path metadata_path m mode t :
  fs !! metadata_path = Some (File (Metadata m) mode t) ->
  load_or_create E P fs item_type item_name backup_file backup_path metadata_path = inl m.
Proof.
  intros H. unfold load_or_create, exists_path. rewrite H.
  rewrite bool_decide_eq_true_2 by eauto. reflexivity.
Qed.

(** *** The tags *)

Definition in_order (a b : string) : Prop := String.leb a b = true.

Lemma insert_sorted_perm s l : insert_sorted s l ≡ₚ s :: l.
Proof.
  induction l as [|x l IH]; [reflexivity|]. cbn [insert_sorted].
  destruct (String.leb s x); [reflexivity|]. rewrite IH. apply Permutation_swap.
Qed.

Lemma foldr_insert_sorted_perm l : foldr insert_sorted [] l ≡ₚ l.
Proof.
  induction l as [|x l IH]; [reflexivity|]. cbn [foldr].
  rewrite insert_sorted_perm, IH. reflexivity.
Qed.

Lemma insert_sorted_sorted s l : Sorted in_order l -> Sorted in_order (insert_sorted s l).
Proof.
  induction 1 as [|x l Hs IH Hh]; [repeat constructor|]. cbn [insert_sorted].
  destruct (String.leb s x) eqn:Hle.
  - constructor; [constructor; assumption | constructor; exact Hle].
  - constructor; [exact IH|].
    assert (Hxs : in_order x s).
    { destruct (String.leb_total s x) as [H|H]; [congruence | exact H]. }
    destruct l as [|y l]; cbn [insert_sorted]; [constructor; exact Hxs|].
    destruct (String.leb s y); constructor; [exact Hxs|].
    inversion Hh; assumption.
Qed.

Lemma sorted_tags_spec existing tags :
  (forall x, x ∈ sorted_tags existing tags <-> x ∈ existing \/ x ∈ tags)
  /\ NoDup (sorted_tags existing tags)
  /\ Sorted in_order (sorted_tags existing tags).
Proof.
  unfold sorted_tags. split; [|split].
  - intros x. rewrite foldr_insert_sorted_perm, elem_of_remove_dups. apply elem_of_app.
  - rewrite foldr_insert_sorted_perm. apply NoDup_remove_dups.
  - induction (remove_dups (existing ++ tags)) as [|x l IH]; [constructor|].
    cbn [foldr]. apply insert_sorted_sorted, IH.
Qed.

(** Tags accumulate: after a call with tags that reports success, the
    sidecar lists the tags it had and the tags given, each once, in sorted
    order; its checksum entry is the one it had.  The backup has one of
    the three extensions of the engine's backups. *)
Theorem tagging_accumulates_tags (E : env) (P : platform)
    (item_type item_name backup_file suffix : string) (tags : list string)
    (importance : option string) (keep_forever : option bool) (description : option string)
    (w : world) (msg : string) (w' : world) (dir : string) (m : sidecar) (mode t : Z) :
  backup_suffix suffix -> endswith backup_file suffix = true ->
  item_dir E item_type item_name = Some dir ->
  files w !! (dir // _backup_name_to_meta_name backup_file) = Some (File (Metadata m) mode t) ->
  tag_backup E P item_type item_name backup_file (Some tags) importance keep_forever
             description w = (Returned (true, msg), w') ->
  exists m',
    files w' !! (dir // _backup_name_to_meta_name backup_file)
    = Some (File (Metadata m') mode (clock_epoch E))
    /\ (forall x, x ∈ sc_tags m' <-> x ∈ sc_tags m \/ x ∈ tags)
    /\ NoDup (sc_tags m')
    /\ Sorted in_order (sc_tags m')
    /\ sc_checksum_sha256 m' = sc_checksum_sha256 m.
Proof.
  intros _ _ Hd Hm H.
  apply tag_backup_success in H as (dir' & m0 & m' & mode' & Hd' & _ & Hl & Hu & Hmode & Hf).
  rewrite Hd in Hd'. injection Hd' as <-.
  rewrite (load_existing _ _ _ _ _ _ _ _ _ _ _ Hm) in Hl. injection Hl as <-.
  rewrite Hm in Hmode. subst mode'.
  exists m'. split; [rewrite Hf; apply lookup_insert_eq|].
  rewrite (update_sets_tags _ _ _ _ _ _ Hu).
  destruct (sorted_tags_spec (sc_tags m) tags) as (H1 & H2 & H3).
  repeat split; try assumption; try apply H1.
  eapply update_keeps_checksum, Hu.
Qed.

Definition sample_platform : platform :=
  mkPlatform (fun _ => "2026-11-03T12:00:00") (fun _ => (0, 0))
             (fun l => "[" +:+ String.concat ", " l +:+ "]").

Lemma tagging_accumulates_tags_witness :
  let E := sample_env sample_projects no_fault None true in
  let run := tag_backup E sample_platform "project" "app" "app_20261103_120000_full.tar.gz"
                        (Some ["stable"; "production"; "stable"]) None None None
                        world_with_link in
  run.1 = Returned (true, "Successfully tagged app_20261103_120000_full.tar.gz: "
                          +:+ "tags=[production, stable]")
  /\ exists m',
       files run.2 !! "/backups/projects/app/app_20261103_120000_full.json"
       = Some (File (Metadata m') 420 1000000)
       /\ (forall x, x ∈ sc_tags m' <-> x ∈ [] \/ x ∈ ["stable"; "production"; "stable"])
       /\ NoDup (sc_tags m')
       /\ Sorted in_order (sc_tags m')
       /\ sc_checksum_sha256 m' = Some "sha-archive".
Proof.
  intros E run.
  assert (Hr : run = (Returned (true, "Successfully tagged app_20261103_120000_full.tar.gz: "
                                      +:+ "tags=[production, stable]"), run.2))
    by (vm_compute; reflexivity).
  split; [rewrite Hr; reflexivity|].
  exact (tagging_accumulates_tags E sample_platform "project" "app"
           "app_20261103_120000_full.tar.gz" ".tar.gz" ["stable"; "production"; "stable"]
           None None None world_with_link _ run.2 "/backups/projects/app" linked_sidecar
           420 900000 (or_introl eq_refl) eq_refl eq_refl eq_refl Hr).
Defined.


(** *** Tagging and the cleanup *)

Lemma cleanup_keeps_held_back E patterns directory retention_days w r w' n suffix m mode t :
  (forall s, s ∈ patterns -> backup_suffix s) ->
  backup_suffix suffix -> endswith n suffix = true ->
  files w !! (directory // _backup_name_to_meta_name n) = Some (File (Metadata m) mode t) ->
  should_preserve E m = true ->
  _cleanup_old_backups E patterns directory retention_days w = (r, w') ->
  files w' !! (directory // n) = files w !! (directory // n)
  /\ files w' !! (directory // _backup_name_to_meta_name n) = Some (File (Metadata m) mode t).
Proof.
  intros Hpat Hsuf He Hside Hkeep.
  set (S := directory // _backup_name_to_meta_name n) in *.
  apply (cleanup_invariant E patterns directory retention_days
           (fun w1 => files w1 !! (directory // n) = files w !! (directory // n)
                      /\ files w1 !! S = Some (File (Metadata m) mode t))).
  - intros w1 w2 Hf. rewrite Hf. auto.
  - intros suffix' [q' nd] w1 r1 w2 Hs' Hpn [I1 I2] Hrun.
    apply glob_elem in Hpn as (_ & n' & Hn' & He'). simpl in Hn'.
    apply cleanup_one_run in Hrun as [Hrun|(c & md & mt & _ & _ & Hrun & Hnp)].
    + rewrite Hrun. auto.
    + simpl in Hrun, Hnp. rewrite Hn' in Hrun, Hnp. simpl in Hrun, Hnp.
      assert (Hmp : directory // _backup_name_to_meta_name n' <> S).
      { intros Heq. rewrite Heq in Hnp. specialize (Hnp m mode t I2). congruence. }
      assert (Hq'S : q' <> S).
      { rewrite (entry_name_join _ _ _ Hn'). unfold S.
        apply sidecar_is_no_backup with suffix'; [apply Hpat, Hs' | exact He']. }
      assert (Hq'q : q' <> directory // n).
      { rewrite (entry_name_join _ _ _ Hn'). intros Heq. apply path_join_inj in Heq.
        subst n'. apply Hmp. reflexivity. }
      assert (Hmpq : directory // _backup_name_to_meta_name n' <> directory // n).
      { intros Heq. symmetry in Heq. revert Heq.
        apply sidecar_is_no_backup with suffix; assumption. }
      rewrite Hrun. rewrite !lookup_delete_ne by congruence. auto.
  - auto.
Qed.

(** A backup tagged [keep_forever] outlives the cleanup: after a call of
    [tag_backup] with [keep_forever=True] that reports success, a cleanup of
    the item's directory, with any retention period, leaves the backup as it
    was and its sidecar in place. *)
Theorem pinned_backup_outlives_cleanup (E : env) (P : platform)
    (item_type item_name backup_file suffix : string) (tags : option (list string))
    (importance : option string) (description : option string)
    (w : world) (msg : string) (w1 : world) (dir : string)
    (patterns : list string) (retention_days : Z) (r : outcome unit) (w2 : world) :
  backup_suffix suffix -> endswith backup_file suffix = true ->
  (forall s, s ∈ patterns -> backup_suffix s) ->
  item_dir E item_type item_name = Some dir ->
  tag_backup E P item_type item_name backup_file tags importance (Some true) description w
  = (Returned (true, msg), w1) ->
  _cleanup_old_backups E patterns dir retention_days w1 = (r, w2) ->
  is_Some (files w !! (dir // backup_file))
  /\ files w2 !! (dir // backup_file) = files w !! (dir // backup_file)
  /\ exists m' mode,
       files w2 !! (dir // _backup_name_to_meta_name backup_file)
       = Some (File (Metadata m') mode (clock_epoch E))
       /\ sc_keep_forever m' = true.
Proof.
  intros Hs He Hpat Hd Htag Hclean.
  apply tag_backup_success in Htag
    as (dir' & m0 & m' & mode & Hd' & Hsome & _ & Hu & _ & Hf).
  rewrite Hd in Hd'. injection Hd' as <-.
  pose proof (update_pins _ _ _ _ _ Hu) as Hpin.
  assert (Hside : files w1 !! (dir // _backup_name_to_meta_name backup_file)
                  = Some (File (Metadata m') mode (clock_epoch E)))
    by (rewrite Hf; apply lookup_insert_eq).
  assert (Hsame : files w1 !! (dir // backup_file) = files w !! (dir // backup_file)).
  { rewrite Hf. apply lookup_insert_ne. intros Heq. symmetry in Heq. revert Heq.
    apply sidecar_is_no_backup with suffix; assumption. }
  assert (Hkeep : should_preserve E m' = true)
    by (unfold should_preserve; rewrite Hpin; reflexivity).
  destruct (cleanup_keeps_held_back E patterns dir retention_days w1 r w2 backup_file suffix
              m' mode (clock_epoch E) Hpat Hs He Hside Hkeep Hclean) as [H1 H2].
  split; [exact Hsome|]. split; [rewrite H1; exact Hsame|]. eauto.
Qed.

Lemma pinned_backup_outlives_cleanup_witness :
  let E := sample_env sample_projects no_fault None true in
  let tagged := tag_backup E sample_platform "project" "app" "app_20260101_000000_full.tar.gz"
                           None (Some "critical") (Some true) None aged_world in
  let cleaned := _cleanup_old_backups E default_patterns "/backups/projects/app" 7 tagged.2 in
  files aged_cleanup.2 !! "/backups/projects/app/app_20260101_000000_full.tar.gz" = None
  /\ files cleaned.2 !! "/backups/projects/app/app_20260101_000000_full.tar.gz"
     = Some (File (Archive []) 384 1000).
Proof.
  intros E tagged cleaned.
  assert (Ht : tagged = (Returned (true, "Successfully tagged app_20260101_000000_full.tar.gz: "
                                         +:+ "importance=critical, pinned"), tagged.2))
    by (vm_compute; reflexivity).
  assert (Hpat : forall s, s ∈ default_patterns -> backup_suffix s).
  { intros s Hs. unfold default_patterns in Hs.
    apply elem_of_cons in Hs as [->|Hs]; [left; reflexivity|].
    apply list_elem_of_singleton in Hs as ->. right. left. reflexivity. }
  destruct (pinned_backup_outlives_cleanup E sample_platform "project" "app"
              "app_20260101_000000_full.tar.gz" ".tar.gz" None (Some "critical") None
              aged_world _ tagged.2 "/backups/projects/app" default_patterns 7
              cleaned.1 cleaned.2 (or_introl eq_refl) eq_refl Hpat eq_refl Ht
              (surjective_pairing _)) as (_ & H & _).
  split; [vm_compute; reflexivity|]. exact H.
Defined.


(** *** Tagging and verification *)

Lemma verify_true_inv E item_type item_name backup_file w why wv :
  verify_backup E item_type item_name backup_file w = (Returned (true, why), wv) ->
  exists dir c m mode t,
    item_dir E item_type item_name = Some dir
    /\ file_content (files w) (dir // backup_file) = Some c
    /\ files w !! (dir // _backup_name_to_meta_name backup_file)
       = Some (File (Metadata m) mode t)
    /\ sc_checksum_sha256 m = Some (sha256 E c)
    /\ sha256 E c <> ""
    /\ fault E AtChecksum = false.
Proof.
  intros H.
  cbv [verify_backup _calculate_file_checksum bind try_except get_files syscall
       logger emit modify_files ret raise] in H.
  destruct (item_dir E item_type item_name) as [dir|] eqn:Hd; [|discriminate H].
  run_cases H; simpl in H; try discriminate H.
  subst.
  match goal with
  | Hs : (sha256 E ?c0 =? ?s)%string = true,
    Hn : (?s =? "")%string = false,
    Hc : file_content _ (dir // backup_file) = Some ?c0,
    Hm : files w !! (dir // _backup_name_to_meta_name backup_file) = Some (File (Metadata ?m) ?md ?t),
    Hk : sc_checksum_sha256 ?m = Some ?s,
    Hfl : fault E AtChecksum = false |- _ =>
      apply String.eqb_eq in Hs; subst s; exists dir, c0, m, md, t;
      apply String.eqb_neq in Hn; auto 10
  end.
Qed.

(** Tagging does not break verification: a backup that verifies still
    verifies after a call of [tag_backup] on it that reports success. *)
Theorem tagging_keeps_backup_verifiable (E : env) (P : platform)
    (item_type item_name backup_file suffix : string) (tags : option (list string))
    (importance : option string) (keep_forever : option bool) (description : option string)
    (w : world) (why : string) (wv : world) (msg : string) (w1 : world) :
  backup_suffix suffix -> endswith backup_file suffix = true ->
  verify_backup E item_type item_name backup_file w = (Returned (true, why), wv) ->
  tag_backup E P item_type item_name backup_file tags importance keep_forever description w
  = (Returned (true, msg), w1) ->
  exists w2,
    verify_backup E item_type item_name backup_file w1
    = (Returned (true, "Backup verified successfully (checksum matches)"), w2).
Proof.
  intros Hs He Hv Htag.
  apply verify_true_inv in Hv as (dir & c & m & mode & t & Hd & Hc & Hm & Hk & Hne & Hfl).
  apply tag_backup_success in Htag
    as (dir' & m0 & m' & mode' & Hd' & _ & Hl & Hu & _ & Hf).
  rewrite Hd in Hd'. injection Hd' as <-.
  rewrite (load_existing _ _ _ _ _ _ _ _ _ _ _ Hm) in Hl. injection Hl as <-.
  pose proof (update_keeps_checksum _ _ _ _ _ _ Hu) as Hsum. rewrite Hk in Hsum.
  set (S := dir // _backup_name_to_meta_name backup_file) in *.
  assert (Hne' : S <> dir // backup_file).
  { intros Heq. symmetry in Heq. revert Heq.
    apply sidecar_is_no_backup with suffix; assumption. }
  assert (Hc1 : file_content (files w1) (dir // backup_file) = Some c).
  { unfold file_content. rewrite Hf, lookup_insert_ne by exact Hne'. exact Hc. }
  assert (He1 : exists_path (files w1) (dir // backup_file) = true).
  { unfold exists_path. apply bool_decide_eq_true. unfold file_content in Hc1.
    destruct (files w1 !! (dir // backup_file)); [eauto | discriminate]. }
  assert (Hm1 : files w1 !! S = Some (File (Metadata m') mode' (clock_epoch E)))
    by (rewrite Hf; apply lookup_insert_eq).
  assert (He2 : exists_path (files w1) S = true).
  { unfold exists_path. apply bool_decide_eq_true. rewrite Hm1. eauto. }
  unfold verify_backup. rewrite Hd. fold S.
  unfold bind at 1. unfold get_files at 1. cbv beta iota.
  rewrite He1, He2. cbn [negb]. cbv beta iota.
  unfold try_except. rewrite Hm1, Hsum.
  assert (String.eqb (sha256 E c) "" = false) as -> by (apply String.eqb_neq, Hne).
  unfold bind, logger, _calculate_file_checksum, bind, syscall, get_files, emit, ret.
  rewrite Hfl. cbn [files]. cbv beta iota. rewrite Hc1. cbv beta iota.
  rewrite String.eqb_refl. eauto.
Qed.

Lemma tagging_keeps_backup_verifiable_witness :
  let E := sample_env sample_projects no_fault None true in
  let tagged := tag_backup E sample_platform "project" "app" "app_20261103_120000_full.tar.gz"
                           (Some ["stable"]) (Some "high") None (Some "before the upgrade")
                           world_with_link in
  exists w2,
    verify_backup E "project" "app" "app_20261103_120000_full.tar.gz" tagged.2
    = (Returned (true, "Backup verified successfully (checksum matches)"), w2).
Proof.
  intros E tagged.
  assert (Hv : verify_backup E "project" "app" "app_20261103_120000_full.tar.gz" world_with_link
               = (Returned (true, "Backup verified successfully (checksum matches)"),
                  (verify_backup E "project" "app" "app_20261103_120000_full.tar.gz"
                                 world_with_link).2))
    by (vm_compute; reflexivity).
  assert (Ht : tagged = (Returned (true, (default (false, "") (match tagged.1 with
                                            | Returned x => Some x
                                            | Raised _ => None
                                            end)).2), tagged.2))
    by (vm_compute; reflexivity).
  exact (tagging_keeps_backup_verifiable E sample_platform "project" "app"
           "app_20261103_120000_full.tar.gz" ".tar.gz" (Some ["stable"]) (Some "high") None
           (Some "before the upgrade") world_with_link _ _ _ tagged.2
           (or_introl eq_refl) eq_refl Hv Ht).
Defined.


End TaggingFacts.

(** ** [backfill_checksums] *)

Module Backfill.
Import Engine Tagging.
Local Open Scope engine_scope.

(** The directory of the item and the pattern of its backups, as a
    suffix. *)
Definition backfill_target (E : env) (item_type item_name : string) : option (string * string) :=
  if String.eqb item_type "project"
  then Some (local_path E // "projects" // item_name, ".tar.gz")
  else if String.eqb item_type "database"
  then Some (local_path E // "databases" // item_name, ".sql.gz")
  else if String.eqb item_type "git"
  then Some (local_path E // "git" // item_name, ".bundle")
  else None.

(** [backup_file.name.replace(".tar.gz", ".json").replace(".sql.gz", ".json")]. *)
Definition backfill_metadata_name (name : string) : string :=
  replace ".sql.gz" ".json" (replace ".tar.gz" ".json" name).

(** [not metadata.get("checksum_sha256")]. *)
Definition no_checksum (m : sidecar) : bool :=
  match sc_checksum_sha256 m with
  | None => true
  | Some s => String.eqb s ""
  end.

Definition set_checksum (checksum : string) (m : sidecar) : sidecar :=
  mkSidecar (sc_backup_name m) (sc_item_name m) (sc_item_type m) (sc_description m)
            (sc_timestamp m) (sc_size_bytes m) (Some checksum) (sc_tags m)
            (sc_importance m) (sc_keep_forever m) (sc_pinned m) (sc_backup_type m)
            (sc_incremental m) (sc_files_added m) (sc_files_skipped m) (sc_base_backup m).

(** One backup file of the loop; the result is the count of updated
    sidecars.  The keys [checksum_added], [checksum_added_by], [size_mb],
    [created_by] and [version] are not part of the record. *)
Definition backfill_one (E : env) (P : platform) (backup_dir item_type item_name : string)
    (updated : Z) (pn : string * node) : M Z :=
  let name := default "" (entry_name backup_dir pn.1) in
  (* Check if metadata exists *)
  let metadata_name := backfill_metadata_name name in
  let metadata_path := backup_dir // metadata_name in
  do fs <- get_files;
  if exists_path fs metadata_path then
    try_except
      (match fs !! metadata_path with
       | Some (File (Metadata metadata) mode _) =>
           (* Check if checksum is missing or None *)
           if no_checksum metadata then
             logger INFO ("Calculating checksum for " +:+ name +:+ "...") ;;
             do checksum <- _calculate_file_checksum E pn.1;
             syscall (fault E) AtWriteMetadata "write metadata" ;;
             modify_files (insert metadata_path
                                  (File (Metadata (set_checksum checksum metadata))
                                        mode (clock_epoch E))) ;;
             logger INFO ("Added checksum to " +:+ metadata_name +:+ ": "
                          +:+ substring 0 8 checksum +:+ "...") ;;
             ret (updated + 1)
           else ret updated
       | _ => raise (ValueError "metadata is not valid JSON")
       end)
      (fun e =>
         logger ERROR ("Failed to update metadata for " +:+ name +:+ ": " +:+ exn_msg e) ;;
         ret updated)
  else
    (* Create metadata if it doesn't exist *)
    try_except
      (logger INFO ("Creating metadata for " +:+ name +:+ "...") ;;
       do checksum <- _calculate_file_checksum E pn.1;
       do fs <- get_files;
       let file_stats := file_stats E P (default pn.2 (fs !! pn.1)) in
       let metadata :=
         mkSidecar name item_name item_type None (isoformat P file_stats.1) file_stats.2
                   (Some checksum) [] None false false None None None None None in
       syscall (fault E) AtWriteMetadata "write metadata" ;;
       modify_files (insert metadata_path (File (Metadata metadata) 420 (clock_epoch E))) ;;
       logger INFO ("Created metadata for " +:+ name +:+ " with checksum: "
                    +:+ substring 0 8 checksum +:+ "...") ;;
       ret (updated + 1))
      (fun e =>
         logger ERROR ("Failed to create metadata for " +:+ name +:+ ": " +:+ exn_msg e) ;;
         ret updated).

(** [backfill_checksums]: [(updated_count, total_count)]. *)
Definition backfill_checksums (E : env) (P : platform) (item_type item_name : string)
    : M (Z * Z) :=
  match backfill_target E item_type item_name with
  | None => ret (0, 0)
  | Some (backup_dir, suffix) =>
      do fs <- get_files;
      if negb (exists_path fs backup_dir) then ret (0, 0)
      else
        (* Find all backup files *)
        let backup_files :=
          List.filter (fun pn => negb (is_symlink pn.2)) (glob fs backup_dir "" suffix) in
        let total := Z.of_nat (length backup_files) in
        do updated <- fold_m (backfill_one E P backup_dir item_type item_name) backup_files 0;
        ret (updated, total)
  end.

End Backfill.

Module BackfillFacts.
Import Engine EngineFacts CleanupFacts IntegrityFacts Tagging TaggingFacts Backfill.
Local Open Scope engine_scope.

(** An invariant of the loop over the backup files. *)
Lemma fold_m_invariant {S A} (I : S -> world -> Prop) (f : S -> A -> M S) (l : list A) :
  (forall s x w r w', x ∈ l -> I s w -> f s x w = (r, w') ->
                      exists s', r = Returned s' /\ I s' w') ->
  forall s w r w', I s w -> fold_m f l s w = (r, w') -> exists s', r = Returned s' /\ I s' w'.
Proof.
  induction l as [|x l IH]; intros Hstep s w r w' Hi Hrun.
  - injection Hrun as <- <-. eauto.
  - cbn [fold_m] in Hrun. apply bind_inv in Hrun as [(s1 & w1 & Hx & Hrun)|(e & Hx & ->)].
    + destruct (Hstep s x w _ _ ltac:(left) Hi Hx) as (s1' & [= <-] & Hi1).
      eapply IH; [|exact Hi1|exact Hrun].
      intros s0 y w0 r0 w0' Hy. apply Hstep. right. exact Hy.
    + destruct (Hstep s x w _ _ ltac:(left) Hi Hx) as (s1' & [=] & _).
Qed.

(** *** Git bundles *)

(** A bundle whose path is its own sidecar path and that does not read as
    JSON metadata: the attempt fails, is logged and changes nothing. *)
Lemma backfill_one_on_itself E P dir item_type item_name updated p nd n w r w' :
  entry_name dir p = Some n -> backfill_metadata_name n = n ->
  files w !! p = Some nd -> (forall m mode t, nd <> File (Metadata m) mode t) ->
  backfill_one E P dir item_type item_name updated (p, nd) w = (r, w') ->
  r = Returned updated /\ files w' = files w.
Proof.
  intros Hn Hm Hp Hnd. unfold backfill_one. cbv zeta. cbn [fst snd]. rewrite Hn.
  change (default "" (Some n)) with n.
  rewrite Hm, <- (entry_name_join _ _ _ Hn).
  unfold bind at 1. unfold get_files at 1. cbv beta iota.
  unfold exists_path. rewrite bool_decide_eq_true_2 by (rewrite Hp; eauto). rewrite Hp.
  unfold try_except, raise, bind, logger, ret.
  destruct nd as [[a|s|m|b] mode t|tg|]; try (intros [= <- <-]; auto).
  exfalso. eapply Hnd. reflexivity.
Qed.

(** For a git repository [backfill_checksums] adds no checksum and writes
    no sidecar: the sidecar name it computes replaces [.tar.gz] and
    [.sql.gz] only, so the sidecar path of a bundle is the bundle itself,
    which does not read as JSON.  Every bundle is counted and none is
    updated.  The bundles are no JSON files and their names contain
    neither [.tar.gz] nor [.sql.gz]. *)
Theorem backfill_does_nothing_for_git (E : env) (P : platform) (item_name : string)
    (w : world) (r : outcome (Z * Z)) (w' : world) :
  (forall p nd n,
     (p, nd) ∈ glob (files w) (local_path E // "git" // item_name) "" ".bundle" ->
     entry_name (local_path E // "git" // item_name) p = Some n ->
     occurs ".tar.gz" n = false /\ occurs ".sql.gz" n = false
     /\ forall m mode t, nd <> File (Metadata m) mode t) ->
  backfill_checksums E P "git" item_name w = (r, w') ->
  files w' = files w /\ exists total, r = Returned (0, total).
Proof.
  intros Hall. unfold backfill_checksums, backfill_target. cbn [String.eqb Ascii.eqb Bool.eqb].
  set (dir := local_path E // "git" // item_name) in *.
  unfold bind at 1. unfold get_files at 1. cbv beta iota.
  destruct (negb (exists_path (files w) dir)); [intros [= <- <-]; eauto|].
  assert (Hstep : forall s x w0 r0 w0',
             x ∈ List.filter (fun pn : string * node => negb (is_symlink pn.2))
                             (glob (files w) dir "" ".bundle") ->
             s = 0 /\ files w0 = files w ->
             backfill_one E P dir "git" item_name s x w0 = (r0, w0') ->
             exists s', r0 = Returned s' /\ s' = 0 /\ files w0' = files w).
  { intros s [p nd] w0 r0 w0' Hin [-> Hf0] Hrun.
    apply list_elem_of_In, filter_In in Hin as [Hin _]. apply list_elem_of_In in Hin.
    pose proof (glob_elem _ _ _ _ _ Hin) as (Hp & n & Hn & _). cbn [fst snd] in Hp, Hn.
    destruct (Hall p nd n Hin Hn) as (H1 & H2 & H3).
    assert (Hm : backfill_metadata_name n = n).
    { unfold backfill_metadata_name. rewrite (replace_absent ".tar.gz") by exact H1.
      apply replace_absent, H2. }
    rewrite <- Hf0 in Hp.
    destruct (backfill_one_on_itself _ _ _ _ _ _ _ _ _ _ _ _ Hn Hm Hp H3 Hrun) as [-> Hf1].
    exists 0. split; [reflexivity|]. split; [reflexivity | congruence]. }
  intros H. apply bind_inv in H as [(updated & w1 & Hloop & H)|(e & Hloop & ->)].
  - injection H as <- <-.
    destruct (fold_m_invariant (fun s w1 => s = 0 /\ files w1 = files w) _ _ Hstep
                0 w _ _ (conj eq_refl eq_refl) Hloop) as (s' & [= <-] & -> & Hf).
    eauto.
  - destruct (fold_m_invariant (fun s w1 => s = 0 /\ files w1 = files w) _ _ Hstep
                0 w _ _ (conj eq_refl eq_refl) Hloop) as (s' & [=] & _).
Qed.

Definition bundle_world : world :=
  mkWorld (<["/backups/git/site/site_20261103_120000.bundle"
               := File (Bytes "# v2 git bundle") 384 900000]>
             (<["/backups/git/site" := Directory]> ∅))
          [] [].

Lemma backfill_does_nothing_for_git_witness :
  let E := sample_env sample_projects no_fault None true in
  let run := backfill_checksums E sample_platform "git" "site" bundle_world in
  run.1 = Returned (0, 1) /\ files run.2 = files bundle_world.
Proof.
  intros E run.
  assert (Hr : run.1 = Returned (0, 1)) by (vm_compute; reflexivity).
  split; [exact Hr|].
  refine (proj1 (backfill_does_nothing_for_git E sample_platform "site" bundle_world
                   run.1 run.2 _ (surjective_pairing _))).
  intros p nd n Hin Hn.
  assert (Hg : glob (files bundle_world) (local_path E // "git" // "site") "" ".bundle"
               = [("/backups/git/site/site_20261103_120000.bundle",
                   File (Bytes "# v2 git bundle") 384 900000)])
    by (vm_compute; reflexivity).
  rewrite Hg in Hin. apply list_elem_of_singleton in Hin. injection Hin as -> ->.
  vm_compute in Hn. injection Hn as <-.
  split; [vm_compute; reflexivity|]. split; [vm_compute; reflexivity|]. discriminate.
Defined.

(** *** Backups of a project *)

Lemma backfill_name stem :
  plain_stem stem -> backfill_metadata_name (stem +:+ ".tar.gz") = stem +:+ ".json".
Proof.
  intros (H1 & H2 & _). unfold backfill_metadata_name.
  rewrite (replace_app ".tar.gz") by (assumption || reflexivity).
  change (replace ".tar.gz" ".json" ".tar.gz") with ".json".
  rewrite (replace_app ".sql.gz") by (assumption || reflexivity). reflexivity.
Qed.

Lemma sidecar_path_is_no_backup dir stem n :
  endswith n ".tar.gz" = true -> dir // n <> dir // (stem +:+ ".json").
Proof.
  intros He Heq. apply path_join_inj in Heq. apply (f_equal last_char) in Heq.
  rewrite (last_char_endswith n ".tar.gz" He) in Heq by discriminate.
  rewrite last_char_app in Heq by discriminate. discriminate.
Qed.

Section project.
Variable E : env.
Variable P : platform.
Variable item_name : string.
Let dir := local_path E // "projects" // item_name.

(** One step of the loop on a well-named backup: nothing changes, or the
    sidecar is written with the digest of the backup. *)
Lemma backfill_step updated p nd stem w r w' :
  entry_name dir p = Some (stem +:+ ".tar.gz") -> plain_stem stem ->
  backfill_one E P dir "project" item_name updated (p, nd) w = (r, w') ->
  exists updated',
    r = Returned updated'
    /\ (files w' = files w
        \/ exists c m' mode,
             file_content (files w) p = Some c
             /\ sc_checksum_sha256 m' = Some (sha256 E c)
             /\ files w' = <[dir // (stem +:+ ".json")
                               := File (Metadata m') mode (clock_epoch E)]> (files w)).
Proof.
  intros Hn Hp H. unfold backfill_one in H. cbv zeta in H. cbn [fst snd] in H.
  rewrite Hn in H. change (default "" (Some (stem +:+ ".tar.gz"))) with (stem +:+ ".tar.gz") in H.
  rewrite (backfill_name stem Hp) in H.
  cbv [_calculate_file_checksum bind try_except get_files syscall logger emit modify_files
       ret raise] in H.
  run_cases H; cbn [files] in H; injection H as <- <-; eexists; (split; [reflexivity|]);
    cbn [files]; try (left; reflexivity);
    right; eexists _, _, _; (split; [eassumption|]); (split; [|reflexivity]); reflexivity.
Qed.

(** With the disk working, a backup whose sidecar is missing or has no
    checksum gets one. *)
Lemma backfill_settles updated p stem c mode t w r w' :
  fault E AtChecksum = false -> fault E AtWriteMetadata = false ->
  entry_name dir p = Some (stem +:+ ".tar.gz") -> plain_stem stem ->
  files w !! p = Some (File c mode t) ->
  (files w !! (dir // (stem +:+ ".json")) = None
   \/ exists m md ts, files w !! (dir // (stem +:+ ".json")) = Some (File (Metadata m) md ts)
                      /\ no_checksum m = true) ->
  backfill_one E P dir "project" item_name updated (p, File c mode t) w = (r, w') ->
  exists m' md,
    sc_checksum_sha256 m' = Some (sha256 E c)
    /\ files w' = <[dir // (stem +:+ ".json") := File (Metadata m') md (clock_epoch E)]> (files w).
Proof.
  intros Hf1 Hf2 Hn Hp Hfile Hside H. unfold backfill_one in H. cbv zeta in H.
  cbn [fst snd] in H. rewrite Hn in H.
  change (default "" (Some (stem +:+ ".tar.gz"))) with (stem +:+ ".tar.gz") in H.
  rewrite (backfill_name stem Hp) in H.
  cbv [_calculate_file_checksum bind try_except get_files syscall logger emit modify_files
       ret raise file_content exists_path] in H.
  rewrite Hf1, Hf2 in H.
  destruct Hside as [Hs | (m & md & ts & Hs & Hno)]; rewrite Hs in H.
  - rewrite bool_decide_eq_false_2 in H by (intros [? [=]]).
    cbv beta iota in H. cbn [files] in H. rewrite Hfile in H.
    cbn [files] in H. injection H as <- <-. cbn [files]. eexists _, _.
    split; [|reflexivity]. reflexivity.
  - rewrite bool_decide_eq_true_2 in H by eauto. rewrite Hno in H.
    cbv beta iota in H. cbn [files] in H. rewrite Hfile in H.
    cbn [files] in H. injection H as <- <-. cbn [files]. eexists _, _.
    split; [|reflexivity]. reflexivity.
Qed.

(** The loop, seen from one backup [p] of the directory with content [c]:
    its sidecar is still [pending], or it is [settled] with the digest of
    [c]. *)
Variable w : world.
Variable p stem : string.
Variable c : content.
Variable mode t : Z.
Hypothesis disk_reads : fault E AtChecksum = false.
Hypothesis disk_writes : fault E AtWriteMetadata = false.
Hypothesis digest_not_empty : forall c, sha256 E c <> "".
Hypothesis well_named :
  forall q nd, (q, nd) ∈ glob (files w) dir "" ".tar.gz" ->
               exists stem', entry_name dir q = Some (stem' +:+ ".tar.gz") /\ plain_stem stem'.
Hypothesis the_backup : (p, File c mode t) ∈ glob (files w) dir "" ".tar.gz".
Hypothesis the_name : entry_name dir p = Some (stem +:+ ".tar.gz").
Hypothesis the_stem : plain_stem stem.

Let S := dir // (stem +:+ ".json").
Let backup_files :=
  List.filter (fun pn : string * node => negb (is_symlink pn.2))
              (glob (files w) dir "" ".tar.gz").

Definition frame (w1 : world) : Prop :=
  forall q nd, (q, nd) ∈ glob (files w) dir "" ".tar.gz" -> files w1 !! q = Some nd.

Definition settled (w1 : world) : Prop :=
  exists m' md ts, files w1 !! S = Some (File (Metadata m') md ts)
                   /\ sc_checksum_sha256 m' = Some (sha256 E c).

Definition pending (w1 : world) : Prop :=
  files w1 !! S = None
  \/ exists m md ts, files w1 !! S = Some (File (Metadata m) md ts) /\ no_checksum m = true.

Lemma frame_start : frame w.
Proof. intros q nd Hin. apply glob_elem in Hin as [Hq _]. exact Hq. Qed.

Lemma backfill_one_step updated pn w1 r w1' :
  pn ∈ backup_files -> frame w1 ->
  backfill_one E P dir "project" item_name updated pn w1 = (r, w1') ->
  exists updated',
    r = Returned updated' /\ frame w1'
    /\ (settled w1 -> settled w1')
    /\ (pending w1 -> (settled w1' \/ pending w1') /\ (pn = (p, File c mode t) -> settled w1')).
Proof.
  intros Hin Hfr Hrun. destruct pn as [q nd].
  apply list_elem_of_In, filter_In in Hin as [Hin _]. apply list_elem_of_In in Hin.
  destruct (well_named q nd Hin) as (stem' & Hn & Hp).
  pose proof (glob_elem _ _ _ _ _ Hin) as (_ & n & Hn' & He). cbn [fst] in Hn'.
  rewrite Hn in Hn'. injection Hn' as <-.
  destruct (backfill_step _ _ _ _ _ _ _ Hn Hp Hrun)
    as (updated' & -> & [Hsame | (c' & m' & md & Hc & Hsum & Hf)]).
  { exists updated'. split; [reflexivity|]. unfold frame, settled, pending. rewrite Hsame.
    split; [exact Hfr|]. split; [auto|]. intros Hpend. split; [auto|].
    intros [= -> ->]. exfalso.
    destruct (backfill_settles _ _ _ _ _ _ _ _ _ disk_reads disk_writes the_name the_stem
                (Hfr _ _ the_backup) Hpend Hrun) as (m'' & md'' & Hsum & Hf).
    rewrite Hf in Hsame. apply (f_equal (fun fs => fs !! S)) in Hsame.
    fold S in Hsame. rewrite lookup_insert_eq in Hsame.
    destruct Hpend as [Hs | (m & md & ts & Hs & Hno)]; rewrite Hs in Hsame;
      [discriminate Hsame|].
    injection Hsame as <- _ _. unfold no_checksum in Hno. rewrite Hsum in Hno.
    apply String.eqb_eq in Hno. exact (digest_not_empty _ Hno). }
  exists updated'. split; [reflexivity|].
  assert (Hfr' : frame w1').
  { intros q' nd' Hin'. rewrite Hf, lookup_insert_ne; [apply Hfr, Hin'|].
    pose proof (glob_elem _ _ _ _ _ Hin') as (_ & n' & Hn' & He'). cbn [fst] in Hn'.
    rewrite (entry_name_join _ _ _ Hn'). intros Heq. symmetry in Heq. revert Heq.
    apply sidecar_path_is_no_backup, He'. }
  split; [exact Hfr'|].
  assert (Hhit : dir // (stem' +:+ ".json") = S -> settled w1').
  { intros Heq. unfold S in Heq. apply path_join_inj in Heq.
    destruct (append_length_eq_inj _ _ _ _ Heq eq_refl) as [-> _].
    assert (q = p) as ->.
    { rewrite (entry_name_join _ _ _ Hn), (entry_name_join _ _ _ the_name). reflexivity. }
    unfold file_content in Hc. rewrite (Hfr _ _ the_backup) in Hc. injection Hc as <-.
    exists m', md, (clock_epoch E). split; [|exact Hsum].
    rewrite Hf. apply lookup_insert_eq. }
  split.
  - intros Hs. destruct (decide (dir // (stem' +:+ ".json") = S)) as [Heq|Hne]; [auto|].
    unfold settled. rewrite Hf, lookup_insert_ne by exact Hne. exact Hs.
  - intros Hpend. split.
    + destruct (decide (dir // (stem' +:+ ".json") = S)) as [Heq|Hne]; [auto|].
      right. unfold pending. rewrite Hf, lookup_insert_ne by exact Hne. exact Hpend.
    + intros [= -> ->]. apply Hhit. rewrite Hn in the_name. injection the_name as Heq.
      destruct (append_length_eq_inj _ _ _ _ Heq eq_refl) as [-> _]. reflexivity.
Qed.

Lemma backfill_loop (l : list (string * node)) :
  (forall pn, pn ∈ l -> pn ∈ backup_files) ->
  forall updated w1 r w2,
    frame w1 ->
    fold_m (backfill_one E P dir "project" item_name) l updated w1 = (r, w2) ->
    exists updated',
      r = Returned updated' /\ frame w2
      /\ (settled w1 -> settled w2)
      /\ (pending w1 -> settled w2 \/ (pending w2 /\ (p, File c mode t) ∉ l)).
Proof.
  induction l as [|pn l IH]; intros Hl updated w1 r w2 Hfr Hrun.
  - injection Hrun as <- <-. exists updated. split; [reflexivity|]. split; [exact Hfr|].
    split; [auto|]. intros Hp. right. split; [exact Hp|]. apply not_elem_of_nil.
  - cbn [fold_m] in Hrun.
    apply bind_inv in Hrun as [(u1 & w1' & Hx & Hrun)|(e & Hx & ->)].
    + destruct (backfill_one_step _ _ _ _ _ (Hl pn ltac:(left)) Hfr Hx)
        as (u1' & [= <-] & Hfr1 & Hs1 & Hp1).
      destruct (IH (fun x Hx' => Hl x ltac:(right; exact Hx')) _ _ _ _ Hfr1 Hrun)
        as (u2 & -> & Hfr2 & Hs2 & Hp2).
      exists u2. split; [reflexivity|]. split; [exact Hfr2|]. split; [auto|].
      intros Hpend. destruct (Hp1 Hpend) as [[Hs|Hp] Hitem]; [left; auto|].
      destruct (decide (pn.1 = p)) as [Heq|Hne'].
      { left. apply Hs2, Hitem. destruct pn as [q nd]. cbn [fst] in Heq. subst q.
        pose proof (Hl (p, nd) ltac:(left)) as Hin.
        apply list_elem_of_In, filter_In in Hin as [Hin _]. apply list_elem_of_In in Hin.
        apply glob_elem in Hin as [Hin _]. pose proof (frame_start _ _ the_backup) as Hb.
        cbn [fst snd] in Hin. rewrite Hb in Hin. injection Hin as <-. reflexivity. }
      assert (Hne : pn <> (p, File c mode t)) by (intros ->; apply Hne'; reflexivity).
      destruct (Hp2 Hp) as [Hs|[Hp' Hnot]]; [left; exact Hs|].
      right. split; [exact Hp'|]. rewrite not_elem_of_cons. auto.
    + destruct (backfill_one_step _ _ _ _ _ (Hl pn ltac:(left)) Hfr Hx) as (u1' & [=] & _).
Qed.

End project.

(** Backfilling makes a backup verifiable: a project backup whose sidecar
    is missing or has no checksum verifies after [backfill_checksums], and
    the backup file is as it was.  The disk can be read and written, a
    digest is never the empty string, and the [.tar.gz] entries of the
    directory are named by a stem without [.tar.gz], [.sql.gz] or
    [.bundle] inside. *)
Theorem backfilled_backup_verifies (E : env) (P : platform) (item_name : string) (w : world)
    (stem : string) (c : content) (mode t : Z) :
  let dir := local_path E // "projects" // item_name in
  let name := stem +:+ ".tar.gz" in
  fault E AtChecksum = false -> fault E AtWriteMetadata = false ->
  (forall c, sha256 E c <> "") ->
  exists_path (files w) dir = true ->
  (forall q nd, (q, nd) ∈ glob (files w) dir "" ".tar.gz" ->
                exists stem', entry_name dir q = Some (stem' +:+ ".tar.gz")
                              /\ plain_stem stem') ->
  (dir // name, File c mode t) ∈ glob (files w) dir "" ".tar.gz" ->
  plain_stem stem ->
  (files w !! (dir // (stem +:+ ".json")) = None
   \/ exists m md ts, files w !! (dir // (stem +:+ ".json")) = Some (File (Metadata m) md ts)
                      /\ no_checksum m = true) ->
  exists counts w1 w2,
    backfill_checksums E P "project" item_name w = (Returned counts, w1)
    /\ files w1 !! (dir // name) = Some (File c mode t)
    /\ verify_backup E "project" item_name name w1
       = (Returned (true, "Backup verified successfully (checksum matches)"), w2).
Proof.
  intros dir name Hrd Hwr Hsha Hdir Hall Hin Hstem Hpend.
  assert (Hname : entry_name dir (dir // name) = Some name).
  { pose proof (glob_elem _ _ _ _ _ Hin) as (_ & n & Hn & _). cbn [fst] in Hn.
    pose proof (entry_name_join _ _ _ Hn) as Heq. apply path_join_inj in Heq.
    rewrite <- Heq in Hn. exact Hn. }
  set (l := List.filter (fun pn : string * node => negb (is_symlink pn.2))
                        (glob (files w) dir "" ".tar.gz")).
  destruct (fold_m (backfill_one E P dir "project" item_name) l 0 w) as [r w1] eqn:Hloop.
  destruct (backfill_loop E P item_name w (dir // name) stem c mode t Hrd Hwr Hsha Hall Hin
              Hname Hstem l (fun pn H => H) 0 w r w1
              (frame_start E item_name w) Hloop) as (updated & -> & Hfr & _ & Hp).
  assert (Hset : settled E item_name stem c w1).
  { destruct (Hp Hpend) as [Hs | [_ Hnot]]; [exact Hs|]. exfalso. apply Hnot.
    apply list_elem_of_In, filter_In. split; [apply list_elem_of_In, Hin | reflexivity]. }
  destruct Hset as (m' & md & ts & Hm1 & Hsum).
  pose proof (Hfr _ _ Hin) as Hfile.
  assert (Hrun : backfill_checksums E P "project" item_name w
                 = (Returned (updated, Z.of_nat (length l)), w1)).
  { unfold backfill_checksums, backfill_target. cbn [String.eqb Ascii.eqb Bool.eqb].
    fold dir. unfold bind at 1. unfold get_files at 1. cbv beta iota. rewrite Hdir.
    cbn [negb]. cbv beta iota. fold l. unfold bind. rewrite Hloop. reflexivity. }
  eexists _, w1, _. split; [exact Hrun|]. split; [exact Hfile|].
  fold dir in Hm1.
  assert (He1 : exists_path (files w1) (dir // name) = true).
  { unfold exists_path. apply bool_decide_eq_true. rewrite Hfile. eauto. }
  assert (He2 : exists_path (files w1) (dir // (stem +:+ ".json")) = true).
  { unfold exists_path. apply bool_decide_eq_true. rewrite Hm1. eauto. }
  unfold verify_backup, item_dir. cbn [String.eqb Ascii.eqb Bool.eqb]. fold dir.
  unfold name. rewrite (meta_name_strips stem ".tar.gz") by (left; reflexivity). fold name.
  unfold bind at 1. unfold get_files at 1. cbv beta iota.
  rewrite He1, He2. cbn [negb]. cbv beta iota.
  unfold try_except. rewrite Hm1, Hsum.
  assert (String.eqb (sha256 E c) "" = false) as -> by (apply String.eqb_neq, Hsha).
  unfold bind, logger, _calculate_file_checksum, bind, syscall, get_files, emit, ret.
  rewrite Hrd. cbn [files]. cbv beta iota. unfold file_content. rewrite Hfile.
  cbv beta iota. rewrite String.eqb_refl. reflexivity.
Qed.

Lemma backfilled_backup_verifies_witness :
  let E := sample_env sample_projects no_fault None true in
  let run := backfill_checksums E sample_platform "project" "app" written_world in
  run.1 = Returned (1, 1)
  /\ exists w2,
       verify_backup E "project" "app" "app_20261104_120000_full.tar.gz" run.2
       = (Returned (true, "Backup verified successfully (checksum matches)"), w2).
Proof.
  intros E run.
  assert (Hg : glob (files written_world) (local_path E // "projects" // "app") "" ".tar.gz"
               = [("/backups/projects/app/app_20261104_120000_full.tar.gz",
                   File (Archive [dir "app"]) 420 1000000)])
    by (vm_compute; reflexivity).
  assert (Hp : plain_stem "app_20261104_120000_full")
    by (repeat split; vm_compute; reflexivity).
  destruct (backfilled_backup_verifies E sample_platform "app" written_world
              "app_20261104_120000_full" (Archive [dir "app"]) 420 1000000
              eq_refl eq_refl) as (counts & w1 & w2 & Hrun & _ & Hv).
  - intros [| | |]; discriminate.
  - vm_compute. reflexivity.
  - intros q nd Hin. rewrite Hg in Hin. apply list_elem_of_singleton in Hin.
    injection Hin as -> ->. exists "app_20261104_120000_full".
    split; [vm_compute; reflexivity | exact Hp].
  - rewrite Hg. apply list_elem_of_singleton. reflexivity.
  - exact Hp.
  - left. vm_compute. reflexivity.
  - split; [vm_compute; reflexivity|].
    assert (Hw : run.2 = w1) by (unfold run; rewrite Hrun; reflexivity).
    rewrite Hw. exists w2. exact Hv.
Defined.

End BackfillFacts.

(** ** A second run on the same day *)

Module RerunFacts.
Import Engine EngineFacts CleanupFacts IntegrityFacts MirrorFacts.
Local Open Scope engine_scope.

(** *** Names *)

Definition no_slash (s : string) : bool :=
  all_chars (fun a => negb (Ascii.eqb a "/"%char)) s.

Lemma all_chars_app p a b : all_chars p (a +:+ b) = all_chars p a && all_chars p b.
Proof.
  induction a as [|c a IH]; [reflexivity|].
  change (String c a +:+ b) with (String c (a +:+ b)). simpl. rewrite IH.
  apply andb_assoc.
Qed.

Lemma drop_chars_app a b : drop_chars (String.length a) (a +:+ b) = b.
Proof.
  induction a as [|c a IH]; [destruct b; reflexivity|].
  change (String c a +:+ b) with (String c (a +:+ b)). simpl. exact IH.
Qed.

Lemma identifier_no_slash name : identifier_matches name = true -> no_slash name = true.
Proof.
  unfold identifier_matches, no_slash. intros [_ Hall]%andb_true_iff.
  assert (Hcls : all_chars (fun c => ident_char c || Ascii.eqb c "010"%char) name = true).
  { destruct (ends_with_newline name) eqn:En.
    - apply ValidationFacts.all_chars_but_newline; assumption.
    - revert Hall. apply ValidationFacts.all_chars_weaken. intros c ->. reflexivity. }
  revert Hcls. apply ValidationFacts.all_chars_weaken, ValidationFacts.ident_char_not_slash.
Qed.

(** A name without a separator names an entry of the directory. *)
Lemma entry_name_of_join dir n :
  no_slash n = true -> n <> "" -> entry_name dir (dir // n) = Some n.
Proof.
  intros Hs Hn. unfold entry_name, path_join.
  rewrite <- (string_app_assoc dir "/" n), prefix_append, drop_chars_app.
  destruct (String.eqb_spec n "") as [->|_]; [congruence|].
  unfold split_slash. rewrite (ValidationFacts.split_on_absent _ _ Hs).
  rewrite bool_decide_eq_true_2 by reflexivity. reflexivity.
Qed.

(** The name of the archive of a run. *)
Definition archive_suffix (suffix : string) : Prop :=
  suffix = ".tar.gz" \/ suffix = "_full.tar.gz" \/ suffix = "_incr.tar.gz".

Section names.
Variables name today time suffix : string.
Hypothesis name_ok : no_slash name = true.
Hypothesis today_ok : no_slash today = true.
Hypothesis time_ok : no_slash time = true.
Hypothesis suffix_ok : archive_suffix suffix.

Let stamp := today +:+ "_" +:+ time.
Let bn := name +:+ "_" +:+ stamp +:+ suffix.

Lemma archive_name_no_slash : no_slash bn = true.
Proof.
  unfold bn, stamp, no_slash. rewrite !all_chars_app.
  fold (no_slash name) (no_slash today) (no_slash time). rewrite name_ok, today_ok, time_ok.
  destruct suffix_ok as [-> | [-> | ->]]; reflexivity.
Qed.

Lemma archive_name_nonempty : bn <> "".
Proof.
  unfold bn. intros H. apply (f_equal String.length) in H.
  rewrite !append_length in H. simpl in H. lia.
Qed.

Lemma archive_name_today :
  String.prefix (name +:+ "_" +:+ today +:+ "_") bn = true.
Proof.
  unfold bn, stamp.
  replace (name +:+ "_" +:+ (today +:+ "_" +:+ time) +:+ suffix)
    with ((name +:+ "_" +:+ today +:+ "_") +:+ (time +:+ suffix))
    by (rewrite !string_app_assoc; reflexivity).
  apply prefix_append.
Qed.

Lemma archive_name_gz : endswith bn ".tar.gz" = true.
Proof.
  unfold bn.
  destruct suffix_ok as [-> | [-> | ->]].
  - rewrite <- !string_app_assoc. apply endswith_app.
  - change "_full.tar.gz" with ("_full" +:+ ".tar.gz"). rewrite <- !string_app_assoc.
    apply endswith_app.
  - change "_incr.tar.gz" with ("_incr" +:+ ".tar.gz"). rewrite <- !string_app_assoc.
    apply endswith_app.
Qed.

Lemma archive_name_long :
  (String.length ((name +:+ "_" +:+ today +:+ "_") +:+ ".tar.gz") <= String.length bn)%nat.
Proof.
  unfold bn, stamp. rewrite !append_length.
  destruct suffix_ok as [-> | [-> | ->]]; simpl; lia.
Qed.

Lemma archive_name_not_latest : bn <> "latest.tar.gz".
Proof.
  unfold bn. intros H.
  assert (Hu : all_chars (fun a => negb (Ascii.eqb a "_"%char)) "latest.tar.gz" = true)
    by reflexivity.
  rewrite <- H, !all_chars_app in Hu. simpl in Hu. rewrite andb_false_r in Hu.
  discriminate.
Qed.

End names.

(** The test of [skip_if_exists_today] finds an archive of today. *)
Lemma archive_found_today E fs dir name bn c mode t :
  is_Some (fs !! dir) -> fs !! (dir // bn) = Some (File c mode t) ->
  entry_name dir (dir // bn) = Some bn ->
  String.prefix (name +:+ "_" +:+ clock_today E +:+ "_") bn = true ->
  endswith bn ".tar.gz" = true ->
  (String.length ((name +:+ "_" +:+ clock_today E +:+ "_") +:+ ".tar.gz")
   <= String.length bn)%nat ->
  _has_backup_today E fs dir name = true.
Proof.
  intros Hd Hq Hn Hpre Hgz Hlen. unfold _has_backup_today, exists_path.
  rewrite bool_decide_eq_true_2 by exact Hd. cbn [negb].
  assert (Hin : (dir // bn, File c mode t)
                ∈ glob fs dir (name +:+ "_" +:+ clock_today E +:+ "_") ".tar.gz").
  { unfold glob. apply list_elem_of_In, filter_In. split.
    - apply list_elem_of_In, elem_of_map_to_list. exact Hq.
    - cbn [fst]. rewrite Hn, Hpre, Hgz. cbn [andb]. apply Nat.leb_le. exact Hlen. }
  destruct (glob fs dir _ ".tar.gz"); [inversion Hin | reflexivity].
Qed.

(** *** What finalization keeps *)

(** The archive of the run is a file with the time of the run, in a
    directory that is there. *)
Definition kept (E : env) (q dir : string) (fs : gmap string node) : Prop :=
  (exists c mode, fs !! q = Some (File c mode (clock_epoch E))) /\ fs !! dir = Some Directory.

Lemma kept_insert_other E q dir fs p n :
  kept E q dir fs -> p <> q -> p <> dir -> kept E q dir (<[p := n]> fs).
Proof.
  intros [Hq Hd] H1 H2. unfold kept. rewrite !lookup_insert_ne by congruence. auto.
Qed.

Lemma kept_insert_file E q dir fs p c mode :
  kept E q dir fs -> p <> dir -> kept E q dir (<[p := File c mode (clock_epoch E)]> fs).
Proof.
  intros [Hq Hd] H2. unfold kept. rewrite (lookup_insert_ne _ p dir) by congruence.
  split; [|exact Hd]. destruct (decide (p = q)) as [->|Hne].
  - rewrite lookup_insert_eq. eauto.
  - rewrite lookup_insert_ne by congruence. exact Hq.
Qed.

Lemma prefix_refl (a : string) : String.prefix a a = true.
Proof. rewrite <- (append_nil_r a) at 2. apply prefix_append. Qed.

Lemma chmod_keeps E q dir mode w r w' :
  q <> dir -> kept E q dir (files w) -> chmod E q mode w = (r, w') -> kept E q dir (files w').
Proof.
  intros Hqd Hk. pose proof Hk as [(c & md & Hq) Hd].
  unfold chmod, bind, syscall, get_files, modify_files, emit, raise, ret.
  destruct (fault E AtChmod); [intros [= _ <-]; exact Hk|]. cbn [files]. rewrite Hq.
  intros [= _ <-]. cbn [files]. apply kept_insert_file; assumption.
Qed.

Lemma metadata_keeps E q dir d backup_name item_name item_type description size path extra
    w w' :
  kept E q dir (files w) -> d // metadata_name_of backup_name <> dir ->
  _create_backup_metadata E d backup_name item_name item_type description size path extra w
  = (Returned tt, w') ->
  kept E q dir (files w').
Proof.
  intros Hk Hne H. apply create_metadata_run in H as (c & _ & _ & ->).
  apply kept_insert_file; assumption.
Qed.

(** A sync that returns has touched the mirror directory only. *)
Lemma sync_frame E local_dir sub backup_name w w' p :
  _sync_to_secondary E local_dir sub backup_name w = (Returned tt, w') ->
  (forall sp, secondary E = Some sp ->
              p <> sp // sub /\ forall n, p <> sp // sub // n) ->
  files w' !! p = files w !! p.
Proof.
  intros H Hp. unfold _sync_to_secondary in H.
  destruct (secondary E) as [sp|]; [|injection H as <-; reflexivity].
  destruct (Hp sp eq_refl) as [Hp1 Hp2].
  apply bind_inv in H as [([] & w0 & S & H)|(e & _ & ?)]; [|discriminate].
  assert (w0 = w) as ->.
  { unfold syscall in S. destruct (fault E AtSyncMkdir); [discriminate|]. now injection S. }
  apply bind_inv in H as [([] & w0 & S' & H)|(e & _ & ?)]; [|discriminate].
  injection S' as <-.
  apply bind_inv in H as [(copied & w1 & C1 & H)|(e & _ & ?)]; [|discriminate].
  apply smart_copy_run in C1 as (_ & Hfr1 & _).
  apply bind_inv in H as [([] & w2 & L & H)|(e & _ & ?)]; [|discriminate].
  assert (Hf2 : files w2 = files w1).
  { destruct copied; simpl in L; unfold logger, ret in L; injection L as <-; reflexivity. }
  apply bind_inv in H as [(fs & w3 & G & H)|(e & _ & ?)]; [|discriminate].
  injection G as <- <-.
  assert (H1 : files w2 !! p = files w !! p).
  { rewrite Hf2, Hfr1 by apply Hp2. cbn [files]. apply lookup_insert_ne. congruence. }
  destruct (exists_path (files w2) _).
  - apply bind_inv in H as [(c2 & w3 & C2 & H)|(e & _ & ?)]; [|discriminate].
    injection H as <-. apply smart_copy_run in C2 as (_ & Hfr2 & _).
    rewrite Hfr2 by apply Hp2. exact H1.
  - injection H as <-. exact H1.
Qed.

Lemma cleanup_keeps E patterns directory retention_days q dir bn w r w' :
  q = dir // bn -> endswith bn ".tar.gz" = true ->
  0 <= retention_days * day_length E ->
  (forall n, dir <> directory // n) ->
  kept E q dir (files w) ->
  _cleanup_old_backups E patterns directory retention_days w = (r, w') ->
  kept E q dir (files w').
Proof.
  intros -> Hgz Hret Hdir [(c & md & Hq) Hd] Hrun. split.
  - destruct (cleanup_frame _ _ _ _ _ _ _ (dir // bn) Hrun)
      as [-> | (_ & q' & n & Hex & [<- | Heq])]; [eauto | |].
    + exfalso. destruct Hex as (sf & c' & md' & mt & _ & Hq' & _ & _ & Hlt).
      rewrite Hq in Hq'. injection Hq' as _ _ <-. unfold cutoff in Hlt. lia.
    + exfalso. revert Heq. apply sidecar_is_no_backup with ".tar.gz"; [left; reflexivity|].
      exact Hgz.
  - destruct (cleanup_frame _ _ _ _ _ _ _ dir Hrun)
      as [-> | (_ & q' & n & Hex & [<- | Heq])]; [exact Hd | |].
    + exfalso. destruct Hex as (sf & c' & md' & mt & _ & Hq' & _). congruence.
    + exfalso. exact (Hdir _ Heq).
Qed.

Lemma update_latest_keeps E q dir link target w r w' :
  dir // link <> q -> kept E q dir (files w) ->
  update_latest E dir link target w = (r, w') -> kept E q dir (files w').
Proof.
  intros Hne Hk. unfold update_latest, bind, syscall, modify_files, emit, raise, ret.
  destruct (fault E AtSymlink); intros [= _ <-]; [exact Hk|]. cbn [files].
  apply kept_insert_other; [exact Hk | exact Hne | apply path_join_ne_dir].
Qed.

Lemma save_snapshot_keeps E rx project t q dir name plan st w r w' :
  kept E q dir (files w) ->
  save_snapshot E rx project t (dir // name) plan st w = (r, w') ->
  kept E q dir (files w').
Proof.
  intros Hk. unfold save_snapshot.
  destruct (_ || _); [|intros [= _ <-]; exact Hk].
  unfold try_except, bind, syscall, modify_files, logger, raise, ret.
  destruct (fault E AtWriteSnapshot); intros [= _ <-]; cbn [files]; [exact Hk|].
  apply kept_insert_file; [exact Hk | apply path_join_ne_dir].
Qed.

Section run.
Variable E : env.
Variable name : string.
Let dir := local_path E // "projects" // name.

(** The mirror directory of the project and its local directory are
    apart: neither path begins with the other. *)
Definition mirror_apart : Prop :=
  forall sp, secondary E = Some sp ->
             String.prefix (sp // ("projects/" +:+ name)) dir = false
             /\ String.prefix dir (sp // ("projects/" +:+ name)) = false.

Hypothesis apart : mirror_apart.

Lemma finalize_keeps bn description retention_days extra w size w' :
  endswith bn ".tar.gz" = true -> bn <> "latest.tar.gz" ->
  0 <= retention_days * day_length E ->
  kept E (dir // bn) dir (files w) ->
  finalize_for E KProject name bn description retention_days extra w = (Returned size, w') ->
  kept E (dir // bn) dir (files w').
Proof.
  intros Hgz Hlatest Hret Hk H. cbn [finalize_for] in H. fold dir in H.
  unfold _finalize_backup in H.
  apply bind_inv in H as [([] & w1 & H1 & H) | (e & _ & [=])].
  apply (chmod_keeps _ _ _ _ _ _ _ (path_join_ne_dir _ _) Hk) in H1.
  apply bind_inv in H as [(fs & w1' & [= <- <-] & H) | (e & [=] & _)].
  apply bind_inv in H as [([] & w2 & H2 & H) | (e & _ & [=])].
  apply (metadata_keeps _ _ _ _ _ _ _ _ _ _ _ _ _ H1 (path_join_ne_dir _ _)) in H2.
  apply bind_inv in H as [([] & w3 & H3 & H) | (e & _ & [=])].
  assert (K3 : kept E (dir // bn) dir (files w3)).
  { destruct H2 as [(c & md & Hq) Hd]. unfold kept.
    rewrite !(sync_frame _ _ _ _ _ _ _ H3); [eauto | |].
    - intros sp Hsp. destruct (apart sp Hsp) as [Ha Hb]. split.
      + intros Heq. rewrite Heq, prefix_refl in Ha. discriminate.
      + intros n. apply apart_dir. exact Ha.
    - intros sp Hsp. destruct (apart sp Hsp) as [Ha Hb]. split.
      + apply not_eq_sym, apart_dir. exact Hb.
      + intros n Heq. symmetry in Heq. revert Heq. apply apart_join; assumption. }
  apply bind_inv in H as [([] & w4 & H4 & H) | (e & _ & [=])].
  assert (K4 : kept E (dir // bn) dir (files w4)).
  { eapply update_latest_keeps; [|exact K3|exact H4].
    intros Heq. apply path_join_inj in Heq. congruence. }
  apply bind_inv in H as [([] & w5 & H5 & H) | (e & _ & [=])].
  injection H as _ <-.
  unfold _run_retention_cleanup in H5.
  apply bind_inv in H5 as [([] & w6 & H6 & H5) | (e & _ & [=])].
  assert (K6 : kept E (dir // bn) dir (files w6)).
  { eapply cleanup_keeps; [reflexivity | exact Hgz | exact Hret | | exact K4 | exact H6].
    intros n Heq. symmetry in Heq. exact (path_join_ne_dir _ _ Heq). }
  destruct (secondary E) as [sp|] eqn:Hsp; [|injection H5 as <-; exact K6].
  destruct (String.eqb _ ""); [injection H5 as <-; exact K6|].
  apply bind_inv in H5 as [(fs & w7 & [= <- <-] & H5) | (e & [=] & _)].
  unfold when in H5. destruct (exists_path _ _); [|injection H5 as <-; exact K6].
  eapply cleanup_keeps; [reflexivity | exact Hgz | exact Hret | | exact K6 | exact H5].
  intros n. apply apart_dir. destruct (apart sp Hsp) as [Ha _]. exact Ha.
Qed.

(** The retention period [backup_project] passes to the finalization. *)
Definition retention_of (project : project) : Z :=
  default (default DEFAULT_PROJECT_RETENTION_DAYS (default_retention_days E))
          (p_retention_days project).

Lemma write_and_finalize_keeps project t description exclude plan w w' :
  endswith (bp_backup_name plan) ".tar.gz" = true -> bp_backup_name plan <> "latest.tar.gz" ->
  0 <= retention_of project * day_length E ->
  files w !! dir = Some Directory ->
  write_and_finalize E name project t description dir exclude plan w = (Returned tt, w') ->
  kept E (dir // bp_backup_name plan) dir (files w').
Proof.
  intros Hgz Hlatest Hret Hd H. unfold write_and_finalize in H. cbv zeta in H.
  apply bind_inv in H as [([] & w1 & H1 & H) | (e & _ & [=])].
  assert (files w1 = files w) as F1.
  { unfold syscall in H1. destruct (fault E AtOpenArchive); [discriminate|].
    now injection H1 as <-. }
  apply bind_inv in H as [([] & w2 & [= <-] & H) | (e & [=] & _)].
  apply bind_inv in H as [([] & w3 & H3 & H) | (e & _ & [=])].
  assert (w3 = mkWorld (<[dir // bp_backup_name plan := File (Archive []) 420 (clock_epoch E)]>
                          (files w1)) (log w1) (trace w1)) as ->.
  { unfold syscall in H3. destruct (fault E AtAddFiles); [discriminate|].
    now injection H3 as <-. }
  apply bind_inv in H as [([] & w4 & [= <-] & H) | (e & [=] & _)].
  cbn [files] in H.
  match type of H with
  | bind _ _ ?w0 = _ =>
      assert (K4 : kept E (dir // bp_backup_name plan) dir (files w0))
  end.
  { cbn [files]. split.
    - rewrite lookup_insert_eq. eauto.
    - rewrite !lookup_insert_ne by apply path_join_ne_dir. rewrite F1. exact Hd. }
  apply bind_inv in H as [([] & w5 & H5 & H) | (e & _ & [=])].
  assert (K5 : kept E (dir // bp_backup_name plan) dir (files w5)).
  { unfold when in H5. destruct (bp_incremental plan); unfold logger, ret in H5;
      injection H5 as <-; exact K4. }
  apply bind_inv in H as [([] & w6 & H6 & H) | (e & _ & [=])].
  apply (save_snapshot_keeps _ _ _ _ _ _ _ _ _ _ _ _ K5) in H6.
  apply bind_inv in H as [(size & w7 & H7 & H) | (e & _ & [=])].
  unfold logger in H. injection H as <-. cbn [files].
  eapply finalize_keeps; [exact Hgz | exact Hlatest | exact Hret | exact H6 | exact H7].
Qed.

Variables today time : string.
Hypothesis stamp_of_today : clock_stamp E = today +:+ "_" +:+ time.
Hypothesis today_ok : no_slash today = true.
Hypothesis time_ok : no_slash time = true.

(** The [try] block that reports success leaves today's archive. *)
Lemma backup_project_try_keeps project t description incremental exclude w msg w' :
  identifier_matches name = true ->
  0 <= retention_of project * day_length E ->
  backup_project_try E name project t description incremental exclude w
  = (Returned (true, msg), w') ->
  exists bn c mode,
    files w' !! (dir // bn) = Some (File c mode (clock_epoch E))
    /\ files w' !! dir = Some Directory
    /\ entry_name dir (dir // bn) = Some bn
    /\ String.prefix (name +:+ "_" +:+ today +:+ "_") bn = true
    /\ endswith bn ".tar.gz" = true
    /\ (String.length ((name +:+ "_" +:+ today +:+ "_") +:+ ".tar.gz") <= String.length bn)%nat.
Proof.
  intros Hid Hret H. unfold backup_project_try in H. cbv zeta in H. fold dir in H.
  pose proof (identifier_no_slash _ Hid) as Hname.
  apply guarded_inv in H as [(a & w1 & Hm & H) | (e & w1 & _ & H)];
    [|apply backup_failed_run in H as [[=] _]].
  apply make_backup_dir_run in Hm as [(_ & (e & He) & _) | (_ & _ & Hw1)]; [discriminate He|].
  apply guarded_inv in H as [(plan & w2 & Hm & H) | (e & w2 & _ & H)];
    [|apply backup_failed_run in H as [[=] _]].
  apply choose_plan_run in Hm as (Hw2 & [(e & He) | Hplan]); [discriminate He|].
  injection Hplan as Hplan.
  apply guarded_inv in H as [([] & w3 & Hm & H) | (e & w3 & _ & H)];
    [|apply backup_failed_run in H as [[=] _]].
  injection H as _ <-.
  assert (Hname' : exists suffix,
             bp_backup_name plan = name +:+ "_" +:+ (today +:+ "_" +:+ time) +:+ suffix
             /\ archive_suffix suffix).
  { rewrite Hplan, <- stamp_of_today. apply plan_of_name. }
  destruct Hname' as (suffix & Hbn & Hsuf).
  assert (Hd2 : files w2 !! dir = Some Directory)
    by (rewrite Hw2, Hw1; apply lookup_insert_eq).
  pose proof (archive_name_gz name today time suffix Hsuf) as Hgz.
  pose proof (archive_name_not_latest name today time suffix) as Hlatest.
  pose proof (archive_name_no_slash name today time suffix Hname today_ok time_ok Hsuf) as Hns.
  pose proof (archive_name_nonempty name today time suffix) as Hne.
  pose proof (archive_name_today name today time suffix) as Hpre.
  pose proof (archive_name_long name today time suffix Hsuf) as Hlen.
  rewrite <- Hbn in Hgz, Hlatest, Hns, Hne, Hpre, Hlen.
  destruct (write_and_finalize_keeps project t description exclude plan w2 w3
              Hgz Hlatest Hret Hd2 Hm) as [(c & mode & Hq) Hd3].
  exists (bp_backup_name plan), c, mode.
  split; [exact Hq|]. split; [exact Hd3|].
  split; [apply entry_name_of_join; assumption|]. auto.
Qed.

(** What a call of [backup_project] that reports success has found. *)
Lemma backup_project_success description incremental skip w msg w' :
  backup_project E name description incremental skip w = (Returned (true, msg), w') ->
  identifier_matches name = true
  /\ exists project t,
       get_project E name = Some project /\ p_enabled project = true
       /\ source_tree E (p_path project) = Some t
       /\ ((skip = true /\ _has_backup_today E (files w) dir name = true /\ w' = w)
           \/ exists w1,
                files w1 = files w
                /\ backup_project_try E name project t description incremental
                     (remove_dups (p_exclude project ++ global_excludes E)) w1
                   = (Returned (true, msg), w')).
Proof.
  unfold backup_project, bind, lift, _validate_identifier, get_files. intros H.
  destruct (identifier_matches name); [|discriminate H]. split; [reflexivity|].
  destruct (get_project E name) as [project|] eqn:Hp; [|discriminate H].
  destruct (p_enabled project) eqn:Hen; [|discriminate H]. cbn [negb] in H.
  destruct (source_tree E (p_path project)) as [t|] eqn:Ht; [|discriminate H].
  cbv beta iota zeta in H. fold dir in H.
  exists project, t. split; [reflexivity|]. split; [exact Hen|]. split; [exact Ht|].
  destruct (skip && _has_backup_today E (files w) dir name) eqn:Hskip.
  { left. apply andb_true_iff in Hskip as [-> Hh]. injection H as _ <-. auto. }
  right. unfold _check_disk_space, bind, ret, logger in H.
  destruct (available_bytes E dir) as [a|].
  - destruct (_ <? _); cbv beta iota zeta in H; cbn [fst snd negb] in H;
      cbv beta iota zeta in H; [discriminate H|].
    eexists. split; [|exact H]. reflexivity.
  - cbv beta iota zeta in H; cbn [fst snd negb] in H; cbv beta iota zeta in H.
    eexists. split; [|exact H]. reflexivity.
Qed.

End run.

Lemma has_backup_today_clock E E' fs dir name :
  clock_today E' = clock_today E ->
  _has_backup_today E' fs dir name = _has_backup_today E fs dir name.
Proof. intros H. unfold _has_backup_today. rewrite H. reflexivity. Qed.

(** A second run on the same day is skipped.  After [backup_project] has
    reported success, the test of [skip_if_exists_today] finds a backup of
    the day, at any later time of that day, and a call with
    [skip_if_exists_today] set returns at once and changes nothing.  The
    run's timestamp is the day followed by [_] and the time, neither with
    a [/] inside; the retention period is not negative; the mirror
    directory, if there is one, and the local directory are apart. *)
Theorem rerun_same_day_is_skipped (E : env) (name time : string)
    (description description' : option string) (incremental incremental' skip : bool)
    (w : world) (msg : string) (w' : world) :
  clock_stamp E = clock_today E +:+ "_" +:+ time ->
  no_slash (clock_today E) = true -> no_slash time = true ->
  (forall project, get_project E name = Some project ->
                   0 <= retention_of E project * day_length E) ->
  mirror_apart E name ->
  backup_project E name description incremental skip w = (Returned (true, msg), w') ->
  (forall E', clock_today E' = clock_today E ->
              _has_backup_today E' (files w') (local_path E // "projects" // name) name = true)
  /\ backup_project E name description' incremental' true w'
     = (Returned (true, "Skipped: backup already exists for today"), w').
Proof.
  intros Hstamp Htoday Htime Hret Hapart H.
  apply backup_project_success in H as (Hid & project & t & Hp & Hen & Ht & Hcase).
  set (dir := local_path E // "projects" // name) in *.
  assert (Hfound : _has_backup_today E (files w') dir name = true).
  { destruct Hcase as [(_ & Hh & ->) | (w1 & _ & Htry)]; [exact Hh|].
    destruct (backup_project_try_keeps E name Hapart (clock_today E) time Hstamp Htoday Htime
                project t description incremental _ w1 msg w' Hid (Hret _ Hp) Htry)
      as (bn & c & mode & Hq & Hd & Hn & Hpre & Hgz & Hlen).
    eapply archive_found_today; eauto. }
  split.
  - intros E' Hclock. rewrite (has_backup_today_clock E E' _ _ _ Hclock). exact Hfound.
  - unfold backup_project, bind, lift, _validate_identifier, get_files.
    rewrite Hid, Hp, Hen, Ht. cbn [negb]. cbv beta iota zeta. fold dir.
    rewrite Hfound. reflexivity.
Qed.

Lemma rerun_same_day_is_skipped_witness :
  let E := sample_env sample_projects no_fault (Some "/mirror") true in
  let first := backup_project E "app" None false false empty_world in
  first.1 = Returned (true, "Backup successful: app_20261104_120000_full.tar.gz")
  /\ backup_project E "app" (Some "again") true true first.2
     = (Returned (true, "Skipped: backup already exists for today"), first.2).
Proof.
  intros E first.
  assert (Hr : first = (Returned (true, "Backup successful: app_20261104_120000_full.tar.gz"),
                        first.2)) by (vm_compute; reflexivity).
  split; [rewrite Hr; reflexivity|].
  refine (proj2 (rerun_same_day_is_skipped E "app" "120000" None (Some "again") false true false
                   empty_world _ first.2 eq_refl eq_refl eq_refl _ _ Hr)).
  - intros project Hp. vm_compute in Hp. injection Hp as <-. vm_compute. discriminate.
  - intros sp Hsp. vm_compute in Hsp. injection Hsp as <-. split; vm_compute; reflexivity.
Defined.

End RerunFacts.

